(** * Verification of [scripts/parse_leaflet_providers.py]

    The script turns the provider table of leaflet-providers.js (read as
    JSON) into a flat catalog of tile providers and renders that catalog
    as a Python module.  This development embeds the normalizer
    ([process_data], [process_provider], [pythonize_data]), the classes
    of the rendered module ([Bunch.__getattr__], [TileProvider.__call__])
    and the rendering itself ([format_provider], [format_bunch],
    [generate_file]), and proves the properties the specification
    states about them, and further properties the code shows.

    Python objects live in a store: a [dict] is a mutable object reached
    through a reference, so that [.copy()], [.pop()] and item assignment
    act on the object they are called on and aliasing is visible.  A
    Python [str] is represented by the bytes of its UTF-8 encoding;
    substring search and [str.replace] agree on both views because UTF-8
    is self-synchronising. *)

From Stdlib Require Import ZArith String Ascii List Bool Lia DecimalString.
From stdpp Require Import base tactics option list strings.

Open Scope string_scope.
Open Scope list_scope.

(** ** Python strings *)

Module PyStr.

(** [needle in s] for two strings: [needle] occurs at some position. *)
Fixpoint str_in (needle s : string) : bool :=
  String.prefix needle s ||
  match s with
  | EmptyString => false
  | String _ s' => str_in needle s'
  end.

(** The scanning loop of [str.replace] for a non-empty pattern.  [skip]
    counts the characters of a matched occurrence that are still to be
    stepped over. *)
Fixpoint replace_from (old new : string) (skip : nat) (s : string) : string :=
  match s with
  | EmptyString => EmptyString
  | String c s' =>
      match skip with
      | S k => replace_from old new k s'
      | O =>
          if String.prefix old s
          then new +:+ replace_from old new (String.length old - 1) s'
          else String c (replace_from old new 0 s')
      end
  end.

(** With the empty pattern, [str.replace] inserts [new] before every
    character and at the end. *)
Fixpoint interleave (new s : string) : string :=
  match s with
  | EmptyString => new
  | String c s' => new +:+ String c (interleave new s')
  end.

(** [s.replace(old, new)]: every non-overlapping occurrence, leftmost
    first. *)
Definition replace (old new s : string) : string :=
  match old with
  | EmptyString => interleave new s
  | String _ _ => replace_from old new 0 s
  end.

(** No character of [s] is the given one. *)
Fixpoint lacks (c : ascii) (s : string) : bool :=
  match s with
  | EmptyString => true
  | String d s' => negb (Ascii.eqb c d) && lacks c s'
  end.

Definition lbrace : ascii := "{"%char.
Definition rbrace : ascii := "}"%char.

(** A placeholder token: [{body}] where [body] holds no brace. *)
Definition token_of (body : string) : string :=
  String lbrace (body +:+ String rbrace EmptyString).

Definition brace_free (s : string) : bool := lacks lbrace s && lacks rbrace s.

Inductive is_token : string -> Prop :=
| IsToken body : brace_free body = true -> is_token (token_of body).

End PyStr.

Import PyStr.

(** ** Python values and the object store *)

Abbreviation loc := nat.

(** A value is a scalar or a reference to a container object.  Floats are
    carried as the bit pattern of a double: the script never computes
    with them. *)
Inductive pyval : Type :=
| VNone
| VBool (b : bool)
| VInt (z : Z)
| VFloat (bits : Z)
| VStr (s : string)
| VRef (l : loc).

(** A [dict] keeps its items in insertion order, one item per key. *)
Definition pydict := list (string * pyval).

Inductive pyobj : Type :=
| ODict (items : pydict)
| OList (elems : list pyval).

Abbreviation heap := (list pyobj).

Module Dict.

Fixpoint get (k : string) (d : pydict) : option pyval :=
  match d with
  | [] => None
  | (k', v) :: d' => if String.eqb k k' then Some v else get k d'
  end.

(** [d[k] = v]: an existing key keeps its position, a new key goes last. *)
Fixpoint set (k : string) (v : pyval) (d : pydict) : pydict :=
  match d with
  | [] => [(k, v)]
  | (k', v') :: d' =>
      if String.eqb k k' then (k', v) :: d' else (k', v') :: set k v d'
  end.

Fixpoint del (k : string) (d : pydict) : pydict :=
  match d with
  | [] => []
  | (k', v) :: d' => if String.eqb k k' then del k d' else (k', v) :: del k d'
  end.

(** [d.update(e)], also the meaning of [{**d, **e}] on a copy of [d]. *)
Definition update (d e : pydict) : pydict :=
  fold_left (fun acc kv => set (fst kv) (snd kv) acc) e d.

(** [dict(pairs)] *)
Definition of_list (pairs : list (string * pyval)) : pydict := update [] pairs.

Definition keys (d : pydict) : list string := map fst d.

Definition mem (k : string) (d : pydict) : bool :=
  match get k d with Some _ => true | None => false end.

End Dict.

(** ** Exceptions, state and the execution monad *)

(** The exceptions the normalizer can end in.  [ValueError v] is the
    script's own [ValueError("Attribution not known: {}".format(v))];
    [Stuck] has no Python counterpart: it marks a reference that points
    outside the store. *)
Inductive exn : Type :=
| KeyError (k : string)
| ValueError (v : pyval)
| NameError (name : string)
| TypeError
| AttributeError
| Stuck.

Inductive outcome (A : Type) : Type :=
| Ok (a : A)
| Raise (e : exn).
Arguments Ok {A} a.
Arguments Raise {A} e.

(** The store together with the module-level global [ATTRIBUTIONS]
    ([None] while the name is unbound). *)
Record state : Type := State {
  st_heap : heap;
  ATTRIBUTIONS : option pyval
}.

Definition M (A : Type) : Type := state -> outcome A * state.

Definition ret {A} (a : A) : M A := fun s => (Ok a, s).

Definition raise {A} (e : exn) : M A := fun s => (Raise e, s).

Definition bind {A B} (m : M A) (k : A -> M B) : M B :=
  fun s => match m s with
           | (Ok a, s') => k a s'
           | (Raise e, s') => (Raise e, s')
           end.

Notation "x <- m ;; k" := (bind m (fun x => k))
  (at level 100, m at next level, right associativity).
Notation "m ;;; k" := (bind m (fun _ => k))
  (at level 100, right associativity).

(** A computation that only inspects the store. *)
Definition reading {A} (f : heap -> outcome A) : M A :=
  fun s => (f (st_heap s), s).

Definition get_ATTRIBUTIONS : M pyval :=
  fun s => match ATTRIBUTIONS s with
           | Some v => (Ok v, s)
           | None => (Raise (NameError "ATTRIBUTIONS"), s)
           end.

Definition set_ATTRIBUTIONS (v : pyval) : M unit :=
  fun s => (Ok tt, State (st_heap s) (Some v)).

Definition alloc (o : pyobj) : M pyval :=
  fun s => (Ok (VRef (length (st_heap s))),
            State (st_heap s ++ [o]) (ATTRIBUTIONS s)).

Definition store (l : loc) (o : pyobj) : M unit :=
  fun s => (Ok tt, State (<[l := o]> (st_heap s)) (ATTRIBUTIONS s)).

(** [for x in xs: body(x)] *)
Fixpoint for_each {A} (xs : list A) (body : A -> M unit) : M unit :=
  match xs with
  | [] => ret tt
  | x :: xs' => body x ;;; for_each xs' body
  end.

(** Sequencing of store-reading computations. *)
Definition obind {A B} (m : outcome A) (k : A -> outcome B) : outcome B :=
  match m with
  | Ok a => k a
  | Raise e => Raise e
  end.

Notation "'do' x <- m ; k" := (obind m (fun x => k))
  (at level 100, x name, m at next level, right associativity).

(** ** Operations of the Python objects the script uses *)

(** [v[k]] with a string key *)
Definition getitem (v : pyval) (k : string) : M pyval :=
  reading (fun h =>
    match v with
    | VRef l =>
        match h !! l with
        | Some (ODict d) =>
            match Dict.get k d with
            | Some x => Ok x
            | None => Raise (KeyError k)
            end
        | Some (OList _) => Raise TypeError
        | None => Raise Stuck
        end
    | _ => Raise TypeError
    end).

(** [v.items()] *)
Definition dict_items (h : heap) (v : pyval) : outcome pydict :=
  match v with
  | VRef l =>
      match h !! l with
      | Some (ODict d) => Ok d
      | Some (OList _) => Raise AttributeError
      | None => Raise Stuck
      end
  | _ => Raise AttributeError
  end.

(** [v.copy()]: a new object with the same contents (dicts and lists
    have the method, scalars and strings do not). *)
Definition copy (v : pyval) : M pyval :=
  fun s =>
    match v with
    | VRef l =>
        match st_heap s !! l with
        | Some o => alloc o s
        | None => (Raise Stuck, s)
        end
    | _ => (Raise AttributeError, s)
    end.

(** [v.pop(k, default)] *)
Definition pop_default (v : pyval) (k : string) (default : pyval) : M pyval :=
  fun s =>
    match v with
    | VRef l =>
        match st_heap s !! l with
        | Some (ODict d) =>
            match Dict.get k d with
            | Some x => (store l (ODict (Dict.del k d)) ;;; ret x) s
            | None => (Ok default, s)
            end
        | Some (OList _) => (Raise TypeError, s)
        | None => (Raise Stuck, s)
        end
    | _ => (Raise AttributeError, s)
    end.

(** [v.pop(k)] *)
Definition pop (v : pyval) (k : string) : M pyval :=
  fun s =>
    match v with
    | VRef l =>
        match st_heap s !! l with
        | Some (ODict d) =>
            match Dict.get k d with
            | Some x => (store l (ODict (Dict.del k d)) ;;; ret x) s
            | None => (Raise (KeyError k), s)
            end
        | Some (OList _) => (Raise TypeError, s)
        | None => (Raise Stuck, s)
        end
    | _ => (Raise AttributeError, s)
    end.

(** [{**a, **b}]: a new dict; both operands have to be mappings. *)
Definition merge (a b : pyval) : M pyval :=
  fun s =>
    match a, b with
    | VRef la, VRef lb =>
        match st_heap s !! la, st_heap s !! lb with
        | Some (ODict da), Some (ODict db) => alloc (ODict (Dict.update da db)) s
        | None, _ | _, None => (Raise Stuck, s)
        | _, _ => (Raise TypeError, s)
        end
    | _, _ => (Raise TypeError, s)
    end.

(** [v[k] = x] *)
Definition setitem (v : pyval) (k : string) (x : pyval) : M unit :=
  fun s =>
    match v with
    | VRef l =>
        match st_heap s !! l with
        | Some (ODict d) => store l (ODict (Dict.set k x d)) s
        | Some (OList _) => (Raise TypeError, s)
        | None => (Raise Stuck, s)
        end
    | _ => (Raise TypeError, s)
    end.

(** A dict display [{k1: v1, ...}] *)
Definition new_dict (items : pydict) : M pyval := alloc (ODict items).

(** The keys a [for k in v] loop whose body starts with [v[k]] runs
    through.  A dict yields its keys.  An empty list or string yields
    nothing.  A non-empty string raises [TypeError] at the first [v[k]]
    (a string is not indexed by a string).  A non-empty list cannot be
    run to completion either: its elements are used as indexes into the
    list and the indexed element as a mapping or string; whichever
    exception that ends in is reported as [TypeError] here. *)
Definition iter_keys (v : pyval) : M (list string) :=
  reading (fun h =>
    match v with
    | VRef l =>
        match h !! l with
        | Some (ODict d) => Ok (Dict.keys d)
        | Some (OList []) => Ok []
        | Some (OList (_ :: _)) => Raise TypeError
        | None => Raise Stuck
        end
    | VStr EmptyString => Ok []
    | _ => Raise TypeError
    end).

(** [x == y] between a list element and a string *)
Definition eq_str (needle : string) (x : pyval) : bool :=
  match x with
  | VStr s => String.eqb needle s
  | _ => false
  end.

(** [needle in v]: substring of a string, element of a list, key of a
    dict; the other values are not containers. *)
Definition py_in (h : heap) (needle : string) (v : pyval) : outcome bool :=
  match v with
  | VStr s => Ok (str_in needle s)
  | VRef l =>
      match h !! l with
      | Some (ODict d) => Ok (Dict.mem needle d)
      | Some (OList xs) => Ok (existsb (eq_str needle) xs)
      | None => Raise Stuck
      end
  | _ => Raise TypeError
  end.

(** [v.replace(old, new)]: only strings have the method, and the
    replacement has to be a string. *)
Definition py_replace (v : pyval) (old : string) (new : pyval) : outcome pyval :=
  match v with
  | VStr s =>
      match new with
      | VStr a => Ok (VStr (replace old a s))
      | _ => Raise TypeError
      end
  | _ => Raise AttributeError
  end.

(** ** The normalizer *)

(** [rename_keys] of [pythonize_data], in the order of its display. *)
Definition rename_keys : list (string * string) :=
  [("maxZoom", "max_zoom"); ("minZoom", "min_zoom")].

Fixpoint rename_of (key : string) (rk : list (string * string)) : option string :=
  match rk with
  | [] => None
  | (old, new) :: rk' => if String.eqb key old then Some new else rename_of key rk'
  end.

(** The [for placeholder, attr in attributions.items(): ... else: raise]
    loop: one pass over the table in its order; it is left as soon as a
    replacement removes the last ["{attribution."], and falling off its
    end raises. *)
Fixpoint attribution_loop (h : heap) (table : pydict) (value : pyval)
  : outcome pyval :=
  match table with
  | [] => Raise (ValueError value)
  | (placeholder, attr) :: table' =>
      do found <- py_in h placeholder value;
      if found then
        do value' <- py_replace value placeholder attr;
        do left <- py_in h "{attribution." value';
        if negb left then Ok value'
        else attribution_loop h table' value'
      else attribution_loop h table' value
  end.

(** [any(k in value for k in rename_keys)] *)
Fixpoint any_in (h : heap) (rk : list (string * string)) (value : pyval)
  : outcome bool :=
  match rk with
  | [] => Ok false
  | (k, _) :: rk' =>
      do found <- py_in h k value;
      if found then Ok true else any_in h rk' value
  end.

(** [for old, new in rename_keys.items():
       value = value.replace("{" + old + "}", "{" + new + "}")] *)
Fixpoint rename_in_url (rk : list (string * string)) (value : pyval)
  : outcome pyval :=
  match rk with
  | [] => Ok value
  | (old, new) :: rk' =>
      do value' <- py_replace value ("{" +:+ old +:+ "}")
                     (VStr ("{" +:+ new +:+ "}"));
      rename_in_url rk' value'
  end.

(** The [elif] branches of the loop body that follow the attribution
    test. *)
Definition rename_item (h : heap) (key : string) (value : pyval)
  : outcome (string * pyval) :=
  match rename_of key rename_keys with
  | Some new => Ok (new, value)
  | None =>
      if String.eqb key "url" then
        do found <- any_in h rename_keys value;
        if found then
          do value' <- rename_in_url rename_keys value;
          Ok (key, value')
        else Ok (key, value)
      else Ok (key, value)
  end.

(** One round of the loop over [data.items()]. *)
Definition pythonize_item (h : heap) (attributions : pyval)
  (key : string) (value : pyval) : outcome (string * pyval) :=
  if String.eqb key "attribution" then
    do found <- py_in h "{attribution." value;
    if found then
      do table <- dict_items h attributions;
      do value' <- attribution_loop h table value;
      Ok (key, value')
    else rename_item h key value
  else rename_item h key value.

Fixpoint pythonize_items (h : heap) (attributions : pyval) (items : pydict)
  : outcome (list (string * pyval)) :=
  match items with
  | [] => Ok []
  | (key, value) :: items' =>
      do kv <- pythonize_item h attributions key value;
      do new_data <- pythonize_items h attributions items';
      Ok (kv :: new_data)
  end.

(** [pythonize_data(data)].  The dict [rename_keys], the view
    [data.items()] and the list [new_data] are local to the call and are
    kept as values; the loop only reads the store. *)
Definition pythonize_data (data : pyval) : M pyval :=
  attributions <- get_ATTRIBUTIONS ;;
  items <- reading (fun h => dict_items h data) ;;
  new_data <- reading (fun h => pythonize_items h attributions items) ;;
  new_dict (Dict.of_list new_data).

(** The [if isinstance(var, str): ... else: ...] of the loop body: the
    mapping a variant definition stands for. *)
Definition variant_keys_of (var : pyval) : M pyval :=
  match var with
  | VStr _ => new_dict [("variant", var)]
  | _ =>
      variant_keys <- copy var ;;
      empty <- new_dict [] ;;
      variant_options <- pop_default variant_keys "options" empty ;;
      merge variant_keys variant_options
  end.

(** The body of [for variant in variants] in [process_provider]. *)
Definition process_variant (name : string) (variants provider_keys result : pyval)
  (variant : string) : M unit :=
  var <- getitem variants variant ;;
  variant_keys <- variant_keys_of var ;;
  variant_keys <- merge provider_keys variant_keys ;;
  setitem variant_keys "name" (VStr (name +:+ "." +:+ variant)) ;;;
  variant_keys <- pythonize_data variant_keys ;;
  setitem result variant variant_keys.

(** [process_provider(data, name)] *)
Definition process_provider (data : pyval) (name : string) : M pyval :=
  entry <- getitem data name ;;
  provider <- copy entry ;;
  variants <- pop_default provider "variants" VNone ;;
  options <- pop provider "options" ;;
  provider_keys <- merge provider options ;;
  match variants with
  | VNone =>
      setitem provider_keys "name" (VStr name) ;;;
      pythonize_data provider_keys
  | _ =>
      result <- new_dict [] ;;
      keys <- iter_keys variants ;;
      for_each keys (process_variant name variants provider_keys result) ;;;
      ret result
  end.

(** The attribution of one of the three providers the table is built
    from: [data[provider]["options"]["attribution"]]. *)
Definition attribution_of (data : pyval) (provider : string) : M pyval :=
  entry <- getitem data provider ;;
  options <- getitem entry "options" ;;
  getitem options "attribution".

(** [process_data(data)] *)
Definition process_data (data : pyval) : M pyval :=
  osm <- attribution_of data "OpenStreetMap" ;;
  esri <- attribution_of data "Esri" ;;
  oms <- attribution_of data "OpenMapSurfer" ;;
  table <- new_dict [("{attribution.OpenStreetMap}", osm);
                     ("{attribution.Esri}", esri);
                     ("{attribution.OpenMapSurfer}", oms)] ;;
  set_ATTRIBUTIONS table ;;;
  result <- new_dict [] ;;
  providers <- iter_keys data ;;
  for_each providers (fun provider =>
    record <- process_provider data provider ;;
    setitem result provider record) ;;;
  ret result.

(** ** The record class of the rendered module *)

(** [v.update(e)] with the items of a mapping [e] *)
Definition update (v : pyval) (e : pydict) : M unit :=
  fun s =>
    match v with
    | VRef l =>
        match st_heap s !! l with
        | Some (ODict d) => store l (ODict (Dict.update d e)) s
        | Some (OList _) => (Raise AttributeError, s)
        | None => (Raise Stuck, s)
        end
    | _ => (Raise AttributeError, s)
    end.

(** [TileProvider.__call__(self, **kwargs)].  [kwargs] are the keyword
    arguments of the call, in the order they were given.  Binding the
    arguments comes first: the record the call is made on is bound to
    the parameter [self], so a keyword named [self] gives the parameter
    a second value and the call raises [TypeError] before the body
    runs.  In the body [TileProvider(self)] builds a new mapping from
    the items of [self], and [new.update(kwargs)] writes the overrides
    into it. *)
Definition TileProvider_call (self : pyval) (kwargs : pydict) : M pyval :=
  if Dict.mem "self" kwargs then raise TypeError
  else
    (items <- reading (fun h => dict_items h self) ;;
     new <- new_dict items ;;
     update new kwargs ;;;
     ret new).

(** ** Reading and writing JSON *)

#[local] Unset Elimination Schemes.
Inductive json : Type :=
| JNull
| JBool (b : bool)
| JInt (z : Z)
| JFloat (bits : Z)
| JStr (s : string)
| JArr (elems : list json)
| JObj (members : list (string * json)).
#[local] Set Elimination Schemes.

(** [json.loads]: builds the objects of a document in the store. *)
Fixpoint load (j : json) : M pyval :=
  match j with
  | JNull => ret VNone
  | JBool b => ret (VBool b)
  | JInt z => ret (VInt z)
  | JFloat f => ret (VFloat f)
  | JStr s => ret (VStr s)
  | JArr js =>
      vs <- (fix load_all (js : list json) : M (list pyval) :=
               match js with
               | [] => ret []
               | j' :: js' => v <- load j' ;; vs <- load_all js' ;; ret (v :: vs)
               end) js ;;
      alloc (OList vs)
  | JObj ms =>
      kvs <- (fix load_all (ms : list (string * json)) : M pydict :=
                match ms with
                | [] => ret []
                | (k, j') :: ms' =>
                    v <- load j' ;; kvs <- load_all ms' ;; ret ((k, v) :: kvs)
                end) ms ;;
      alloc (ODict (Dict.of_list kvs))
  end.

(** [json.dump]: the document a value stands for in a store, read to
    the given depth. *)
Fixpoint dump (depth : nat) (h : heap) (v : pyval) : option json :=
  match v with
  | VNone => Some JNull
  | VBool b => Some (JBool b)
  | VInt z => Some (JInt z)
  | VFloat f => Some (JFloat f)
  | VStr s => Some (JStr s)
  | VRef l =>
      match depth with
      | O => None
      | S depth' =>
          match h !! l with
          | Some (OList vs) =>
              option_map JArr
                (fold_right (fun v acc =>
                   match dump depth' h v, acc with
                   | Some j, Some js => Some (j :: js)
                   | _, _ => None
                   end) (Some []) vs)
          | Some (ODict d) =>
              option_map JObj
                (fold_right (fun kv acc =>
                   match dump depth' h (snd kv), acc with
                   | Some j, Some ms => Some ((fst kv, j) :: ms)
                   | _, _ => None
                   end) (Some []) d)
          | None => None
          end
      end
  end.

Definition empty_state : state := State [] None.

(** Runs the script's pipeline on a document: load it, normalize, and
    read the result back. *)
Definition normalize (j : json) : outcome (option json) :=
  match (data <- load j ;; process_data data) empty_state with
  | (Ok v, s) => Ok (dump 8 (st_heap s) v)
  | (Raise e, _) => Raise e
  end.

(** The same for one provider, with the attribution table already in
    place. *)
Definition normalize_provider (table : pydict) (j : json) (name : string)
  : outcome (option json) :=
  match (attributions <- new_dict table ;;
         set_ATTRIBUTIONS attributions ;;;
         data <- load j ;;
         process_provider data name) empty_state with
  | (Ok v, s) => Ok (dump 8 (st_heap s) v)
  | (Raise e, _) => Raise e
  end.

(** ** Vocabulary of the statements *)

(** *** Rewriting placeholders in one pass

    The specification describes both string rewritings of
    [pythonize_data] as one substitution: every placeholder token that
    has a rule is replaced by what the rule gives, everything else is
    copied.  [substitute] is that description; the script itself runs
    one [str.replace] per rule, one after the other. *)

(** The first rule whose placeholder starts the string. *)
Fixpoint first_match (rules : list (string * string)) (s : string)
  : option (string * string) :=
  match rules with
  | [] => None
  | (old, new) :: rules' =>
      if String.prefix old s then Some (old, new) else first_match rules' s
  end.

Fixpoint substitute_from (rules : list (string * string)) (skip : nat) (s : string)
  : string :=
  match s with
  | EmptyString => EmptyString
  | String c s' =>
      match skip with
      | S k => substitute_from rules k s'
      | O =>
          match first_match rules s with
          | Some (old, new) =>
              new +:+ substitute_from rules (String.length old - 1) s'
          | None => String c (substitute_from rules 0 s')
          end
      end
  end.

Definition substitute (rules : list (string * string)) (s : string) : string :=
  substitute_from rules 0 s.

(** The rule that is written for the placeholder [t], if there is one. *)
Fixpoint rule_for (t : string) (rules : list (string * string))
  : option (string * string) :=
  match rules with
  | [] => None
  | (old, new) :: rules' =>
      if String.eqb old t then Some (old, new) else rule_for t rules'
  end.

Definition token_rules (rules : list (string * string)) : Prop :=
  Forall (fun r => is_token r.1) rules.

(** The rules [pythonize_data] applies inside a url. *)
Definition url_rules : list (string * string) :=
  map (fun r => ("{" +:+ r.1 +:+ "}", "{" +:+ r.2 +:+ "}")) rename_keys.

(** An attribution placeholder: [{attribution.Name}]. *)
Definition placeholder_of (name : string) : string :=
  token_of ("attribution." +:+ name).

Inductive is_placeholder : string -> Prop :=
| IsPlaceholder name : brace_free name = true -> is_placeholder (placeholder_of name).

(** Every opening brace of [s] starts one of the given placeholders. *)
Fixpoint braces_known (keys : list string) (s : string) : bool :=
  match s with
  | EmptyString => true
  | String c s' =>
      (if Ascii.eqb c lbrace then existsb (fun k => String.prefix k s) keys
       else true)
      && braces_known keys s'
  end.

(** The attribution after one [replace] per entry of the table, in the
    order of the table: what the single pass of the loop makes of it. *)
Definition resolve_all (rules : list (string * string)) (value : string) : string :=
  fold_left (fun v r => replace r.1 r.2 v) rules value.

(** An attribution table whose resolved texts are the given strings. *)
Definition table_of (rules : list (string * string)) : pydict :=
  map (fun r => (r.1, VStr r.2)) rules.

(** [v] does not refer to an object of the store [h0]. *)
Definition fresh (h0 : heap) (v : pyval) : Prop :=
  forall l, v = VRef l -> length h0 <= l.

(** Started in a store that extends [h0], the computation [m] leaves
    every object of [h0] as it is, whether it returns or raises, and a
    returned value satisfies [Q]. *)
Definition keeps (h0 : heap) {A} (m : M A) (Q : A -> Prop) : Prop :=
  forall s, h0 `prefix_of` st_heap s ->
    h0 `prefix_of` st_heap (m s).2 /\
    forall a, (m s).1 = Ok a -> Q a.

(** The mapping a variant definition stands for, as the specification
    words it: a plain string [s] is [{"variant": s}]; a mapping is
    itself without [options], updated with its [options] mapping when
    it has one. *)
Definition variant_mapping (h : heap) (var : pyval) : option pydict :=
  match var with
  | VStr _ => Some [("variant", var)]
  | VRef lv =>
      match h !! lv with
      | Some (ODict W) =>
          match Dict.get "options" W with
          | None => Some W
          | Some (VRef lo) =>
              match h !! lo with
              | Some (ODict WO) => Some (Dict.update (Dict.del "options" W) WO)
              | _ => None
              end
          | Some _ => None
          end
      | _ => None
      end
  | _ => None
  end.

(** The key an item is stored under after renaming. *)
Definition new_key (key : string) : string :=
  match rename_of key rename_keys with
  | Some new => new
  | None => key
  end.

(** Every dict of the store has its keys once, as Python dicts do. *)
Definition unique_keys (h : heap) : Prop :=
  forall l d, h !! l = Some (ODict d) -> NoDup (Dict.keys d).

(** The state invariant of a normalization run: unique keys, and the
    global holds [a]. *)
Definition good (a : option pyval) (s : state) : Prop :=
  unique_keys (st_heap s) /\ ATTRIBUTIONS s = a.

(** The computation [m] maintains the invariant. *)
Definition maintains (a : option pyval) {A} (m : M A) : Prop :=
  forall s, good a s -> good a (m s).2.

(** What every record has: a [name] that is a string, and an
    attribution that, if it is a string, has no placeholder left. *)
Definition record_fields (R : pydict) : Prop :=
  (exists n, Dict.get "name" R = Some (VStr n)) /\
  (forall x, Dict.get "attribution" R = Some (VStr x) ->
             str_in "{attribution." x = false).

(** [v] is a record, an object at [n] or later. *)
Definition record_at (n : nat) (h : heap) (v : pyval) : Prop :=
  exists l R, v = VRef l /\ n <= l /\ h !! l = Some (ODict R) /\ record_fields R.

(** An entry of the catalog: a record, or a mapping of records. *)
Definition entry_at (n : nat) (h : heap) (v : pyval) : Prop :=
  record_at n h v \/
  exists l G, v = VRef l /\ n <= l /\ h !! l = Some (ODict G) /\
              Forall (fun kv => record_at n h kv.2) G.

(** Whether a record has a [url] is decided by what it was built from.
    [rec] is what [process_provider] made of a provider with the fields
    [P] and the options [O] that lie in the store [h0]: a record, an
    object at [n] or later, that has a [url] exactly when [P] or [O]
    has one; or, when [P] has a mapping of variants, a mapping whose
    record for a variant has a [url] exactly when [P], [O] or the
    variant's mapping has one. *)
Definition url_as_supplied (n : nat) (h0 : heap) (P O : pydict) (h : heap)
    (rec : pyval) : Prop :=
  match Dict.get "variants" P with
  | None | Some VNone =>
      exists lr R,
        rec = VRef lr /\ n <= lr /\ h !! lr = Some (ODict R) /\
        Dict.mem "url" R = (Dict.mem "url" P || Dict.mem "url" O)
  | Some (VRef vl) =>
      forall V, h0 !! vl = Some (ODict V) ->
      exists lg G,
        rec = VRef lg /\ n <= lg /\ h !! lg = Some (ODict G) /\
        forall variant var vk,
          Dict.get variant V = Some var ->
          variant_mapping h0 var = Some vk ->
          exists lr R,
            Dict.get variant G = Some (VRef lr) /\
            n <= lr /\ h !! lr = Some (ODict R) /\
            Dict.mem "url" R =
            (Dict.mem "url" P || Dict.mem "url" O || Dict.mem "url" vk)
  | Some _ => True
  end.

(** ** Sample data *)

(** The copyright sign, U+00A9, in UTF-8. *)
Definition copyright : string :=
  String (ascii_of_nat 194) (String (ascii_of_nat 169) EmptyString).

Definition osm_attribution : string := copyright +:+ " OSM".

Definition osm_only : json :=
  JObj [("OpenStreetMap",
         JObj [("url", JStr "http://tile/{z}/{x}/{y}.png");
               ("options", JObj [("maxZoom", JInt 19);
                                 ("attribution", JStr osm_attribution)])])].

Definition osm_record : json :=
  JObj [("url", JStr "http://tile/{z}/{x}/{y}.png");
        ("max_zoom", JInt 19);
        ("attribution", JStr osm_attribution);
        ("name", JStr "OpenStreetMap")].

Definition sample_rules : list (string * string) :=
  [("{attribution.OpenStreetMap}", osm_attribution);
   ("{attribution.Esri}", "Tiles by Esri");
   ("{attribution.OpenMapSurfer}", "Imagery from GIScience")].

Definition sample_record : pydict :=
  [("url", VStr "https://tiles/{variant}/{maxZoom}/{z}/{x}/{y}.png");
   ("maxZoom", VInt 19);
   ("attribution", VStr "Data by {attribution.OpenStreetMap}");
   ("name", VStr "Sample")].

(** A store with the attribution table at 0 and a merged record at 1. *)
Definition sample_state : state :=
  State [ODict (table_of sample_rules); ODict sample_record] (Some (VRef 0)).

(** The same with a record that refers to an attribution nobody has. *)
Definition unknown_record : pydict :=
  [("url", VStr "https://tiles/{z}/{x}/{y}.png");
   ("attribution", VStr "{attribution.OpenStreetMap}, {attribution.Unknown}")].

Definition unknown_state : state :=
  State [ODict (table_of sample_rules); ODict unknown_record] (Some (VRef 0)).

(** The one-provider catalog as objects of a store, with a table. *)
Definition osm_options : pydict :=
  [("maxZoom", VInt 19); ("attribution", VStr osm_attribution)].

Definition osm_entry : pydict :=
  [("url", VStr "http://tile/{z}/{x}/{y}.png"); ("options", VRef 0)].

Definition osm_catalog : pydict := [("OpenStreetMap", VRef 1)].

(** The entry with its options at [o], and the record made of it. *)
Definition osm_entry_at (o : loc) : pydict :=
  [("url", VStr "http://tile/{z}/{x}/{y}.png"); ("options", VRef o)].

Definition osm_fields : pydict :=
  [("url", VStr "http://tile/{z}/{x}/{y}.png");
   ("max_zoom", VInt 19);
   ("attribution", VStr osm_attribution);
   ("name", VStr "OpenStreetMap")].

Definition osm_state : state :=
  State [ODict osm_options; ODict osm_entry; ODict osm_catalog;
         ODict (table_of sample_rules)]
        (Some (VRef 3)).

(** The record the specification states for the one-provider catalog. *)
Definition osm_record_claimed : list (string * json) :=
  [("name", JStr "OpenStreetMap");
   ("url", JStr "http://tile/{z}/{x}/{y}.png");
   ("max_zoom", JInt 19);
   ("attribution", JStr osm_attribution)].

Definition esri_provider : json :=
  JObj [("url", JStr "https://esri/{z}/{y}/{x}");
        ("options", JObj [("attribution", JStr "Tiles by Esri")])].

Definition oms_provider : json :=
  JObj [("url", JStr "https://oms/{z}/{x}/{y}.png");
        ("options", JObj [("attribution", JStr "Imagery from GIScience")])].

(** The one-provider catalog together with the two other providers the
    attribution table is built from. *)
Definition three_providers : json :=
  match osm_only with
  | JObj members => JObj (members ++ [("Esri", esri_provider);
                                      ("OpenMapSurfer", oms_provider)])
  | j => j
  end.

(** A catalog in which the attribution of OpenMapSurfer itself refers
    to OpenStreetMap, as leaflet-providers.js allows, and a variant
    refers to the attribution of OpenMapSurfer. *)
Definition nested_attribution : string :=
  "Imagery from GIScience | Map data {attribution.OpenStreetMap}".

Definition nested_catalog : json :=
  JObj [("OpenStreetMap",
         JObj [("url", JStr "http://tile/{z}/{x}/{y}.png");
               ("options", JObj [("attribution", JStr osm_attribution)])]);
        ("Esri", esri_provider);
        ("OpenMapSurfer",
         JObj [("url", JStr "https://oms/{variant}/{z}/{x}/{y}.png");
               ("options", JObj [("attribution", JStr nested_attribution)]);
               ("variants",
                JObj [("Roads",
                       JObj [("options",
                              JObj [("attribution",
                                     JStr "{attribution.OpenMapSurfer}")])])])])].

(** A provider whose [options] mapping has a key named [options]. *)
Definition leftover_catalog : json :=
  JObj [("Base",
         JObj [("url", JStr "https://base/{z}/{x}/{y}.png");
               ("options", JObj [("options", JInt 1)])])].

(** The three table providers, the first without a [url]. *)
Definition no_url_catalog : json :=
  JObj [("OpenStreetMap",
         JObj [("options", JObj [("attribution", JStr osm_attribution)])]);
        ("Esri", esri_provider);
        ("OpenMapSurfer", oms_provider)].

(** A store with a provider that has two variants: one given as a
    plain string, one as a mapping with its own options. *)
Definition variant_options : pydict :=
  [("attribution", VStr "Map data {attribution.OpenStreetMap}");
   ("maxZoom", VInt 18)].

Definition topo_options : pydict := [("maxZoom", VInt 17)].

Definition topo_variant : pydict :=
  [("url", VStr "https://topo/{z}/{x}/{y}.png"); ("options", VRef 1)].

Definition sample_variants : pydict :=
  [("Roads", VStr "roads"); ("Topo", VRef 2)].

Definition variant_entry : pydict :=
  [("url", VStr "https://maps/{variant}/{z}/{x}/{y}.png");
   ("options", VRef 0);
   ("variants", VRef 3)].

Definition variant_catalog : pydict := [("Maps", VRef 4)].

Definition variant_state : state :=
  State [ODict variant_options; ODict topo_options; ODict topo_variant;
         ODict sample_variants; ODict variant_entry; ODict variant_catalog;
         ODict (table_of sample_rules)]
        (Some (VRef 6)).

(** The store [json.loads] builds for the three-provider catalog. *)
Definition three_loaded : outcome pyval * state := load three_providers empty_state.

(** ** The classes of the rendered module: attribute access *)

(** [Bunch.__getattr__(self, key)]: the item stored under [key]; a
    [KeyError] of the lookup is turned into an [AttributeError].  (The
    interpreter calls the method for the names that are not attributes
    of a [dict].) *)
Definition Bunch_getattr (self : pyval) (key : string) : M pyval :=
  fun s =>
    match getitem self key s with
    | (Raise (KeyError _), s') => (Raise AttributeError, s')
    | r => r
    end.

(** ** Text: what the rendering uses of [str] and [textwrap] *)

Module PyText.

(** A byte of a string as a number, and back. *)
Definition code (c : ascii) : Z := Z.of_N (N_of_ascii c).
Definition chr (n : Z) : ascii := ascii_of_N (Z.to_N n).

Definition char (n : Z) : string := String (chr n) EmptyString.

(** The characters that cannot be written in a literal here. *)
Definition nl : string := char 10.
Definition dquote : string := char 34.
Definition backslash : string := char 92.

(** [sep.join(xs)] *)
Fixpoint join (sep : string) (xs : list string) : string :=
  match xs with
  | [] => EmptyString
  | x :: xs' =>
      match xs' with
      | [] => x
      | _ :: _ => x +:+ sep +:+ join sep xs'
      end
  end.

(** [s] begins with the given bytes. *)
Fixpoint starts (bytes : list Z) (s : string) : bool :=
  match bytes, s with
  | [], _ => true
  | b :: bytes', String c s' => (code c =? b)%Z && starts bytes' s'
  | _ :: _, EmptyString => false
  end.

(** The length of the first of the given byte sequences that [s] begins
    with, [0] if it begins with none of them. *)
Fixpoint match_len (table : list (list Z)) (s : string) : nat :=
  match table with
  | [] => 0
  | bytes :: table' =>
      if starts bytes s then length bytes else match_len table' s
  end.

(** The line boundaries of [str.splitlines]: CR LF, LF, VT, FF, CR, FS,
    GS, RS, and the encodings of U+0085, U+2028 and U+2029. *)
Definition line_boundaries : list (list Z) :=
  [[13; 10]; [10]; [11]; [12]; [13]; [28]; [29]; [30];
   [194; 133]; [226; 128; 168]; [226; 128; 169]]%Z.

(** The whitespace of [str.strip] and [str.isspace]: U+0009 to U+000D,
    U+001C to U+0020, and the encodings of U+0085, U+00A0, U+1680,
    U+2000 to U+200A, U+2028, U+2029, U+202F, U+205F and U+3000. *)
Definition whitespace : list (list Z) :=
  [[9]; [10]; [11]; [12]; [13]; [28]; [29]; [30]; [31]; [32];
   [194; 133]; [194; 160]; [225; 154; 128];
   [226; 128; 128]; [226; 128; 129]; [226; 128; 130]; [226; 128; 131];
   [226; 128; 132]; [226; 128; 133]; [226; 128; 134]; [226; 128; 135];
   [226; 128; 136]; [226; 128; 137]; [226; 128; 138];
   [226; 128; 168]; [226; 128; 169]; [226; 128; 175];
   [226; 129; 159]; [227; 128; 128]]%Z.

(** Puts a character in front of the first line. *)
Definition push (c : ascii) (lines : list string) : list string :=
  match lines with
  | [] => [String c EmptyString]
  | line :: lines' => String c line :: lines'
  end.

(** The scanning loop of [s.splitlines(True)].  [skip] counts the bytes
    of a line boundary that are still to be added to the line they
    end. *)
Fixpoint lines_from (skip : nat) (s : string) : list string :=
  match s with
  | EmptyString => []
  | String c s' =>
      match (match skip with
             | O => match_len line_boundaries s
             | S _ => skip
             end) with
      | O => push c (lines_from 0 s')
      | S O => String c EmptyString :: lines_from 0 s'
      | S (S k) => push c (lines_from (S k) s')
      end
  end.

(** [s.splitlines(True)]: the lines of [s], each with its boundary. *)
Definition splitlines (s : string) : list string := lines_from 0 s.

(** [not line.strip()]: the line is made of whitespace only. *)
Fixpoint blank_from (skip : nat) (s : string) : bool :=
  match s with
  | EmptyString => true
  | String c s' =>
      match skip with
      | S k => blank_from k s'
      | O =>
          match match_len whitespace s with
          | O => false
          | S k => blank_from k s'
          end
      end
  end.

Definition blank (s : string) : bool := blank_from 0 s.

(** What [textwrap.indent] does to one line. *)
Definition indent_line (prefix line : string) : string :=
  if blank line then line else prefix +:+ line.

(** [textwrap.indent(text, prefix)]: the prefix goes in front of every
    line that is not made of whitespace only. *)
Definition indent (text prefix : string) : string :=
  join EmptyString (map (indent_line prefix) (splitlines text)).

(** The characters of a string: UTF-8 decoding.  [need] counts the
    continuation bytes the character being read still lacks, [acc] holds
    the bits read for it. *)
Fixpoint decode_from (need : nat) (acc : Z) (s : string) : list Z :=
  match s with
  | EmptyString => []
  | String c s' =>
      let b := code c in
      match need with
      | O =>
          if (b <? 128)%Z then b :: decode_from 0 0 s'
          else if (b <? 224)%Z then decode_from 1 (Z.land b 31) s'
          else if (b <? 240)%Z then decode_from 2 (Z.land b 15) s'
          else decode_from 3 (Z.land b 7) s'
      | S O => (acc * 64 + Z.land b 63)%Z :: decode_from 0 0 s'
      | S k => decode_from k (acc * 64 + Z.land b 63)%Z s'
      end
  end.

Definition decode (s : string) : list Z := decode_from 0 0 s.

(** UTF-8 encoding of one character. *)
Definition encode (cp : Z) : string :=
  (if cp <? 128 then char cp
   else if cp <? 2048 then
     char (192 + cp / 64) +:+ char (128 + cp mod 64)
   else if cp <? 65536 then
     char (224 + cp / 4096) +:+ char (128 + (cp / 64) mod 64)
     +:+ char (128 + cp mod 64)
   else
     char (240 + cp / 262144) +:+ char (128 + (cp / 4096) mod 64)
     +:+ char (128 + (cp / 64) mod 64) +:+ char (128 + cp mod 64))%Z.

(** The lowest [digits] hexadecimal digits of a number, in lower
    case. *)
Definition hexdigit (n : Z) : string :=
  (if n <? 10 then char (48 + n) else char (87 + n))%Z.

Fixpoint hex (digits : nat) (n : Z) : string :=
  match digits with
  | O => EmptyString
  | S digits' => hex digits' (n / 16) +:+ hexdigit (n mod 16)
  end.

End PyText.

Import PyText.

(** ** [repr] *)

(** What the rendering takes from the interpreter that runs the script:
    the text of a float (bit pattern of the double to its [repr]) and
    the table of printable characters of its Unicode database. *)
Class Interpreter : Type := {
  float_repr : Z -> string;
  isprintable : Z -> bool
}.

Section Repr.

Context `{Interpreter}.

(** [repr] of one character of a string between the quotes [quote]. *)
Definition repr_char (quote : Z) (ch : Z) : string :=
  (if (ch =? quote) || (ch =? 92) then backslash +:+ char ch
   else if ch =? 9 then backslash +:+ "t"
   else if ch =? 10 then backslash +:+ "n"
   else if ch =? 13 then backslash +:+ "r"
   else if (ch <? 32) || (ch =? 127) then backslash +:+ "x" +:+ hex 2 ch
   else if ch <? 127 then char ch
   else if isprintable ch then encode ch
   else if ch <=? 255 then backslash +:+ "x" +:+ hex 2 ch
   else if ch <=? 65535 then backslash +:+ "u" +:+ hex 4 ch
   else backslash +:+ "U" +:+ hex 8 ch)%Z.

(** [repr(s)] for a string: single quotes, unless the string has a
    single quote and no double quote. *)
Definition repr_str (s : string) : string :=
  let chars := decode s in
  let quote :=
    (if existsb (Z.eqb 39) chars && negb (existsb (Z.eqb 34) chars)
     then 34 else 39)%Z in
  char quote +:+ join EmptyString (map (repr_char quote) chars) +:+ char quote.

(** [repr(z)] for an integer *)
Definition repr_int (z : Z) : string :=
  DecimalString.NilZero.string_of_int (Z.to_int z).

(** Evaluates the computations of a list from left to right. *)
Fixpoint sequence {A} (ms : list (outcome A)) : outcome (list A) :=
  match ms with
  | [] => Ok []
  | m :: ms' => do x <- m; do xs <- sequence ms'; Ok (x :: xs)
  end.

(** [repr(v)].  [active] are the containers whose [repr] is under way:
    meeting one of them again gives an ellipsis.  A container that is
    entered is added to [active], so [fuel], the bound on the nesting,
    does not run out when it starts at the size of the store. *)
Fixpoint repr_fuel (fuel : nat) (h : heap) (active : list loc) (v : pyval)
  : outcome string :=
  match v with
  | VNone => Ok "None"
  | VBool true => Ok "True"
  | VBool false => Ok "False"
  | VInt z => Ok (repr_int z)
  | VFloat bits => Ok (float_repr bits)
  | VStr s => Ok (repr_str s)
  | VRef l =>
      match h !! l with
      | None => Raise Stuck
      | Some o =>
          if existsb (Nat.eqb l) active then
            Ok (match o with ODict _ => "{...}" | OList _ => "[...]" end)
          else
            match fuel with
            | O => Raise Stuck
            | S fuel' =>
                match o with
                | OList elems =>
                    do parts <- sequence
                      (map (repr_fuel fuel' h (l :: active)) elems);
                    Ok ("[" +:+ join ", " parts +:+ "]")
                | ODict items =>
                    do parts <- sequence
                      (map (fun kv =>
                              do r <- repr_fuel fuel' h (l :: active) kv.2;
                              Ok (repr_str kv.1 +:+ ": " +:+ r)) items);
                    Ok ("{" +:+ join ", " parts +:+ "}")
                end
            end
      end
  end.

Definition py_repr (h : heap) (v : pyval) : outcome string :=
  repr_fuel (length h) h [] v.

(** ** Generating the Python module *)

(** The list comprehension of [format_provider]:
    ["{key} = {value!r}".format(key=key, value=value)] for every item. *)
Definition format_items (h : heap) (items : pydict) : outcome (list string) :=
  sequence (map (fun kv => do r <- py_repr h kv.2; Ok (kv.1 +:+ " = " +:+ r)) items).

(** [format_provider(data, name)] *)
Definition format_provider (h : heap) (data : pyval) (name : string)
  : outcome string :=
  do items <- dict_items h data;
  do formatted <- format_items h items;
  let formatted_keys := join ("," +:+ nl +:+ "    ") formatted in
  Ok (name +:+ " = TileProvider(" +:+ nl +:+
      "    " +:+ formatted_keys +:+ nl +:+
      ")").

(** [format_bunch(data, name)] *)
Definition format_bunch (data name : string) : string :=
  name +:+ " = Bunch(" +:+ nl +:+
  indent data "    " +:+ nl +:+
  ")".

(** The module text around the three fields of [template]. *)
Definition template_head : string :=
  join nl
    [dquote +:+ dquote +:+ dquote;
     "Tile providers.";
     "";
     "This file is autogenerated! It is a python representation of the leaflet";
     "providers defined by the leaflet-providers.js extension to Leaflet";
     "(https://github.com/leaflet-extras/leaflet-providers).";
     "Credit to the leaflet-providers.js  project (BSD 2-Clause "
       +:+ dquote +:+ "Simplified" +:+ dquote +:+ " License)";
     "and the Leaflet Providers contributors.";
     "";
     "Generated by parse_leaflet_providers.py at "].

Definition template_classes : string :=
  join nl
    [".";
     "";
     dquote +:+ dquote +:+ dquote;
     "";
     "";
     "class Bunch(dict):";
     "    " +:+ dquote +:+ dquote +:+ dquote +:+ "A dict with attribute-access"
       +:+ dquote +:+ dquote +:+ dquote;
     "";
     "    def __getattr__(self, key):";
     "        try:";
     "            return self.__getitem__(key)";
     "        except KeyError:";
     "            raise AttributeError(key)";
     "";
     "    def __dir__(self):";
     "        return self.keys()";
     "";
     "";
     "class TileProvider(Bunch):";
     "    " +:+ dquote +:+ dquote +:+ dquote;
     "    A dict with attribute-access and that";
     "    can be called to update keys";
     "    " +:+ dquote +:+ dquote +:+ dquote;
     "";
     "    def __call__(self, **kwargs):";
     "        new = TileProvider(self)  # takes a copy preserving the class";
     "        new.update(kwargs)";
     "        return new";
     "";
     "";
     "providers = Bunch(";
     ""].

(** [template.format(providers=..., description=..., timestamp=...)] *)
Definition template_format (providers description timestamp : string) : string :=
  template_head +:+ timestamp +:+ " from leaflet-providers" +:+ nl +:+
  "at " +:+ description +:+ template_classes +:+
  providers +:+ nl +:+ ")" +:+ nl +:+ nl.

(** The [else] branch of the loop of [generate_file]: the entry is
    taken for a mapping of variants. *)
Definition format_variants (h : heap) (fields : pydict) (provider_name : string)
  : outcome string :=
  do variants <- sequence (map (fun kv => format_provider h kv.2 kv.1) fields);
  Ok (format_bunch (join ("," +:+ nl) variants) provider_name).

(** The body of the loop of [generate_file]. *)
Definition format_entry (h : heap) (provider_name : string) (provider : pyval)
  : outcome string :=
  do fields <- dict_items h provider;
  if Dict.mem "url" fields then format_provider h provider provider_name
  else format_variants h fields provider_name.

(** [generate_file(data, description)].  [today] is the text of
    [datetime.date.today()].  The loop runs over the keys of [data] and
    looks every key up again, which gives the items of [data]. *)
Definition generate_file (h : heap) (data : pyval) (description today : string)
  : outcome string :=
  do entries <- dict_items h data;
  do providers <- sequence (map (fun kv => format_entry h kv.1 kv.2) entries);
  Ok (template_format (indent (join ("," +:+ nl) providers) "    ")
        description today).

End Repr.

(** ** More vocabulary and sample data *)

(** The providers whose attributions [process_data] collects, in the
    order it reads them. *)
Definition table_providers : list string :=
  ["OpenStreetMap"; "Esri"; "OpenMapSurfer"].

(** A catalog with a provider that has no [options]. *)
Definition bare_state : state :=
  State [ODict [("url", VStr "https://bare/{z}/{x}/{y}.png");
                ("variants", VRef 1)];
         ODict [("Night", VStr "night")];
         ODict [("Bare", VRef 0)]]
        None.

(** A provider whose mapping of variants is empty. *)
Definition hollow_state : state :=
  State [ODict [("maxZoom", VInt 12)];
         ODict [];
         ODict [("url", VStr "https://hollow/{variant}/{z}/{x}/{y}.png");
                ("options", VRef 0);
                ("variants", VRef 1)];
         ODict [("Hollow", VRef 2)]]
        None.


(** *** Lines of a text *)

(** One of the two is a beginning of the other: [s] begins with the
    bytes, or it ends before they do and agrees with them that far. *)
Fixpoint compatible (bytes : list Z) (s : string) : bool :=
  match bytes, s with
  | [], _ => true
  | _ :: _, EmptyString => true
  | b :: bytes', String c s' => (code c =? b)%Z && compatible bytes' s'
  end.

(** No line boundary begins in [s], and none begins at its end whatever
    text follows it. *)
Fixpoint one_line (s : string) : bool :=
  match s with
  | EmptyString => true
  | String _ s' =>
      negb (existsb (fun bytes => compatible bytes s) line_boundaries)
      && one_line s'
  end.

(** Puts a string in front of the first line. *)
Fixpoint push_all (s : string) (lines : list string) : list string :=
  match s with
  | EmptyString => lines
  | String c s' => push c (push_all s' lines)
  end.

(** A string with a visible ASCII character in it. *)
Definition visible (c : ascii) : bool := ((32 <? code c) && (code c <? 127))%Z.

Fixpoint inked (s : string) : bool :=
  match s with
  | EmptyString => false
  | String c s' => visible c || inked s'
  end.

(** A string of ASCII characters from the space to the tilde. *)
Definition printable_ascii (c : ascii) : bool := ((32 <=? code c) && (code c <? 127))%Z.

Fixpoint plain (s : string) : bool :=
  match s with
  | EmptyString => true
  | String c s' => printable_ascii c && plain s'
  end.

(** What the layout of the module needs of the interpreter: the text of
    a float stays in its line, and the three line boundaries outside
    ASCII are not printable characters (they are control and separator
    characters in every Unicode database). *)
Definition line_safe `{Interpreter} : Prop :=
  (forall bits, one_line (float_repr bits) = true) /\
  isprintable 133 = false /\ isprintable 8232 = false /\ isprintable 8233 = false.

(** *** The layout of the generated module *)

(** All the strings but the last with a comma at the end. *)
Fixpoint commas (xs : list string) : list string :=
  match xs with
  | [] => []
  | x :: xs' =>
      match xs' with
      | [] => [x]
      | _ :: _ => (x +:+ ",") :: commas xs'
      end
  end.

(** The lines of blocks that are separated by commas: every block but
    the last has a comma at the end of its last line. *)
Fixpoint comma_last (lines : list string) : list string :=
  match lines with
  | [] => []
  | line :: lines' =>
      match lines' with
      | [] => [line +:+ ","]
      | _ :: _ => line :: comma_last lines'
      end
  end.

Fixpoint blocks (bs : list (list string)) : list string :=
  match bs with
  | [] => []
  | b :: bs' =>
      match bs' with
      | [] => b
      | _ :: _ => comma_last b ++ blocks bs'
      end
  end.

(** The lines of a record at the indentation [pad]: its fields are four
    columns further in, one to a line; without fields there is a line of
    four spaces, whatever the indentation. *)
Definition record_layout (pad name : string) (formatted : list string)
  : list string :=
  (pad +:+ name +:+ " = TileProvider(") ::
  match formatted with
  | [] => ["    "]
  | _ :: _ => map (fun f => pad +:+ "    " +:+ f) (commas formatted)
  end ++ [pad +:+ ")"].

(** The lines of a mapping of variants at the indentation [pad], given
    the lines of its records; without variants there is an empty
    line. *)
Definition bunch_layout (pad name : string) (variants : list (list string))
  : list string :=
  (pad +:+ name +:+ " = Bunch(") ::
  match variants with
  | [] => [""]
  | _ :: _ => blocks variants
  end ++ [pad +:+ ")"].

Section Layout.

Context `{Interpreter}.

Definition layout_record (h : heap) (pad name : string) (data : pyval)
  : outcome (list string) :=
  do items <- dict_items h data;
  do formatted <- format_items h items;
  Ok (record_layout pad name formatted).

Definition layout_entry (h : heap) (pad name : string) (provider : pyval)
  : outcome (list string) :=
  do fields <- dict_items h provider;
  if Dict.mem "url" fields then layout_record h pad name provider
  else
    do variants <- sequence
      (map (fun kv => layout_record h (pad +:+ "    ") kv.1 kv.2) fields);
    Ok (bunch_layout pad name variants).

(** The lines of the catalog between [providers = Bunch(] and the
    closing parenthesis. *)
Definition layout_catalog (h : heap) (data : pyval) : outcome (list string) :=
  do entries <- dict_items h data;
  do providers <- sequence
    (map (fun kv => layout_entry h "    " kv.1 kv.2) entries);
  Ok (blocks providers).

End Layout.

(** Every key of every mapping of the store is free of line
    boundaries. *)
Definition clean_keys (h : heap) : bool :=
  forallb (fun o =>
             match o with
             | ODict items => forallb (fun kv => one_line kv.1) items
             | OList _ => true
             end) h.

(** Every reference held by an object of the store points into the
    store. *)
Definition in_store (h : heap) (v : pyval) : bool :=
  match v with
  | VRef l => Nat.ltb l (length h)
  | _ => true
  end.

Definition closed (h : heap) : bool :=
  forallb (fun o =>
             match o with
             | ODict items => forallb (fun kv => in_store h kv.2) items
             | OList elems => forallb (in_store h) elems
             end) h.

(** A block of lines whose last line has a visible character. *)
Definition ends_inked (lines : list string) : Prop :=
  exists init last, lines = init ++ [last] /\ inked last = true.

(** Applies a function to the result of a computation. *)
Definition omap {A B} (f : A -> B) (m : outcome A) : outcome B :=
  do x <- m; Ok (f x).

(** *** Sample data for the generated module *)

(** A stand-in interpreter for the examples: it knows the printable
    characters of Latin-1, and the examples hold no float. *)
Definition latin1_interpreter : Interpreter :=
  {| float_repr := fun _ => "nan";
     isprintable := fun ch => ((160 <? ch) && (ch <? 256) && negb (ch =? 173))%Z |}.

(** The three-provider catalog with a fourth provider that has
    variants. *)
Definition atlas : json :=
  match three_providers with
  | JObj members =>
      JObj (members ++
            [("Maps",
              JObj [("url", JStr "https://maps/{variant}/{z}/{x}/{y}.png");
                    ("options", JObj [("maxZoom", JInt 18);
                                      ("attribution",
                                       JStr "Map data {attribution.OpenStreetMap}")]);
                    ("variants",
                     JObj [("Roads", JStr "roads");
                           ("Topo", JObj [("options",
                                           JObj [("maxZoom", JInt 17)])])])])])
  | j => j
  end.

(** The store and the catalog after loading and normalizing it. *)
Definition atlas_normalized : outcome pyval * state :=
  (data <- load atlas ;; process_data data) empty_state.

(** The same for the catalog whose first provider has no [url]. *)
Definition no_url_normalized : outcome pyval * state :=
  (data <- load no_url_catalog ;; process_data data) empty_state.
(** * Properties *)

#[local] Arguments String.append !_ _ : simpl nomatch.
#[local] Arguments Ascii.eqb : simpl never.
#[local] Arguments String.prefix : simpl never.

(** Decidable facts about concrete data are settled by evaluation. *)
Ltac by_evaluation := apply (bool_decide_unpack _); vm_compute; exact I.

(** The dicts of a concrete store of [n] objects have unique keys. *)
Tactic Notation "unique_store" integer(n) :=
  let l := fresh "l" in
  let d := fresh "d" in
  let Hl := fresh "Hl" in
  intros l d Hl;
  do n (destruct l as [|l]; [injection Hl as <-; by_evaluation|]);
  done.

(** ** Strings: prefixes and occurrences *)

Section StrFacts.

Implicit Types (s p q u w rest old new : string) (c a b : ascii).

Lemma app_assoc_str s p q : (s +:+ p) +:+ q = s +:+ (p +:+ q).
Proof. induction s as [|c s IH]; simpl; [done|]. by f_equal. Qed.

Lemma length_app_str s p :
  String.length (s +:+ p) = String.length s + String.length p.
Proof.
  induction s as [|c s IH]; simpl; [done|].
  by rewrite IH.
Qed.

Lemma prefix_nil s : String.prefix "" s = true.
Proof. by destruct s. Qed.

Lemma prefix_cons a p b s :
  String.prefix (String a p) (String b s) = Ascii.eqb a b && String.prefix p s.
Proof.
  change (String.prefix (String a p) (String b s))
    with (if ascii_dec a b then String.prefix p s else false).
  destruct (ascii_dec a b) as [->|Hne].
  - rewrite Ascii.eqb_refl. reflexivity.
  - apply Ascii.eqb_neq in Hne. rewrite Hne. reflexivity.
Qed.

Lemma prefix_cons_nil a p : String.prefix (String a p) "" = false.
Proof. done. Qed.

Lemma prefix_app p rest : String.prefix p (p +:+ rest) = true.
Proof.
  induction p as [|c p IH]; [apply prefix_nil|].
  simpl String.append. by rewrite prefix_cons, Ascii.eqb_refl, IH.
Qed.

Lemma prefix_inv p s : String.prefix p s = true -> exists rest, s = p +:+ rest.
Proof.
  revert s. induction p as [|c p IH]; intros s Hp.
  - by exists s.
  - destruct s as [|d s]; [done|].
    rewrite prefix_cons in Hp. apply andb_true_iff in Hp as [Hc Hp].
    apply Ascii.eqb_eq in Hc as ->.
    destruct (IH _ Hp) as [rest ->]. by exists rest.
Qed.

Lemma prefix_trans p q s :
  String.prefix p q = true -> String.prefix q s = true -> String.prefix p s = true.
Proof.
  intros [r ->]%prefix_inv [r' ->]%prefix_inv.
  rewrite app_assoc_str. apply prefix_app.
Qed.

Lemma str_in_cons needle c s :
  str_in needle (String c s) = String.prefix needle (String c s) || str_in needle s.
Proof. done. Qed.

Lemma str_in_prefix needle s : String.prefix needle s = true -> str_in needle s = true.
Proof. intros Hp. destruct s; simpl in *; by rewrite Hp. Qed.

Lemma str_in_app_r needle u s :
  str_in needle s = true -> str_in needle (u +:+ s) = true.
Proof.
  intros Hs. induction u as [|c u IH]; [done|].
  simpl String.append. rewrite str_in_cons, IH. apply orb_true_r.
Qed.

Lemma str_in_weaken p q s :
  String.prefix p q = true -> str_in q s = true -> str_in p s = true.
Proof.
  intros Hpq. induction s as [|c s IH].
  - cbn [str_in]. rewrite !orb_false_r. intros Hq. by eapply prefix_trans.
  - rewrite !str_in_cons. intros [Hq|Hq]%orb_true_iff.
    + by rewrite (prefix_trans _ _ _ Hpq Hq).
    + rewrite IH by done. apply orb_true_r.
Qed.

Lemma lacks_app c u w : lacks c (u +:+ w) = lacks c u && lacks c w.
Proof.
  induction u as [|d u IH]; simpl; [done|]. by rewrite IH, andb_assoc.
Qed.

(** A string without the first character of [p] has no occurrence of
    [p], and stepping over it does not change what is found. *)
Lemma prefix_head_lacks a p c s :
  Ascii.eqb a c = false -> String.prefix (String a p) (String c s) = false.
Proof. intros Hne. by rewrite prefix_cons, Hne. Qed.

Lemma str_in_skip a p u rest :
  lacks a u = true ->
  str_in (String a p) (u +:+ rest) = str_in (String a p) rest.
Proof.
  induction u as [|c u IH]; [done|]. simpl lacks.
  intros [Hc Hu]%andb_true_iff. apply negb_true_iff in Hc.
  simpl String.append. rewrite str_in_cons, prefix_head_lacks by done.
  by apply IH.
Qed.

Lemma str_in_lacks a p u : lacks a u = true -> str_in (String a p) u = false.
Proof.
  induction u as [|c u IH]; [done|]. simpl lacks.
  intros [Hc Hu]%andb_true_iff. apply negb_true_iff in Hc.
  rewrite str_in_cons, prefix_head_lacks by done. by apply IH.
Qed.

(** *** Placeholder tokens *)

Lemma token_unfold body :
  token_of body = String lbrace (body +:+ String rbrace "").
Proof. done. Qed.

Lemma token_tail_lacks body :
  brace_free body = true -> lacks lbrace (body +:+ String rbrace "") = true.
Proof.
  intros [Hl _]%andb_true_iff. by rewrite lacks_app, Hl.
Qed.

Lemma body_prefix_eq x y rest :
  lacks rbrace x = true -> lacks rbrace y = true ->
  String.prefix (x +:+ String rbrace "") (y +:+ String rbrace rest) = true ->
  x = y.
Proof.
  revert y. induction x as [|c x IH]; intros [|d y]; simpl lacks; simpl String.append.
  - done.
  - intros _ [Hd _]%andb_true_iff. rewrite prefix_cons.
    intros [Heq _]%andb_true_iff. apply negb_true_iff in Hd.
    unfold rbrace in *. congruence.
  - intros [Hc _]%andb_true_iff _. rewrite prefix_cons.
    intros [Heq _]%andb_true_iff. apply negb_true_iff in Hc.
    rewrite Ascii.eqb_sym in Heq. unfold rbrace in *. congruence.
  - intros [_ Hx]%andb_true_iff [_ Hy]%andb_true_iff. rewrite prefix_cons.
    intros [Heq Hp]%andb_true_iff. apply Ascii.eqb_eq in Heq as ->.
    f_equal. by apply IH.
Qed.

(** Where a token starts, no other token starts. *)
Lemma token_prefix_eq k t rest :
  is_token k -> is_token t -> String.prefix k (t +:+ rest) = true -> k = t.
Proof.
  intros [x Hx] [y Hy]. rewrite !token_unfold. simpl String.append.
  rewrite prefix_cons, Ascii.eqb_refl, app_assoc_str. simpl.
  apply andb_true_iff in Hx as [_ Hx]. apply andb_true_iff in Hy as [_ Hy].
  intros Hp. f_equal. f_equal. by eapply body_prefix_eq.
Qed.

Lemma token_prefix k t rest :
  is_token k -> is_token t ->
  String.prefix k (t +:+ rest) = String.eqb k t.
Proof.
  intros Hk Ht. destruct (String.eqb_spec k t) as [->|Hne].
  - apply prefix_app.
  - apply not_true_is_false. intros Hp. by apply Hne, (token_prefix_eq _ _ rest).
Qed.

Lemma token_nonempty k : is_token k -> exists tail, k = String lbrace tail /\ lacks lbrace tail = true.
Proof. intros [x Hx]. eexists. split; [done|]. by apply token_tail_lacks. Qed.

End StrFacts.

(** ** One-pass substitution *)

Section Substitute.

Implicit Types (s p q u w rest old new k t : string) (c a b : ascii).
Implicit Types (rules : list (string * string)) (ks : list string).

Lemma substitute_nil rules : substitute rules "" = "".
Proof. done. Qed.

Lemma substitute_from_skip rules u rest :
  substitute_from rules (String.length u) (u +:+ rest) = substitute_from rules 0 rest.
Proof. induction u as [|c u IH]; simpl; done. Qed.

Lemma substitute_hit rules old new rest :
  old <> "" ->
  first_match rules (old +:+ rest) = Some (old, new) ->
  substitute rules (old +:+ rest) = new +:+ substitute rules rest.
Proof.
  intros Hne Hfm. destruct old as [|a p]; [done|].
  unfold substitute. simpl String.append in *. cbn [substitute_from].
  rewrite Hfm.
  replace (String.length (String a p) - 1) with (String.length p)
    by (cbn [String.length]; lia).
  by rewrite substitute_from_skip.
Qed.

Lemma substitute_miss rules c s :
  first_match rules (String c s) = None ->
  substitute rules (String c s) = String c (substitute rules s).
Proof. intros Hfm. unfold substitute. cbn [substitute_from]. by rewrite Hfm. Qed.

Lemma first_match_None rules s :
  first_match rules s = None <->
  forall r, r ∈ rules -> String.prefix r.1 s = false.
Proof.
  induction rules as [|[old new] rules IH]; simpl.
  - split; [|done]. intros _ r Hr. by apply elem_of_nil in Hr.
  - destruct (String.prefix old s) eqn:Hp.
    + split; [done|]. intros H. specialize (H (old, new)). simpl in H.
      rewrite H in Hp; [done|]. by left.
    + rewrite IH. split.
      * intros H r [->|Hr]%elem_of_cons; [done|]. by apply H.
      * intros H r Hr. apply H. by right.
Qed.

Lemma first_match_nonbrace rules c s :
  token_rules rules -> Ascii.eqb lbrace c = false ->
  first_match rules (String c s) = None.
Proof.
  intros Htok Hc. apply first_match_None. intros r Hr.
  eapply Forall_forall in Htok; [|done].
  destruct (token_nonempty _ Htok) as (tail & -> & _).
  by apply prefix_head_lacks.
Qed.

(** Where a token starts, the rule that fires is the rule written for
    that token. *)
Lemma first_match_token rules t rest :
  token_rules rules -> is_token t ->
  first_match rules (t +:+ rest) = rule_for t rules.
Proof.
  intros Htok Ht. induction Htok as [|[old new] rules Hold Htok IH]; simpl; [done|].
  simpl in Hold. rewrite token_prefix by done.
  destruct (String.eqb old t); [done|]. apply IH.
Qed.

Lemma rule_for_Some t rules r :
  rule_for t rules = Some r -> r.1 = t /\ r ∈ rules.
Proof.
  induction rules as [|[old new] rules IH]; simpl; [done|].
  destruct (String.eqb_spec old t) as [->|Hne].
  - intros [= <-]. split; [done|]. by left.
  - intros [? ?]%IH. split; [done|]. by right.
Qed.

Lemma rule_for_None t rules :
  rule_for t rules = None <-> t ∉ map fst rules.
Proof.
  induction rules as [|[old new] rules IH]; simpl.
  - split; [intros _; apply not_elem_of_nil|done].
  - rewrite not_elem_of_cons.
    destruct (String.eqb_spec old t) as [->|Hne]; split; try done.
    + by intros [? _].
    + intros. split; [done|]. by apply IH.
    + intros [_ ?]. by apply IH.
Qed.

Lemma substitute_copy rules u rest :
  token_rules rules -> lacks lbrace u = true ->
  substitute rules (u +:+ rest) = u +:+ substitute rules rest.
Proof.
  intros Htok. induction u as [|c u IH]; [done|]. cbn [lacks].
  intros [Hc Hu]%andb_true_iff. apply negb_true_iff in Hc.
  simpl String.append. rewrite substitute_miss by by apply first_match_nonbrace.
  by rewrite IH.
Qed.

Lemma substitute_token rules t rest :
  token_rules rules -> is_token t ->
  substitute rules (t +:+ rest) =
  match rule_for t rules with
  | Some r => r.2
  | None => t
  end +:+ substitute rules rest.
Proof.
  intros Htok Ht.
  pose proof (first_match_token rules t rest Htok Ht) as Hfm.
  destruct (rule_for t rules) as [[old new]|] eqn:Hr.
  - apply rule_for_Some in Hr as [Heq _]. simpl in Heq. subst old.
    apply substitute_hit; [|done].
    destruct (token_nonempty _ Ht) as (tail & -> & _). done.
  - destruct (token_nonempty _ Ht) as (tail & -> & Htail).
    simpl String.append in *. rewrite substitute_miss by done.
    by rewrite substitute_copy.
Qed.

(** [str.replace] with a non-empty pattern is the substitution with one
    rule. *)
Lemma replace_from_substitute old new skip s :
  replace_from old new skip s = substitute_from [(old, new)] skip s.
Proof.
  revert skip. induction s as [|c s IH]; intros skip; [done|].
  cbn [replace_from substitute_from first_match].
  destruct skip; [|apply IH].
  destruct (String.prefix old (String c s)); by rewrite IH.
Qed.

Lemma replace_substitute old new s :
  old <> "" -> replace old new s = substitute [(old, new)] s.
Proof.
  intros Hne. destruct old; [done|]. apply replace_from_substitute.
Qed.

(** Induction along a scan for the placeholders [ks]: either one of them
    starts the string, or the first character is stepped over. *)
Lemma keys_scan_ind ks (P : string -> Prop) :
  Forall is_token ks ->
  P "" ->
  (forall k rest, k ∈ ks -> P rest -> P (k +:+ rest)) ->
  (forall c s, (forall k, k ∈ ks -> String.prefix k (String c s) = false) ->
               P s -> P (String c s)) ->
  forall s, P s.
Proof.
  intros Htok Hnil Hkey Hstep s.
  remember (String.length s) as n eqn:Hn. revert s Hn.
  induction n as [n IH] using lt_wf_ind. intros s Hn.
  destruct s as [|c s]; [done|].
  destruct (existsb (fun k => String.prefix k (String c s)) ks) eqn:Hex.
  - apply existsb_exists in Hex as (k & Hk & Hp).
    apply list_elem_of_In in Hk.
    destruct (prefix_inv _ _ Hp) as [rest Hrest]. rewrite Hrest.
    apply Hkey; [done|]. apply (IH (String.length rest)); [|done].
    rewrite Hn, Hrest, length_app_str.
    eapply Forall_forall in Htok; [|done].
    destruct (token_nonempty _ Htok) as (tail & -> & _). simpl. lia.
  - apply Hstep.
    + intros k Hk. apply list_elem_of_In in Hk.
      apply not_true_is_false. intros Hp.
      assert (existsb (fun k => String.prefix k (String c s)) ks = true) as Hex'.
      { apply existsb_exists. eauto. }
      congruence.
    + apply (IH (String.length s)); [|done]. rewrite Hn. simpl. lia.
Qed.

(** An occurrence of a token next to another token: it is that token or
    it lies behind it. *)
Lemma str_in_token t k rest :
  is_token t -> is_token k ->
  str_in t (k +:+ rest) = String.eqb t k || str_in t rest.
Proof.
  intros Ht Hk. rewrite <- (token_prefix t k rest) by done.
  destruct (token_nonempty _ Hk) as (tail & -> & Htail).
  destruct (token_nonempty _ Ht) as (tail' & -> & _).
  simpl String.append. rewrite str_in_cons. f_equal.
  by apply str_in_skip.
Qed.

(** A substitution cannot touch a token it has no rule for. *)
Lemma substitute_keeps_token rules t s :
  token_rules rules -> is_token t -> t ∉ map fst rules ->
  str_in t s = true -> str_in t (substitute rules s) = true.
Proof.
  intros Htok Ht Hnotin.
  assert (Hks : Forall is_token (t :: map fst rules)).
  { constructor; [done|]. by apply Forall_map. }
  revert s.
  apply (keys_scan_ind _
    (fun s => str_in t s = true -> str_in t (substitute rules s) = true) Hks);
    [done|intros k rest Hk IH|intros c s Hmiss IH].
  - apply elem_of_cons in Hk as [->|Hk].
    + intros _. rewrite substitute_token by done.
      apply rule_for_None in Hnotin. rewrite Hnotin.
      apply str_in_prefix, prefix_app.
    + assert (is_token k) as Hkt.
      { eapply Forall_forall in Hks; [done|]. by right. }
      rewrite str_in_token by done.
      destruct (String.eqb_spec t k) as [->|Hne]; [done|]. simpl.
      intros Hin. rewrite substitute_token by done.
      apply str_in_app_r. by apply IH.
  - rewrite str_in_cons, Hmiss by by left. simpl. intros Hin.
    rewrite substitute_miss.
    + rewrite str_in_cons, IH by done. apply orb_true_r.
    + apply first_match_None. intros r Hr. apply Hmiss. right.
      apply list_elem_of_fmap. by exists r.
Qed.

(** Replacements that start with a brace cannot complete a brace-free
    text: what follows a position reads the same before and after. *)
Lemma substitute_prefix_agree rules w s :
  token_rules rules ->
  Forall (fun r => exists tail, r.2 = String lbrace tail) rules ->
  lacks lbrace w = true ->
  String.prefix w (substitute rules s) = String.prefix w s.
Proof.
  intros Htok Hnew. revert s.
  induction w as [|d w IH]; intros s; [by rewrite !prefix_nil|].
  cbn [lacks]. intros [Hd Hw]%andb_true_iff. apply negb_true_iff in Hd.
  destruct s as [|c s]; [done|].
  destruct (first_match rules (String c s)) as [[old new]|] eqn:Hfm.
  - assert (String.prefix old (String c s) = true /\ (old, new) ∈ rules) as [Hp Hin].
    { clear -Hfm. induction rules as [|[o n] rules IH]; simpl in Hfm; [done|].
      destruct (String.prefix o (String c s)) eqn:Hp.
      - injection Hfm as -> ->. split; [done|]. by left.
      - destruct (IH Hfm). split; [done|]. by right. }
    pose proof (proj1 (Forall_forall _ _) Htok _ Hin) as Hold.
    pose proof (proj1 (Forall_forall _ _) Hnew _ Hin) as [tail Hn].
    simpl in Hold, Hn. subst new.
    destruct (token_nonempty _ Hold) as (tail' & -> & _).
    rewrite prefix_cons in Hp. apply andb_true_iff in Hp as [Hc _].
    apply Ascii.eqb_eq in Hc as <-.
    unfold substitute. cbn [substitute_from]. rewrite Hfm.
    simpl String.append. rewrite !prefix_cons.
    rewrite Ascii.eqb_sym in Hd. by rewrite Hd.
  - rewrite substitute_miss by done. rewrite !prefix_cons. by rewrite IH.
Qed.

(** Running the first rule alone and then the others gives the same as
    running all rules at once, when the replacement is a token none of
    the other rules is written for. *)
Lemma substitute_first_then_rest k1 n1 rules s :
  is_token k1 -> is_token n1 -> token_rules rules ->
  k1 ∉ map fst rules -> n1 ∉ map fst rules ->
  substitute rules (substitute [(k1, n1)] s) = substitute ((k1, n1) :: rules) s.
Proof.
  intros Hk1 Hn1 Htok Hk1notin Hn1notin.
  assert (Htok1 : token_rules [(k1, n1)]) by by repeat constructor.
  assert (Htok' : token_rules ((k1, n1) :: rules)) by by constructor.
  assert (Hks : Forall is_token (k1 :: map fst rules)).
  { constructor; [done|]. by apply Forall_map. }
  revert s.
  apply (keys_scan_ind _
    (fun s => substitute rules (substitute [(k1, n1)] s) =
              substitute ((k1, n1) :: rules) s) Hks);
    [done|intros k rest Hk IH|intros c s Hmiss IH].
  - assert (is_token k) as Hkt by by eapply Forall_forall in Hks.
    rewrite (substitute_token [(k1, n1)]), (substitute_token ((k1, n1) :: rules))
      by done.
    cbn [rule_for]. destruct (String.eqb_spec k1 k) as [->|Hne]; cbn [snd].
    + rewrite substitute_token by done.
      apply rule_for_None in Hn1notin. rewrite Hn1notin. by rewrite IH.
    + rewrite substitute_token by done. by rewrite IH.
  - rewrite (substitute_miss [(k1, n1)]), (substitute_miss ((k1, n1) :: rules)).
    + rewrite substitute_miss; [by rewrite IH|].
      apply first_match_None. intros r Hr.
      assert (String.prefix r.1 (String c s) = false) as Hp.
      { apply Hmiss. right. apply list_elem_of_fmap. by exists r. }
      pose proof (proj1 (Forall_forall _ _) Htok _ Hr) as Hrt.
      destruct (token_nonempty _ Hrt) as (tail & Heq & Htail).
      rewrite Heq in *. rewrite prefix_cons in *.
      rewrite substitute_prefix_agree; try done.
      constructor; [|done]. simpl.
      destruct (token_nonempty _ Hn1) as (tl & -> & _). by exists tl.
    + apply first_match_None. intros r [->|Hr]%elem_of_cons.
      * apply Hmiss. by left.
      * apply Hmiss. right. apply list_elem_of_fmap. by exists r.
    + apply first_match_None. intros r [->|Hr%elem_of_nil]%elem_of_cons; [|done].
      apply Hmiss. by left.
Qed.

(** A substitution whose replacements are tokens without a rule is
    idempotent. *)
Lemma substitute_idempotent rules s :
  token_rules rules ->
  Forall (fun r => is_token r.2 /\ r.2 ∉ map fst rules) rules ->
  substitute rules (substitute rules s) = substitute rules s.
Proof.
  intros Htok Hnew.
  assert (Hks : Forall is_token (map fst rules)) by by apply Forall_map.
  revert s.
  apply (keys_scan_ind _
    (fun s => substitute rules (substitute rules s) = substitute rules s) Hks);
    [done|intros k rest Hk IH|intros c s Hmiss IH].
  - assert (is_token k) as Hkt by by eapply Forall_forall in Hks.
    rewrite (substitute_token rules k) by done.
    destruct (rule_for k rules) as [r|] eqn:Hr.
    + apply rule_for_Some in Hr as [_ Hr].
      pose proof (proj1 (Forall_forall _ _) Hnew _ Hr) as [Hnt Hnot].
      rewrite substitute_token by done.
      apply rule_for_None in Hnot. rewrite Hnot. by rewrite IH.
    + rewrite substitute_token, Hr by done. by rewrite IH.
  - assert (first_match rules (String c s) = None) as Hfm.
    { apply first_match_None. intros r Hr. apply Hmiss.
      apply list_elem_of_fmap. by exists r. }
    rewrite substitute_miss by done.
    rewrite substitute_miss; [by rewrite IH|].
    apply first_match_None. intros r Hr.
    pose proof (proj1 (first_match_None _ _) Hfm _ Hr) as Hp.
    pose proof (proj1 (Forall_forall _ _) Htok _ Hr) as Hrt.
    destruct (token_nonempty _ Hrt) as (tail & Heq & Htail).
    rewrite Heq in *. rewrite prefix_cons in *.
    rewrite substitute_prefix_agree; try done.
    eapply Forall_impl; [exact Hnew|]. intros r' [Hr' _].
    destruct (token_nonempty _ Hr') as (tl & -> & _). by exists tl.
Qed.

(** Without an occurrence of a rule's placeholder nothing changes. *)
Lemma substitute_absent rules s :
  (forall r, r ∈ rules -> str_in r.1 s = false) -> substitute rules s = s.
Proof.
  induction s as [|c s IH]; intros Habs; [done|].
  rewrite substitute_miss.
  - f_equal. apply IH. intros r Hr. specialize (Habs r Hr).
    rewrite str_in_cons in Habs. by apply orb_false_iff in Habs as [_ ?].
  - apply first_match_None. intros r Hr. specialize (Habs r Hr).
    rewrite str_in_cons in Habs. by apply orb_false_iff in Habs as [? _].
Qed.

(** *** Texts whose braces all start known placeholders *)

Lemma braces_known_drop ks u rest :
  braces_known ks (u +:+ rest) = true -> braces_known ks rest = true.
Proof.
  induction u as [|c u IH]; [done|]. simpl String.append. cbn [braces_known].
  intros [_ ?]%andb_true_iff. by apply IH.
Qed.

Lemma braces_known_text ks u rest :
  lacks lbrace u = true ->
  braces_known ks (u +:+ rest) = braces_known ks rest.
Proof.
  induction u as [|c u IH]; [done|]. cbn [lacks].
  intros [Hc Hu]%andb_true_iff. apply negb_true_iff in Hc.
  simpl String.append. cbn [braces_known].
  rewrite Ascii.eqb_sym, Hc. by rewrite IH.
Qed.

Lemma braces_known_token ks k rest :
  k ∈ ks -> is_token k ->
  braces_known ks (k +:+ rest) = braces_known ks rest.
Proof.
  intros Hk Hkt. destruct (token_nonempty _ Hkt) as (tail & Heq & Htail).
  pose proof (prefix_app k rest) as Hp. rewrite Heq in *.
  simpl String.append in *. cbn [braces_known]. rewrite Ascii.eqb_refl.
  rewrite braces_known_text by done.
  replace (existsb _ ks) with true; [done|].
  symmetry. apply existsb_exists. exists (String lbrace tail).
  split; [by apply list_elem_of_In|done].
Qed.

Lemma braces_known_nil s : braces_known [] s = true -> lacks lbrace s = true.
Proof.
  induction s as [|c s IH]; [done|]. cbn [braces_known lacks existsb].
  intros [Hc Hs]%andb_true_iff. rewrite IH by done.
  rewrite Ascii.eqb_sym. by destruct (Ascii.eqb c lbrace).
Qed.

(** Running the first rule alone and then the others gives the same as
    running all rules at once, when the replacement has no brace and
    every brace of the text starts a placeholder. *)
Lemma substitute_first_text k1 x1 rules s :
  is_token k1 -> lacks lbrace x1 = true -> token_rules rules ->
  k1 ∉ map fst rules ->
  braces_known (k1 :: map fst rules) s = true ->
  substitute rules (substitute [(k1, x1)] s) = substitute ((k1, x1) :: rules) s /\
  braces_known (map fst rules) (substitute [(k1, x1)] s) = true.
Proof.
  intros Hk1 Hx1 Htok Hk1notin.
  assert (Htok1 : token_rules [(k1, x1)]) by by repeat constructor.
  assert (Htok' : token_rules ((k1, x1) :: rules)) by by constructor.
  assert (Hks : Forall is_token (k1 :: map fst rules)).
  { constructor; [done|]. by apply Forall_map. }
  revert s.
  apply (keys_scan_ind _
    (fun s => braces_known (k1 :: map fst rules) s = true ->
       substitute rules (substitute [(k1, x1)] s) =
         substitute ((k1, x1) :: rules) s /\
       braces_known (map fst rules) (substitute [(k1, x1)] s) = true) Hks);
    [done|intros k rest Hk IH|intros c s Hmiss IH].
  - intros Hb. apply braces_known_drop in Hb. destruct (IH Hb) as [IH1 IH2].
    assert (is_token k) as Hkt by by eapply Forall_forall in Hks.
    rewrite (substitute_token [(k1, x1)]), (substitute_token ((k1, x1) :: rules))
      by done.
    cbn [rule_for]. destruct (String.eqb_spec k1 k) as [->|Hne]; cbn [snd].
    + rewrite substitute_copy, braces_known_text by done. by rewrite IH1.
    + apply elem_of_cons in Hk as [->|Hk]; [done|].
      rewrite substitute_token, braces_known_token by done. by rewrite IH1.
  - cbn [braces_known]. intros [Hc Hb]%andb_true_iff.
    destruct (IH Hb) as [IH1 IH2].
    assert (Ascii.eqb lbrace c = false) as Hne.
    { rewrite Ascii.eqb_sym. destruct (Ascii.eqb c lbrace); [|done].
      apply existsb_exists in Hc as (k & Hk & Hp).
      apply list_elem_of_In in Hk. by rewrite (Hmiss k Hk) in Hp. }
    rewrite (substitute_miss [(k1, x1)]), (substitute_miss ((k1, x1) :: rules))
      by by apply first_match_nonbrace.
    rewrite substitute_miss by by apply first_match_nonbrace.
    cbn [braces_known]. rewrite Ascii.eqb_sym, Hne. by rewrite IH1, IH2.
Qed.

(** *** Attribution placeholders *)

Lemma placeholder_token k : is_placeholder k -> is_token k.
Proof.
  intros [name Hname]. constructor.
  apply andb_true_iff in Hname as [Hl Hr].
  unfold brace_free. by rewrite !lacks_app, Hl, Hr.
Qed.

Lemma placeholder_prefix k :
  is_placeholder k -> String.prefix "{attribution." k = true.
Proof.
  intros [name _].
  change (placeholder_of name)
    with ("{attribution." +:+ (name +:+ String rbrace "")).
  apply prefix_app.
Qed.

End Substitute.
(** ** Dictionaries *)

Section DictFacts.

Implicit Types (k : string) (v : pyval) (d e : pydict).

Lemma get_set_eq k v d : Dict.get k (Dict.set k v d) = Some v.
Proof.
  induction d as [|[k' v'] d IH]; simpl.
  - by rewrite String.eqb_refl.
  - destruct (String.eqb_spec k k') as [->|Hne]; simpl.
    + by rewrite String.eqb_refl.
    + by destruct (String.eqb_spec k k').
Qed.

Lemma get_set_ne k k' v d : k <> k' -> Dict.get k (Dict.set k' v d) = Dict.get k d.
Proof.
  intros Hne. induction d as [|[k0 v0] d IH]; simpl.
  - by destruct (String.eqb_spec k k').
  - destruct (String.eqb_spec k' k0) as [->|Hne0]; simpl.
    + by destruct (String.eqb_spec k k0).
    + by rewrite IH.
Qed.

Lemma get_set k k' v d :
  Dict.get k (Dict.set k' v d) = if String.eqb k k' then Some v else Dict.get k d.
Proof.
  destruct (String.eqb_spec k k') as [->|Hne].
  - apply get_set_eq.
  - by apply get_set_ne.
Qed.

Lemma get_del_eq k d : Dict.get k (Dict.del k d) = None.
Proof.
  induction d as [|[k' v'] d IH]; simpl; [done|].
  destruct (String.eqb_spec k k') as [->|Hne]; simpl; [done|].
  by destruct (String.eqb_spec k k').
Qed.

Lemma get_del_ne k k' d : k <> k' -> Dict.get k (Dict.del k' d) = Dict.get k d.
Proof.
  intros Hne. induction d as [|[k0 v0] d IH]; simpl; [done|].
  destruct (String.eqb_spec k' k0) as [->|Hne0]; simpl.
  - by destruct (String.eqb_spec k k0).
  - by rewrite IH.
Qed.

Lemma get_None_keys k d : Dict.get k d = None <-> k ∉ Dict.keys d.
Proof.
  induction d as [|[k' v'] d IH]; simpl.
  - split; [intros _; apply not_elem_of_nil|done].
  - rewrite not_elem_of_cons.
    destruct (String.eqb_spec k k') as [->|Hne]; split; try done.
    + by intros [? _].
    + intros. split; [done|]. by apply IH.
    + intros [_ ?]. by apply IH.
Qed.

Lemma keys_set k v d :
  Dict.keys (Dict.set k v d) =
  if Dict.mem k d then Dict.keys d else Dict.keys d ++ [k].
Proof.
  unfold Dict.mem. induction d as [|[k' v'] d IH]; simpl; [done|].
  destruct (String.eqb_spec k k') as [->|Hne]; simpl; [done|].
  rewrite IH. by destruct (Dict.get k d).
Qed.

Lemma NoDup_keys_set k v d :
  NoDup (Dict.keys d) -> NoDup (Dict.keys (Dict.set k v d)).
Proof.
  intros Hnd. rewrite keys_set. unfold Dict.mem.
  destruct (Dict.get k d) eqn:Hg; [done|].
  apply get_None_keys in Hg.
  apply NoDup_app. split; [done|]. split.
  - intros x Hx Hx'. apply list_elem_of_singleton in Hx'. by subst.
  - apply NoDup_singleton.
Qed.

Lemma NoDup_keys_update d e :
  NoDup (Dict.keys d) -> NoDup (Dict.keys (Dict.update d e)).
Proof.
  unfold Dict.update. revert d.
  induction e as [|[k v] e IH]; intros d Hd; simpl; [done|].
  apply IH. by apply NoDup_keys_set.
Qed.

Lemma NoDup_keys_of_list l : NoDup (Dict.keys (Dict.of_list l)).
Proof. apply NoDup_keys_update. constructor. Qed.

(** After an update a key holds its override if there is one, and its
    old value otherwise. *)
Lemma get_update k d e :
  NoDup (Dict.keys e) ->
  Dict.get k (Dict.update d e) =
  match Dict.get k e with Some v => Some v | None => Dict.get k d end.
Proof.
  unfold Dict.update. revert d.
  induction e as [|[k' v'] e IH]; intros d Hnd; simpl; [done|].
  apply NoDup_cons in Hnd as [Hnotin Hnd']. simpl in Hnotin.
  rewrite IH by done.
  destruct (String.eqb_spec k k') as [->|Hne].
  - apply get_None_keys in Hnotin. rewrite Hnotin. apply get_set_eq.
  - rewrite get_set_ne by done. done.
Qed.

Lemma set_notin k v d : k ∉ Dict.keys d -> Dict.set k v d = d ++ [(k, v)].
Proof.
  induction d as [|[k' v'] d IH]; simpl; [done|].
  rewrite not_elem_of_cons. intros [Hne Hnotin].
  destruct (String.eqb_spec k k'); [done|]. by rewrite IH.
Qed.

Lemma update_NoDup d e :
  NoDup (Dict.keys (d ++ e)) -> Dict.update d e = d ++ e.
Proof.
  unfold Dict.update, Dict.keys. revert d.
  induction e as [|[k v] e IH]; intros d Hnd; simpl.
  - by rewrite app_nil_r.
  - rewrite set_notin.
    + rewrite IH; rewrite <- app_assoc; done.
    + rewrite map_app in Hnd. apply NoDup_app in Hnd as (_ & Hdisj & _).
      intros Hk. apply (Hdisj _ Hk). simpl. by left.
Qed.

(** A dict built from the items of a dict is that dict. *)
Lemma of_list_id d : NoDup (Dict.keys d) -> Dict.of_list d = d.
Proof. intros Hnd. unfold Dict.of_list. by rewrite update_NoDup. Qed.

Lemma elem_of_set kv k v d : kv ∈ Dict.set k v d -> kv = (k, v) \/ kv ∈ d.
Proof.
  induction d as [|[k' v'] d IH]; simpl.
  - intros ->%list_elem_of_singleton. by left.
  - destruct (String.eqb_spec k k') as [->|Hne].
    + intros [->|Hin]%elem_of_cons; [by left|]. right. by right.
    + intros [->|Hin]%elem_of_cons; [right; by left|].
      destruct (IH Hin) as [->|?]; [by left|]. right. by right.
Qed.

Lemma elem_of_update kv d e : kv ∈ Dict.update d e -> kv ∈ d \/ kv ∈ e.
Proof.
  unfold Dict.update. revert d.
  induction e as [|[k v] e IH]; intros d; simpl; [by left|].
  intros [Hin|Hin]%IH.
  - apply elem_of_set in Hin as [->|Hin]; [right; by left|by left].
  - right. by right.
Qed.

Lemma get_update_notin k d e :
  k ∉ Dict.keys e -> Dict.get k (Dict.update d e) = Dict.get k d.
Proof.
  unfold Dict.update. revert d.
  induction e as [|[k' v'] e IH]; intros d; simpl; [done|].
  rewrite not_elem_of_cons. intros [Hne Hnotin].
  rewrite IH by done. by apply get_set_ne.
Qed.

Lemma get_Some_elem k v d : Dict.get k d = Some v -> (k, v) ∈ d.
Proof.
  induction d as [|[k' v'] d IH]; simpl; [done|].
  destruct (String.eqb_spec k k') as [->|Hne].
  - intros [= ->]. by left.
  - intros. right. by apply IH.
Qed.

Lemma elem_keys k v d : (k, v) ∈ d -> k ∈ Dict.keys d.
Proof. intros Hin. apply list_elem_of_fmap. by exists (k, v). Qed.

End DictFacts.

(** ** Computations that leave the objects of a store alone *)

Section Frame.

Variable h0 : heap.

Lemma keeps_ret {A} (a : A) (Q : A -> Prop) : Q a -> keeps h0 (ret a) Q.
Proof. intros Ha s Hs. split; [done|]. simpl. by intros ? [= <-]. Qed.

Lemma keeps_raise {A} e (Q : A -> Prop) : keeps h0 (raise e) Q.
Proof. intros s Hs. split; [done|]. simpl. by intros ? [=]. Qed.

Lemma keeps_bind {A B} (m : M A) (k : A -> M B) (Q : A -> Prop) (R : B -> Prop) :
  keeps h0 m Q -> (forall a, Q a -> keeps h0 (k a) R) -> keeps h0 (bind m k) R.
Proof.
  intros Hm Hk s Hs. unfold bind.
  destruct (Hm s Hs) as [Hpre Hq].
  destruct (m s) as [[a|e] s1]; simpl in *.
  - apply (Hk a); auto.
  - split; [done|]. by intros ? [=].
Qed.

Lemma keeps_weaken {A} (m : M A) (Q R : A -> Prop) :
  keeps h0 m Q -> (forall a, Q a -> R a) -> keeps h0 m R.
Proof.
  intros Hm HQR s Hs. destruct (Hm s Hs) as [? Hq]. split; [done|]. auto.
Qed.

Lemma keeps_reading {A} (f : heap -> outcome A) : keeps h0 (reading f) (fun _ => True).
Proof. intros s Hs. split; [done|]. done. Qed.

Lemma keeps_get_ATTRIBUTIONS : keeps h0 get_ATTRIBUTIONS (fun _ => True).
Proof.
  intros s Hs. unfold get_ATTRIBUTIONS. by destruct (ATTRIBUTIONS s).
Qed.

Lemma keeps_set_ATTRIBUTIONS v : keeps h0 (set_ATTRIBUTIONS v) (fun _ => True).
Proof. intros s Hs. done. Qed.

Lemma keeps_alloc o : keeps h0 (alloc o) (fresh h0).
Proof.
  intros s Hs. simpl. split.
  - by apply prefix_app_r.
  - intros a [= <-] l [= <-]. by apply prefix_length.
Qed.

Lemma keeps_store l o : length h0 <= l -> keeps h0 (store l o) (fun _ => True).
Proof.
  intros Hl s [k Hk]. unfold store. cbn [snd fst st_heap]. split; [|done].
  rewrite Hk. exists (<[l - length h0 := o]> k).
  by rewrite insert_app_r_alt.
Qed.

Lemma keeps_getitem v k : keeps h0 (getitem v k) (fun _ => True).
Proof. apply keeps_reading. Qed.

Lemma keeps_iter_keys v : keeps h0 (iter_keys v) (fun _ => True).
Proof. apply keeps_reading. Qed.

Lemma keeps_new_dict d : keeps h0 (new_dict d) (fresh h0).
Proof. apply keeps_alloc. Qed.

Lemma keeps_copy v : keeps h0 (copy v) (fresh h0).
Proof.
  intros s Hs. unfold copy.
  destruct v; try (split; [done|by intros ? [=]]).
  destruct (st_heap s !! l); [by apply keeps_alloc|].
  split; [done|by intros ? [=]].
Qed.

Lemma keeps_merge a b : keeps h0 (merge a b) (fresh h0).
Proof.
  intros s Hs. unfold merge.
  destruct a, b; try (split; [done|by intros ? [=]]).
  destruct (st_heap s !! l) as [[?|?]|], (st_heap s !! l0) as [[?|?]|];
    try (split; [done|by intros ? [=]]).
  by apply keeps_alloc.
Qed.

(** The mutating methods keep [h0] when their receiver is not one of its
    objects. *)
Lemma keeps_pop_default v k d :
  fresh h0 v -> keeps h0 (pop_default v k d) (fun _ => True).
Proof.
  intros Hv s Hs. unfold pop_default.
  destruct v; try (split; [done|by intros ? [=]]).
  destruct (st_heap s !! l) as [[items|?]|]; try (split; [done|by intros ? [=]]).
  destruct (Dict.get k items); [|done].
  apply (keeps_bind _ _ (fun _ => True)); [|by intros; apply keeps_ret|done].
  apply keeps_store. by apply Hv.
Qed.

Lemma keeps_pop v k : fresh h0 v -> keeps h0 (pop v k) (fun _ => True).
Proof.
  intros Hv s Hs. unfold pop.
  destruct v; try (split; [done|by intros ? [=]]).
  destruct (st_heap s !! l) as [[items|?]|]; try (split; [done|by intros ? [=]]).
  destruct (Dict.get k items); [|split; [done|by intros ? [=]]].
  apply (keeps_bind _ _ (fun _ => True)); [|by intros; apply keeps_ret|done].
  apply keeps_store. by apply Hv.
Qed.

Lemma keeps_setitem v k x : fresh h0 v -> keeps h0 (setitem v k x) (fun _ => True).
Proof.
  intros Hv s Hs. unfold setitem.
  destruct v; try (split; [done|by intros ? [=]]).
  destruct (st_heap s !! l) as [[items|?]|]; try (split; [done|by intros ? [=]]).
  apply keeps_store; [by apply Hv|done].
Qed.

Lemma keeps_update v e : fresh h0 v -> keeps h0 (update v e) (fun _ => True).
Proof.
  intros Hv s Hs. unfold update.
  destruct v; try (split; [done|by intros ? [=]]).
  destruct (st_heap s !! l) as [[items|?]|]; try (split; [done|by intros ? [=]]).
  apply keeps_store; [by apply Hv|done].
Qed.

Lemma keeps_for_each {A} (xs : list A) (body : A -> M unit) :
  (forall x, keeps h0 (body x) (fun _ => True)) ->
  keeps h0 (for_each xs body) (fun _ => True).
Proof.
  intros Hbody. induction xs as [|x xs IH]; simpl.
  - by apply keeps_ret.
  - apply (keeps_bind _ _ (fun _ => True)); auto.
Qed.

Lemma keeps_pythonize_data data : keeps h0 (pythonize_data data) (fresh h0).
Proof.
  unfold pythonize_data.
  apply (keeps_bind _ _ (fun _ => True)); [apply keeps_get_ATTRIBUTIONS|intros attrs _].
  apply (keeps_bind _ _ (fun _ => True)); [apply keeps_reading|intros items _].
  apply (keeps_bind _ _ (fun _ => True)); [apply keeps_reading|intros nd _].
  apply keeps_new_dict.
Qed.

Lemma keeps_variant_keys_of var : keeps h0 (variant_keys_of var) (fresh h0).
Proof.
  destruct var; try apply keeps_new_dict;
    (apply (keeps_bind _ _ (fresh h0)); [apply keeps_copy|intros vk Hvk];
     apply (keeps_bind _ _ (fresh h0)); [apply keeps_new_dict|intros em _];
     apply (keeps_bind _ _ (fun _ => True));
       [by apply keeps_pop_default|intros vo _];
     apply keeps_merge).
Qed.

Lemma keeps_process_variant name variants provider_keys result variant :
  fresh h0 result ->
  keeps h0 (process_variant name variants provider_keys result variant)
    (fun _ => True).
Proof.
  intros Hres. unfold process_variant.
  apply (keeps_bind _ _ (fun _ => True)); [apply keeps_getitem|intros var _].
  apply (keeps_bind _ _ (fresh h0)); [apply keeps_variant_keys_of|intros vk _].
  apply (keeps_bind _ _ (fresh h0)); [apply keeps_merge|intros vk' Hvk'].
  apply (keeps_bind _ _ (fun _ => True)); [by apply keeps_setitem|intros _ _].
  apply (keeps_bind _ _ (fresh h0)); [apply keeps_pythonize_data|intros rec _].
  by apply keeps_setitem.
Qed.

Lemma keeps_process_provider data name :
  keeps h0 (process_provider data name) (fresh h0).
Proof.
  unfold process_provider.
  apply (keeps_bind _ _ (fun _ => True)); [apply keeps_getitem|intros entry _].
  apply (keeps_bind _ _ (fresh h0)); [apply keeps_copy|intros provider Hp].
  apply (keeps_bind _ _ (fun _ => True)); [by apply keeps_pop_default|intros variants _].
  apply (keeps_bind _ _ (fun _ => True)); [by apply keeps_pop|intros options _].
  apply (keeps_bind _ _ (fresh h0)); [apply keeps_merge|intros pk Hpk].
  assert (Hvar : keeps h0
    (result <- new_dict [] ;;
     keys <- iter_keys variants ;;
     for_each keys (process_variant name variants pk result) ;;;
     ret result) (fresh h0)).
  { apply (keeps_bind _ _ (fresh h0)); [apply keeps_new_dict|intros result Hres].
    apply (keeps_bind _ _ (fun _ => True)); [apply keeps_iter_keys|intros keys _].
    apply (keeps_bind _ _ (fun _ => True)); [|intros; by apply keeps_ret].
    apply keeps_for_each. intros. by apply keeps_process_variant. }
  destruct variants; try exact Hvar.
  apply (keeps_bind _ _ (fun _ => True)); [by apply keeps_setitem|intros _ _].
  apply keeps_pythonize_data.
Qed.

Lemma keeps_attribution_of data provider :
  keeps h0 (attribution_of data provider) (fun _ => True).
Proof.
  unfold attribution_of.
  apply (keeps_bind _ _ (fun _ => True)); [apply keeps_getitem|intros ? _].
  apply (keeps_bind _ _ (fun _ => True)); [apply keeps_getitem|intros ? _].
  apply keeps_getitem.
Qed.

Lemma keeps_process_data data : keeps h0 (process_data data) (fresh h0).
Proof.
  unfold process_data.
  do 3 (apply (keeps_bind _ _ (fun _ => True));
          [apply keeps_attribution_of|intros ? _]).
  apply (keeps_bind _ _ (fresh h0)); [apply keeps_new_dict|intros table _].
  apply (keeps_bind _ _ (fun _ => True)); [apply keeps_set_ATTRIBUTIONS|intros _ _].
  apply (keeps_bind _ _ (fresh h0)); [apply keeps_new_dict|intros result Hres].
  apply (keeps_bind _ _ (fun _ => True)); [apply keeps_iter_keys|intros keys _].
  apply (keeps_bind _ _ (fun _ => True)); [|intros; by apply keeps_ret].
  apply keeps_for_each. intros provider.
  apply (keeps_bind _ _ (fresh h0)); [apply keeps_process_provider|intros rec _].
  by apply keeps_setitem.
Qed.

Lemma keeps_TileProvider_call self kwargs :
  keeps h0 (TileProvider_call self kwargs) (fresh h0).
Proof.
  unfold TileProvider_call.
  destruct (Dict.mem "self" kwargs); [apply keeps_raise|].
  apply (keeps_bind _ _ (fun _ => True)); [apply keeps_reading|intros items _].
  apply (keeps_bind _ _ (fresh h0)); [apply keeps_new_dict|intros new Hnew].
  apply (keeps_bind _ _ (fun _ => True)); [by apply keeps_update|intros _ _].
  by apply keeps_ret.
Qed.

End Frame.

(** A document read from a store reads the same from every extension of
    that store. *)
Lemma dump_prefix depth (h h' : heap) v j :
  h `prefix_of` h' -> dump depth h v = Some j -> dump depth h' v = Some j.
Proof.
  intros Hpre. revert v j.
  induction depth as [|depth IH]; intros v j; destruct v; simpl; try done.
  destruct (h !! l) as [o|] eqn:Hl; [|done].
  rewrite (prefix_lookup_Some _ _ _ _ Hl Hpre).
  destruct o as [d|vs].
  - assert (Hd : forall ms,
      fold_right (fun kv acc =>
        match dump depth h kv.2, acc with
        | Some j, Some ms => Some ((kv.1, j) :: ms)
        | _, _ => None
        end) (Some []) d = Some ms ->
      fold_right (fun kv acc =>
        match dump depth h' kv.2, acc with
        | Some j, Some ms => Some ((kv.1, j) :: ms)
        | _, _ => None
        end) (Some []) d = Some ms).
    { clear Hl. induction d as [|kv d IHd]; simpl; [done|]. intros ms.
      destruct (dump depth h kv.2) as [j0|] eqn:Hj; [|done].
      rewrite (IH _ _ Hj).
      destruct (fold_right _ _ d) as [ms0|] eqn:Hf; [|done].
      by rewrite (IHd _ eq_refl). }
    destruct (fold_right _ _ d) as [ms|] eqn:Hf; [|done].
    by rewrite (Hd _ eq_refl).
  - assert (Hd : forall js,
      fold_right (fun v acc =>
        match dump depth h v, acc with
        | Some j, Some js => Some (j :: js)
        | _, _ => None
        end) (Some []) vs = Some js ->
      fold_right (fun v acc =>
        match dump depth h' v, acc with
        | Some j, Some js => Some (j :: js)
        | _, _ => None
        end) (Some []) vs = Some js).
    { clear Hl. induction vs as [|v vs IHd]; simpl; [done|]. intros js.
      destruct (dump depth h v) as [j0|] eqn:Hj; [|done].
      rewrite (IH _ _ Hj).
      destruct (fold_right _ _ vs) as [js0|] eqn:Hf; [|done].
      by rewrite (IHd _ eq_refl). }
    destruct (fold_right _ _ vs) as [js|] eqn:Hf; [|done].
    by rewrite (Hd _ eq_refl).
Qed.

(** ** The record class: deriving a record *)

(** C9 (as amended).  Calling a record with keyword overrides none of
    which is named [self] returns a new object: it did not exist before
    the call, so it is not the original; each of its entries is the
    override for that key if one was given and the original's entry
    otherwise; and every object that existed before the call, the
    original record among them, is unchanged.  A call with an override
    named [self] raises [TypeError] and leaves the store as it was. *)
Theorem TileProvider_call_derives (s : state) (l : loc) (items kwargs : pydict) :
  st_heap s !! l = Some (ODict items) ->
  NoDup (Dict.keys kwargs) ->
  (Dict.get "self" kwargs = None ->
   exists l' s' items',
     TileProvider_call (VRef l) kwargs s = (Ok (VRef l'), s') /\
     l' <> l /\
     st_heap s !! l' = None /\
     st_heap s' !! l' = Some (ODict items') /\
     (forall k, Dict.get k items' =
                match Dict.get k kwargs with
                | Some v => Some v
                | None => Dict.get k items
                end) /\
     st_heap s' !! l = Some (ODict items) /\
     (forall l0 o, st_heap s !! l0 = Some o -> st_heap s' !! l0 = Some o)) /\
  (Dict.get "self" kwargs <> None ->
   TileProvider_call (VRef l) kwargs s = (Raise TypeError, s)).
Proof.
  intros Hl Hnd. split; intros Hself.
  2:{ unfold TileProvider_call, Dict.mem.
      by destruct (Dict.get "self" kwargs). }
  pose proof (lookup_lt_Some _ _ _ Hl) as Hlt.
  exists (length (st_heap s)),
         (State (st_heap s ++ [ODict (Dict.update items kwargs)]) (ATTRIBUTIONS s)),
         (Dict.update items kwargs).
  assert (Hrun : TileProvider_call (VRef l) kwargs s =
    (Ok (VRef (length (st_heap s))),
     State (st_heap s ++ [ODict (Dict.update items kwargs)]) (ATTRIBUTIONS s))).
  { unfold TileProvider_call, Dict.mem. rewrite Hself.
    unfold bind, reading, new_dict, alloc, update, store, ret.
    cbn [dict_items st_heap ATTRIBUTIONS]. rewrite Hl.
    cbn [st_heap ATTRIBUTIONS].
    rewrite lookup_app_r by done. rewrite Nat.sub_diag. cbn [lookup list_lookup].
    f_equal. f_equal.
    rewrite insert_app_r_alt by done. by rewrite Nat.sub_diag. }
  split; [done|]. split; [lia|]. split; [by apply lookup_ge_None_2|].
  cbn [st_heap]. split.
  { rewrite lookup_app_r by done. by rewrite Nat.sub_diag. }
  split; [intros k; by apply get_update|].
  split; [by apply lookup_app_l_Some|].
  intros l0 o Hl0. by apply lookup_app_l_Some.
Qed.

Lemma TileProvider_call_derives_witness :
  exists l' s' items',
    TileProvider_call (VRef 0) [("url", VStr "b"); ("zoom", VInt 3)]
      (State [ODict [("name", VStr "N"); ("url", VStr "a")]] None)
    = (Ok (VRef l'), s') /\
    l' <> 0 /\
    st_heap (State [ODict [("name", VStr "N"); ("url", VStr "a")]] None) !! l' = None /\
    st_heap s' !! l' = Some (ODict items') /\
    (forall k, Dict.get k items' =
               match Dict.get k [("url", VStr "b"); ("zoom", VInt 3)] with
               | Some v => Some v
               | None => Dict.get k [("name", VStr "N"); ("url", VStr "a")]
               end) /\
    st_heap s' !! 0 = Some (ODict [("name", VStr "N"); ("url", VStr "a")]) /\
    (forall l0 o,
       st_heap (State [ODict [("name", VStr "N"); ("url", VStr "a")]] None) !! l0 = Some o ->
       st_heap s' !! l0 = Some o).
Proof.
  apply (TileProvider_call_derives
           (State [ODict [("name", VStr "N"); ("url", VStr "a")]] None) 0).
  - reflexivity.
  - by_evaluation.
  - reflexivity.
Defined.

(** C9, as stated, fails for an override named [self]: binding the
    arguments raises before the body runs, and no record is returned. *)
Lemma TileProvider_call_self_counterexample :
  TileProvider_call (VRef 0) [("self", VInt 1)]
    (State [ODict [("name", VStr "N"); ("url", VStr "a")]] None)
  = (Raise TypeError, State [ODict [("name", VStr "N"); ("url", VStr "a")]] None).
Proof. reflexivity. Qed.

(** ** Normalization leaves its input alone *)

(** C10.  Whatever the catalog and whether [process_data] returns or
    raises, every object that was in the store before the call (the
    catalog mapping, every provider entry, every [options] mapping and
    every variant definition among them) is in the store after the call
    with the same contents, and the catalog still reads as the same
    document. *)
Theorem process_data_keeps_input (data : pyval) (s : state) :
  (forall l o, st_heap s !! l = Some o ->
               st_heap (process_data data s).2 !! l = Some o) /\
  (forall depth j, dump depth (st_heap s) data = Some j ->
                   dump depth (st_heap (process_data data s).2) data = Some j).
Proof.
  destruct (keeps_process_data (st_heap s) data s) as [Hpre _]; [done|].
  split.
  - intros l o Hl. by eapply prefix_lookup_Some.
  - intros depth j. by apply dump_prefix.
Qed.

(** ** Field renaming and placeholder resolution *)

Section Pythonize.

Implicit Types (h : heap) (v value : pyval) (d data : pydict) (k key : string).

Lemma str_in_tail c p s : str_in (String c p) s = true -> str_in p s = true.
Proof.
  induction s as [|e s IH]; [done|].
  rewrite !str_in_cons, prefix_cons.
  intros [[_ Hp]%andb_true_iff|Hs]%orb_true_iff.
  - rewrite (str_in_prefix _ _ Hp). apply orb_true_r.
  - rewrite IH by done. apply orb_true_r.
Qed.

Lemma url_rules_tokens : token_rules url_rules.
Proof.
  constructor; [by apply (IsToken "maxZoom")|].
  constructor; [by apply (IsToken "minZoom")|constructor].
Qed.

(** The two replacements the script runs on a url amount to one pass of
    [url_rules]. *)
Lemma rename_in_url_substitute u :
  rename_in_url rename_keys (VStr u) = Ok (VStr (substitute url_rules u)).
Proof.
  cbn [rename_in_url rename_keys py_replace obind].
  do 2 f_equal.
  change ("{" +:+ "maxZoom" +:+ "}") with (token_of "maxZoom").
  change ("{" +:+ "max_zoom" +:+ "}") with (token_of "max_zoom").
  change ("{" +:+ "minZoom" +:+ "}") with (token_of "minZoom").
  change ("{" +:+ "min_zoom" +:+ "}") with (token_of "min_zoom").
  rewrite !replace_substitute by done.
  apply substitute_first_then_rest.
  - by constructor.
  - by constructor.
  - constructor; [by apply (IsToken "minZoom")|constructor].
  - by intros [=]%list_elem_of_singleton.
  - by intros [=]%list_elem_of_singleton.
Qed.

Lemma url_without_renameable h u :
  any_in h rename_keys (VStr u) = Ok false -> substitute url_rules u = u.
Proof.
  cbn [any_in rename_keys py_in obind].
  destruct (str_in "maxZoom" u) eqn:Hmax; [done|].
  destruct (str_in "minZoom" u) eqn:Hmin; [done|]. intros _.
  apply substitute_absent.
  intros r [->|[->|[]%elem_of_nil]%elem_of_cons]%elem_of_cons; simpl.
  - apply not_true_is_false. intros Hin%str_in_tail.
    by rewrite (str_in_weaken "maxZoom" "maxZoom}" _ eq_refl Hin) in Hmax.
  - apply not_true_is_false. intros Hin%str_in_tail.
    by rewrite (str_in_weaken "minZoom" "minZoom}" _ eq_refl Hin) in Hmin.
Qed.

(** What the url branch makes of a url that is a string. *)
Lemma rename_item_url h u :
  rename_item h "url" (VStr u) = Ok ("url", VStr (substitute url_rules u)).
Proof.
  unfold rename_item. cbn [rename_of rename_keys]. simpl String.eqb.
  destruct (any_in h rename_keys (VStr u)) as [[|]|e] eqn:Hany.
  - cbn [obind]. by rewrite rename_in_url_substitute.
  - cbn [obind]. by rewrite (url_without_renameable h).
  - cbn [any_in rename_keys py_in obind] in Hany.
    by repeat destruct (str_in _ u).
Qed.

Lemma url_rules_idempotent u :
  substitute url_rules (substitute url_rules u) = substitute url_rules u.
Proof.
  apply substitute_idempotent; [apply url_rules_tokens|].
  constructor; [|constructor; [|constructor]]; simpl; split.
  - by apply (IsToken "max_zoom").
  - by intros [[=]|[[=]|[]%elem_of_nil]%elem_of_cons]%elem_of_cons.
  - by apply (IsToken "min_zoom").
  - by intros [[=]|[[=]|[]%elem_of_nil]%elem_of_cons]%elem_of_cons.
Qed.

(** *** Results that do not depend on later allocations *)

Lemma py_in_mono h h' needle v b :
  h `prefix_of` h' -> py_in h needle v = Ok b -> py_in h' needle v = Ok b.
Proof.
  intros Hpre. destruct v; try done. simpl.
  destruct (h !! l) as [o|] eqn:Hl; [|done].
  by rewrite (prefix_lookup_Some _ _ _ _ Hl Hpre).
Qed.

Lemma dict_items_mono h h' v d :
  h `prefix_of` h' -> dict_items h v = Ok d -> dict_items h' v = Ok d.
Proof.
  intros Hpre. destruct v; try done. simpl.
  destruct (h !! l) as [o|] eqn:Hl; [|done].
  by rewrite (prefix_lookup_Some _ _ _ _ Hl Hpre).
Qed.

Lemma attribution_loop_mono h h' table v v' :
  h `prefix_of` h' ->
  attribution_loop h table v = Ok v' -> attribution_loop h' table v = Ok v'.
Proof.
  intros Hpre. revert v.
  induction table as [|[placeholder attr] table IH]; intros v; [done|].
  cbn [attribution_loop].
  destruct (py_in h placeholder v) as [found|] eqn:Hin; [|done].
  rewrite (py_in_mono _ _ _ _ _ Hpre Hin). cbn [obind].
  destruct found; [|apply IH].
  destruct (py_replace v placeholder attr) as [v1|]; [|done]. cbn [obind].
  destruct (py_in h "{attribution." v1) as [left|] eqn:Hleft; [|done].
  rewrite (py_in_mono _ _ _ _ _ Hpre Hleft). cbn [obind].
  destruct (negb left); [done|apply IH].
Qed.

Lemma any_in_mono h h' rk v b :
  h `prefix_of` h' -> any_in h rk v = Ok b -> any_in h' rk v = Ok b.
Proof.
  intros Hpre. induction rk as [|[k new] rk IH]; [done|].
  cbn [any_in].
  destruct (py_in h k v) as [found|] eqn:Hin; [|done].
  rewrite (py_in_mono _ _ _ _ _ Hpre Hin). cbn [obind].
  destruct found; [done|apply IH].
Qed.

Lemma rename_item_mono h h' key v kv :
  h `prefix_of` h' -> rename_item h key v = Ok kv -> rename_item h' key v = Ok kv.
Proof.
  intros Hpre. unfold rename_item.
  destruct (rename_of key rename_keys); [done|].
  destruct (String.eqb key "url"); [|done].
  destruct (any_in h rename_keys v) as [found|] eqn:Hany; [|done].
  by rewrite (any_in_mono _ _ _ _ _ Hpre Hany).
Qed.

Lemma pythonize_item_mono h h' attrs key v kv :
  h `prefix_of` h' ->
  pythonize_item h attrs key v = Ok kv -> pythonize_item h' attrs key v = Ok kv.
Proof.
  intros Hpre. unfold pythonize_item.
  destruct (String.eqb key "attribution"); [|by apply rename_item_mono].
  destruct (py_in h "{attribution." v) as [found|] eqn:Hin; [|done].
  rewrite (py_in_mono _ _ _ _ _ Hpre Hin). cbn [obind].
  destruct found; [|by apply rename_item_mono].
  destruct (dict_items h attrs) as [table|] eqn:Htab; [|done].
  rewrite (dict_items_mono _ _ _ _ Hpre Htab). cbn [obind].
  destruct (attribution_loop h table v) as [v'|] eqn:Hloop; [|done].
  by rewrite (attribution_loop_mono _ _ _ _ _ Hpre Hloop).
Qed.

Lemma pythonize_items_mono h h' attrs items nd :
  h `prefix_of` h' ->
  pythonize_items h attrs items = Ok nd -> pythonize_items h' attrs items = Ok nd.
Proof.
  intros Hpre. revert nd.
  induction items as [|[key v] items IH]; intros nd; [done|].
  cbn [pythonize_items].
  destruct (pythonize_item h attrs key v) as [kv|] eqn:Hitem; [|done].
  rewrite (pythonize_item_mono _ _ _ _ _ _ Hpre Hitem). cbn [obind].
  destruct (pythonize_items h attrs items) as [nd'|]; [|done].
  by rewrite (IH _ eq_refl).
Qed.

(** *** What one round of the loop returns *)

(** The substitution loop only returns a value that has no
    ["{attribution."] left. *)
Lemma attribution_loop_resolved h table v v' :
  attribution_loop h table v = Ok v' -> py_in h "{attribution." v' = Ok false.
Proof.
  revert v. induction table as [|[placeholder attr] table IH]; intros v; [done|].
  cbn [attribution_loop].
  destruct (py_in h placeholder v) as [[|]|]; cbn [obind]; [|apply IH|done].
  destruct (py_replace v placeholder attr) as [v1|]; cbn [obind]; [|done].
  destruct (py_in h "{attribution." v1) as [[|]|] eqn:Hleft; cbn [obind negb];
    [apply IH| |done].
  by intros [= <-].
Qed.

Lemma rename_item_key h key v kv :
  rename_item h key v = Ok kv -> kv.1 = new_key key.
Proof.
  unfold rename_item, new_key.
  destruct (rename_of key rename_keys); [by intros [= <-]|].
  destruct (String.eqb key "url"); [|by intros [= <-]].
  destruct (any_in h rename_keys v) as [[|]|]; cbn [obind]; [|by intros [= <-]|done].
  destruct (rename_in_url rename_keys v); cbn [obind]; [|done]. by intros [= <-].
Qed.

Lemma pythonize_item_key h attrs key v kv :
  pythonize_item h attrs key v = Ok kv -> kv.1 = new_key key.
Proof.
  unfold pythonize_item.
  destruct (String.eqb_spec key "attribution") as [->|_]; [|apply rename_item_key].
  destruct (py_in h "{attribution." v) as [[|]|]; cbn [obind];
    [|apply rename_item_key|done].
  destruct (dict_items h attrs); cbn [obind]; [|done].
  destruct (attribution_loop h _ v); cbn [obind]; [|done]. by intros [= <-].
Qed.

Lemma pythonize_items_keys h attrs items nd :
  pythonize_items h attrs items = Ok nd ->
  map fst nd = map new_key (Dict.keys items).
Proof.
  revert nd. induction items as [|[key v] items IH]; intros nd.
  - by intros [= <-].
  - cbn [pythonize_items].
    destruct (pythonize_item h attrs key v) as [kv|] eqn:Hitem; [|done].
    cbn [obind].
    destruct (pythonize_items h attrs items) as [nd'|]; [|done]. cbn [obind].
    intros [= <-]. simpl. f_equal; [by eapply pythonize_item_key|by apply IH].
Qed.

(** A renamed item is left alone by another round. *)
Lemma rename_item_fixed h key v kv :
  rename_item h key v = Ok kv -> rename_item h kv.1 kv.2 = Ok kv.
Proof.
  unfold rename_item.
  destruct (rename_of key rename_keys) as [new|] eqn:Hren.
  - intros [= <-]. cbn [fst snd]. cbn [rename_of rename_keys] in Hren.
    destruct (String.eqb key "maxZoom"); [by injection Hren as <-|].
    destruct (String.eqb key "minZoom"); [by injection Hren as <-|done].
  - destruct (String.eqb_spec key "url") as [->|Hne].
    + destruct (any_in h rename_keys v) as [[|]|] eqn:Hany; cbn [obind]; [| |done].
      * destruct v; try done. rewrite rename_in_url_substitute. cbn [obind].
        intros [= <-]. cbn [fst snd rename_of rename_keys]. simpl String.eqb.
        pose proof (rename_item_url h (substitute url_rules s)) as Hurl.
        unfold rename_item in Hurl. cbn [rename_of rename_keys] in Hurl.
        simpl String.eqb in Hurl. by rewrite url_rules_idempotent in Hurl.
      * intros [= <-]. cbn [fst snd rename_of rename_keys]. simpl String.eqb.
        by rewrite Hany.
    + intros [= <-]. cbn [fst snd]. rewrite Hren.
      by destruct (String.eqb_spec key "url").
Qed.

Lemma pythonize_item_fixed h attrs key v kv :
  pythonize_item h attrs key v = Ok kv -> pythonize_item h attrs kv.1 kv.2 = Ok kv.
Proof.
  unfold pythonize_item at 1.
  destruct (String.eqb_spec key "attribution") as [->|Hne].
  - destruct (py_in h "{attribution." v) as [[|]|] eqn:Hin; cbn [obind]; [| |done].
    + destruct (dict_items h attrs); cbn [obind]; [|done].
      destruct (attribution_loop h _ v) as [v'|] eqn:Hloop; cbn [obind]; [|done].
      intros [= <-]. unfold pythonize_item. cbn [fst snd]. simpl String.eqb.
      by rewrite (attribution_loop_resolved _ _ _ _ Hloop).
    + intros Hren. pose proof (rename_item_key _ _ _ _ Hren) as Hk.
      pose proof (rename_item_fixed _ _ _ _ Hren) as Hfix.
      assert (kv = ("attribution", v)) as ->.
      { unfold rename_item in Hren. cbn [rename_of rename_keys] in Hren.
        simpl String.eqb in Hren. by injection Hren as <-. }
      unfold pythonize_item. cbn [fst snd]. simpl String.eqb.
      rewrite Hin. cbn [obind]. exact Hfix.
  - intros Hren. pose proof (rename_item_key _ _ _ _ Hren) as Hk.
    pose proof (rename_item_fixed _ _ _ _ Hren) as Hfix.
    unfold pythonize_item.
    destruct (String.eqb_spec kv.1 "attribution") as [Heq|_]; [|done].
    exfalso. rewrite Hk in Heq. unfold new_key in Heq.
    cbn [rename_of rename_keys] in Heq.
    destruct (String.eqb key "maxZoom"); [done|].
    destruct (String.eqb key "minZoom"); [done|]. done.
Qed.

Lemma pythonize_items_fixed h attrs d :
  Forall (fun kv => pythonize_item h attrs kv.1 kv.2 = Ok kv) d ->
  pythonize_items h attrs d = Ok d.
Proof.
  induction 1 as [|[k v] d Hkv _ IH]; [done|].
  cbn [pythonize_items]. simpl in Hkv. by rewrite Hkv, IH.
Qed.

Lemma pythonize_items_outputs h attrs items nd :
  pythonize_items h attrs items = Ok nd ->
  Forall (fun kv => pythonize_item h attrs kv.1 kv.2 = Ok kv) nd.
Proof.
  revert nd. induction items as [|[key v] items IH]; intros nd.
  - intros [= <-]. constructor.
  - cbn [pythonize_items].
    destruct (pythonize_item h attrs key v) as [kv|] eqn:Hitem; [|done].
    cbn [obind].
    destruct (pythonize_items h attrs items) as [nd'|]; [|done]. cbn [obind].
    intros [= <-]. constructor; [by eapply pythonize_item_fixed|by apply IH].
Qed.

Lemma new_key_not_renameable key : new_key key <> "maxZoom" /\ new_key key <> "minZoom".
Proof.
  unfold new_key. cbn [rename_of rename_keys].
  destruct (String.eqb_spec key "maxZoom"); [done|].
  destruct (String.eqb_spec key "minZoom"); done.
Qed.

(** *** [pythonize_data] as a whole *)

Lemma pythonize_data_run (data : pyval) s :
  pythonize_data data s =
  match ATTRIBUTIONS s with
  | None => (Raise (NameError "ATTRIBUTIONS"), s)
  | Some attrs =>
      match dict_items (st_heap s) data with
      | Raise e => (Raise e, s)
      | Ok items =>
          match pythonize_items (st_heap s) attrs items with
          | Raise e => (Raise e, s)
          | Ok nd =>
              (Ok (VRef (length (st_heap s))),
               State (st_heap s ++ [ODict (Dict.of_list nd)]) (ATTRIBUTIONS s))
          end
      end
  end.
Proof.
  unfold pythonize_data, bind, get_ATTRIBUTIONS, reading, new_dict, alloc.
  destruct (ATTRIBUTIONS s) as [attrs|] eqn:Hattrs; [|done].
  destruct (dict_items (st_heap s) data) as [items|]; [|done].
  destruct (pythonize_items (st_heap s) attrs items); [|done].
  by rewrite Hattrs.
Qed.

Lemma pythonize_data_inv (data : pyval) s (r : pyval) s' :
  pythonize_data data s = (Ok r, s') ->
  exists attrs items nd,
    ATTRIBUTIONS s = Some attrs /\
    dict_items (st_heap s) data = Ok items /\
    pythonize_items (st_heap s) attrs items = Ok nd /\
    r = VRef (length (st_heap s)) /\
    s' = State (st_heap s ++ [ODict (Dict.of_list nd)]) (Some attrs).
Proof.
  rewrite pythonize_data_run.
  destruct (ATTRIBUTIONS s) as [attrs|] eqn:Hattrs; [|done].
  destruct (dict_items (st_heap s) data) as [items|] eqn:Hitems; [|done].
  destruct (pythonize_items (st_heap s) attrs items) as [nd|] eqn:Hnd; [|done].
  intros [= <- <-]. by exists attrs, items, nd.
Qed.

End Pythonize.

(** C6.  A record that came out of the renaming step has no [maxZoom]
    or [minZoom] key, and running the step on it again succeeds and
    returns a record with exactly the same items; the first result is
    not changed by the second run. *)
Theorem pythonize_data_idempotent (data : pyval) (s : state) (r : pyval) (s' : state) :
  pythonize_data data s = (Ok r, s') ->
  exists l R,
    r = VRef l /\
    st_heap s' !! l = Some (ODict R) /\
    Dict.get "maxZoom" R = None /\
    Dict.get "minZoom" R = None /\
    exists l2 s2,
      pythonize_data r s' = (Ok (VRef l2), s2) /\
      st_heap s2 !! l2 = Some (ODict R) /\
      st_heap s2 !! l = Some (ODict R).
Proof.
  intros (attrs & items & nd & Hattrs & Hitems & Hnd & -> & ->)%pythonize_data_inv.
  set (h := st_heap s). set (R := Dict.of_list nd).
  assert (Hl : (h ++ [ODict R]) !! length h = Some (ODict R)).
  { rewrite lookup_app_r by done. by rewrite Nat.sub_diag. }
  assert (Hkeys : forall k, k ∈ Dict.keys R -> exists k0, k = new_key k0).
  { intros k (kv & -> & Hkv)%list_elem_of_fmap.
    apply elem_of_update in Hkv as [[]%elem_of_nil|Hkv].
    assert (kv.1 ∈ map fst nd) as Hin by (apply list_elem_of_fmap; by exists kv).
    rewrite (pythonize_items_keys _ _ _ _ Hnd) in Hin.
    apply list_elem_of_fmap in Hin as (k0 & -> & _). by exists k0. }
  exists (length h), R. cbn [st_heap]. split; [done|]. split; [done|].
  split; [|split].
  { apply get_None_keys. intros (k0 & Hk0)%Hkeys.
    by destruct (new_key_not_renameable k0). }
  { apply get_None_keys. intros (k0 & Hk0)%Hkeys.
    by destruct (new_key_not_renameable k0). }
  exists (length (h ++ [ODict R])),
         (State ((h ++ [ODict R]) ++ [ODict R]) (Some attrs)).
  split; [|split].
  - rewrite pythonize_data_run. cbn [st_heap ATTRIBUTIONS dict_items].
    rewrite Hl.
    assert (pythonize_items (h ++ [ODict R]) attrs R = Ok R) as ->.
    { apply pythonize_items_fixed. apply Forall_forall. intros kv Hkv.
      apply elem_of_update in Hkv as [[]%elem_of_nil|Hkv].
      apply (pythonize_item_mono h); [by apply prefix_app_r|].
      pose proof (pythonize_items_outputs _ _ _ _ Hnd) as Hout.
      by eapply Forall_forall in Hout. }
    by rewrite (of_list_id R) by apply NoDup_keys_of_list.
  - cbn [st_heap]. rewrite lookup_app_r by done. by rewrite Nat.sub_diag.
  - cbn [st_heap]. by apply lookup_app_l_Some.
Qed.

Lemma pythonize_data_idempotent_witness :
  exists l R,
    VRef 2 = VRef l /\
    st_heap (pythonize_data (VRef 1) sample_state).2 !! l = Some (ODict R) /\
    Dict.get "maxZoom" R = None /\
    Dict.get "minZoom" R = None /\
    exists l2 s2,
      pythonize_data (VRef 2) (pythonize_data (VRef 1) sample_state).2
        = (Ok (VRef l2), s2) /\
      st_heap s2 !! l2 = Some (ODict R) /\
      st_heap s2 !! l = Some (ODict R).
Proof.
  apply (pythonize_data_idempotent (VRef 1) sample_state).
  vm_compute. reflexivity.
Defined.

(** ** Placeholders inside a url *)

(** What [substitute url_rules] does, position by position. *)
Lemma url_rules_spec :
  substitute url_rules "" = "" /\
  (forall rest, substitute url_rules ("{maxZoom}" +:+ rest) =
                "{max_zoom}" +:+ substitute url_rules rest) /\
  (forall rest, substitute url_rules ("{minZoom}" +:+ rest) =
                "{min_zoom}" +:+ substitute url_rules rest) /\
  (forall t rest, is_token t -> t <> "{maxZoom}" -> t <> "{minZoom}" ->
                  substitute url_rules (t +:+ rest) =
                  t +:+ substitute url_rules rest) /\
  (forall c rest, c <> lbrace ->
                  substitute url_rules (String c rest) =
                  String c (substitute url_rules rest)).
Proof.
  pose proof url_rules_tokens as Htok.
  split; [done|]. split; [|split; [|split]].
  - intros rest. change "{maxZoom}" with (token_of "maxZoom").
    rewrite substitute_token; [reflexivity|done|by constructor].
  - intros rest. change "{minZoom}" with (token_of "minZoom").
    rewrite substitute_token; [reflexivity|done|by constructor].
  - intros t rest Ht Hmax Hmin. rewrite substitute_token by done.
    cbn [rule_for url_rules rename_keys map fst snd].
    destruct (String.eqb_spec ("{" +:+ "maxZoom" +:+ "}") t) as [<-|_]; [done|].
    by destruct (String.eqb_spec ("{" +:+ "minZoom" +:+ "}") t) as [<-|_].
  - intros c rest Hc. apply substitute_miss, first_match_nonbrace; [done|].
    apply Ascii.eqb_neq. congruence.
Qed.

Lemma get_url_renamed h attrs data nd u d0 :
  NoDup (Dict.keys data) ->
  Dict.get "url" data = Some (VStr u) ->
  pythonize_items h attrs data = Ok nd ->
  Dict.get "url" (Dict.update d0 nd) = Some (VStr (substitute url_rules u)).
Proof.
  revert nd d0. induction data as [|[key v] data IH]; intros nd d0 Hnd; [done|].
  apply NoDup_cons in Hnd as [Hnotin Hnd]. cbn [Dict.get pythonize_items].
  destruct (pythonize_item h attrs key v) as [kv|] eqn:Hitem; [|done].
  cbn [obind].
  destruct (pythonize_items h attrs data) as [nd'|] eqn:Hnd'; [|done].
  cbn [obind]. intros Hget [= <-].
  change (Dict.update d0 (kv :: nd')) with (Dict.update (Dict.set kv.1 kv.2 d0) nd').
  destruct (String.eqb_spec "url" key) as [<-|Hne].
  - injection Hget as ->. unfold pythonize_item in Hitem.
    simpl String.eqb in Hitem. rewrite rename_item_url in Hitem.
    injection Hitem as <-. cbn [fst snd].
    rewrite get_update_notin; [apply get_set_eq|].
    unfold Dict.keys. rewrite (pythonize_items_keys _ _ _ _ Hnd').
    intros (k0 & Hk0 & Hin)%list_elem_of_fmap.
    assert (k0 = "url") as ->; [|done].
    unfold new_key in Hk0. cbn [rename_of rename_keys] in Hk0.
    destruct (String.eqb k0 "maxZoom"); [done|].
    by destruct (String.eqb k0 "minZoom").
  - by apply IH.
Qed.

(** C7.  When the step succeeds on a record whose [url] is the string
    [u], the result has the key [url], and its value is [u] rewritten
    in one pass from left to right: where [{maxZoom}] begins it is
    replaced by [{max_zoom}], where [{minZoom}] begins by [{min_zoom}],
    and everywhere else the character is copied; so every other
    placeholder, [{z}] or [{x}] or [{s}], is left as it is. *)
Theorem url_placeholders_renamed (s : state) (l : loc) (data : pydict) (u : string)
    (r : pyval) (s' : state) :
  st_heap s !! l = Some (ODict data) ->
  NoDup (Dict.keys data) ->
  Dict.get "url" data = Some (VStr u) ->
  pythonize_data (VRef l) s = (Ok r, s') ->
  let pass := substitute [("{maxZoom}", "{max_zoom}"); ("{minZoom}", "{min_zoom}")] in
  (exists l' R,
     r = VRef l' /\
     st_heap s' !! l' = Some (ODict R) /\
     Dict.get "url" R = Some (VStr (pass u))) /\
  pass "" = "" /\
  (forall rest, pass ("{maxZoom}" +:+ rest) = "{max_zoom}" +:+ pass rest) /\
  (forall rest, pass ("{minZoom}" +:+ rest) = "{min_zoom}" +:+ pass rest) /\
  (forall c rest,
     String.prefix "{maxZoom}" (String c rest) = false ->
     String.prefix "{minZoom}" (String c rest) = false ->
     pass (String c rest) = String c (pass rest)) /\
  (forall t rest, is_token t -> t <> "{maxZoom}" -> t <> "{minZoom}" ->
                  pass (t +:+ rest) = t +:+ pass rest).
Proof.
  intros Hl Hnd Hurl Hrun pass.
  change pass with (substitute url_rules).
  destruct url_rules_spec as (Hnil & Hmax & Hmin & Htoken & _).
  split; [|split; [done|split; [done|split; [done|split; [|done]]]]].
  - apply pythonize_data_inv in Hrun
      as (attrs & items & nd & _ & Hitems & Hnd' & -> & ->).
    cbn [dict_items] in Hitems. rewrite Hl in Hitems. injection Hitems as <-.
    exists (length (st_heap s)), (Dict.of_list nd). split; [done|]. split.
    + cbn [st_heap]. rewrite lookup_app_r by done. by rewrite Nat.sub_diag.
    + by eapply get_url_renamed.
  - intros c rest Hc1 Hc2. apply substitute_miss.
    cbn [first_match url_rules rename_keys map fst snd].
    change ("{" +:+ "maxZoom" +:+ "}") with "{maxZoom}".
    change ("{" +:+ "minZoom" +:+ "}") with "{minZoom}".
    by rewrite Hc1, Hc2.
Qed.

Lemma url_placeholders_renamed_witness :
  let pass := substitute [("{maxZoom}", "{max_zoom}"); ("{minZoom}", "{min_zoom}")] in
  (exists l' R,
     VRef 2 = VRef l' /\
     st_heap (pythonize_data (VRef 1) sample_state).2 !! l' = Some (ODict R) /\
     Dict.get "url" R =
       Some (VStr (pass "https://tiles/{variant}/{maxZoom}/{z}/{x}/{y}.png"))) /\
  pass "" = "" /\
  (forall rest, pass ("{maxZoom}" +:+ rest) = "{max_zoom}" +:+ pass rest) /\
  (forall rest, pass ("{minZoom}" +:+ rest) = "{min_zoom}" +:+ pass rest) /\
  (forall c rest,
     String.prefix "{maxZoom}" (String c rest) = false ->
     String.prefix "{minZoom}" (String c rest) = false ->
     pass (String c rest) = String c (pass rest)) /\
  (forall t rest, is_token t -> t <> "{maxZoom}" -> t <> "{minZoom}" ->
                  pass (t +:+ rest) = t +:+ pass rest).
Proof.
  apply (url_placeholders_renamed sample_state 1 sample_record
           "https://tiles/{variant}/{maxZoom}/{z}/{x}/{y}.png").
  - reflexivity.
  - by_evaluation.
  - reflexivity.
  - vm_compute. reflexivity.
Defined.

(** The rewriting at work on the url of the sample record. *)
Lemma url_rewritten_sample :
  substitute [("{maxZoom}", "{max_zoom}"); ("{minZoom}", "{min_zoom}")]
    "https://tiles/{variant}/{maxZoom}/{z}/{x}/{y}.png"
  = "https://tiles/{variant}/{max_zoom}/{z}/{x}/{y}.png".
Proof. reflexivity. Qed.

(** ** Attribution placeholders *)

Section Attribution.

Implicit Types (h : heap) (rules : list (string * string)) (table : pydict).

Lemma token_not_empty k : is_token k -> k <> "".
Proof. by intros [body _]. Qed.

(** An unknown placeholder survives the whole pass, so the loop falls
    off its end. *)
Lemma attribution_loop_unknown h table t value :
  Forall (fun kv => is_token kv.1 /\ exists a, kv.2 = VStr a) table ->
  is_placeholder t -> t ∉ Dict.keys table ->
  str_in t value = true ->
  exists v, attribution_loop h table (VStr value) = Raise (ValueError v).
Proof.
  intros Htab Ht. revert value.
  induction Htab as [|[k a] table [Hk [x Hx]] _ IH]; intros value Hnotin Hin.
  - by eexists.
  - simpl in Hk, Hx. subst a. simpl in Hnotin.
    apply not_elem_of_cons in Hnotin as [Hne Hnotin].
    cbn [attribution_loop py_in obind].
    destruct (str_in k value); [|by apply IH].
    cbn [py_replace py_in obind].
    rewrite replace_substitute by by apply token_not_empty.
    assert (str_in t (substitute [(k, x)] value) = true) as Hin'.
    { apply substitute_keeps_token; try done.
      - by constructor.
      - by apply placeholder_token.
      - simpl. by intros ->%list_elem_of_singleton. }
    rewrite (str_in_weaken _ _ _ (placeholder_prefix _ Ht) Hin'). cbn [negb].
    by apply IH.
Qed.

(** The items in front of the attribution do not raise when the url is
    a string. *)
Lemma rename_item_total h key v :
  (key = "url" -> exists u, v = VStr u) ->
  exists kv, rename_item h key v = Ok kv.
Proof.
  intros Hurl. unfold rename_item.
  destruct (rename_of key rename_keys) as [new|] eqn:Hren; [by eexists|].
  destruct (String.eqb_spec key "url") as [->|Hne]; [|by eexists].
  destruct (Hurl eq_refl) as [u ->].
  pose proof (rename_item_url h u) as Hu. unfold rename_item in Hu.
  rewrite Hren in Hu. simpl String.eqb in Hu. by eexists.
Qed.

Lemma pythonize_items_unknown h attrs table data t value :
  dict_items h attrs = Ok table ->
  Forall (fun kv => is_token kv.1 /\ exists a, kv.2 = VStr a) table ->
  is_placeholder t -> t ∉ Dict.keys table ->
  NoDup (Dict.keys data) ->
  Dict.get "attribution" data = Some (VStr value) ->
  str_in t value = true ->
  (forall v, Dict.get "url" data = Some v -> exists u, v = VStr u) ->
  exists v, pythonize_items h attrs data = Raise (ValueError v).
Proof.
  intros Hattrs Htab Ht Hnotin.
  induction data as [|[key v] data IH]; [done|].
  intros [Hkey Hnd]%NoDup_cons Hget Hin Hurl.
  cbn [pythonize_items Dict.get] in *.
  destruct (String.eqb_spec "attribution" key) as [<-|Hne].
  - injection Hget as ->. unfold pythonize_item. simpl String.eqb.
    cbn [py_in obind].
    rewrite (str_in_weaken _ _ _ (placeholder_prefix _ Ht) Hin).
    rewrite Hattrs. cbn [obind].
    destruct (attribution_loop_unknown h table t value) as [e ->]; try done.
    by eexists.
  - assert (exists kv, pythonize_item h attrs key v = Ok kv) as [kv ->].
    { unfold pythonize_item.
      destruct (String.eqb_spec key "attribution") as [->|_]; [done|].
      apply rename_item_total. intros ->. apply Hurl.
      by destruct (String.eqb_spec "url" "url"). }
    cbn [obind]. destruct IH as [e ->]; try done; [|by eexists].
    intros v0 Hv0. apply Hurl.
    destruct (String.eqb_spec "url" key) as [<-|_]; [|done].
    apply get_Some_elem, elem_keys in Hv0. done.
Qed.

(** The pass over a table with brace-free texts, on a value whose
    braces all start placeholders of the table: every placeholder is
    replaced by its text. *)
Lemma attribution_loop_substitute h rules value :
  Forall (fun r => is_placeholder r.1 /\ lacks lbrace r.2 = true) rules ->
  NoDup (map fst rules) ->
  braces_known (map fst rules) value = true ->
  str_in "{attribution." value = true ->
  attribution_loop h (table_of rules) (VStr value) =
  Ok (VStr (substitute rules value)).
Proof.
  intros Hrules. revert value.
  induction Hrules as [|[k1 x1] rules [Hk1 Hx1] Hrules IH]; intros value Hnd Hbk Hin.
  - apply braces_known_nil in Hbk.
    change "{attribution." with (String lbrace "attribution.") in Hin.
    by rewrite str_in_lacks in Hin.
  - simpl in Hk1, Hx1. simpl in Hnd. apply NoDup_cons in Hnd as [Hnotin Hnd].
    assert (Htok : token_rules rules).
    { eapply Forall_impl; [exact Hrules|]. intros r [? _]. by apply placeholder_token. }
    destruct (substitute_first_text k1 x1 rules value) as [Hseq Hbk'];
      [by apply placeholder_token|done..|].
    assert (Habsent : forall v, str_in "{attribution." v = false ->
                                substitute rules v = v).
    { intros v Hv. apply substitute_absent. intros r Hr.
      apply not_true_is_false. intros Hr'.
      pose proof (proj1 (Forall_forall _ _) Hrules _ Hr) as [Hp _].
      by rewrite (str_in_weaken _ _ _ (placeholder_prefix _ Hp) Hr') in Hv. }
    cbn [table_of map attribution_loop py_in obind fst snd].
    destruct (str_in k1 value) eqn:Hk1in.
    + cbn [py_replace py_in obind].
      rewrite replace_substitute by by apply token_not_empty, placeholder_token.
      destruct (str_in "{attribution." (substitute [(k1, x1)] value)) eqn:Hleft;
        cbn [negb].
      * rewrite <- Hseq. by apply IH.
      * by rewrite <- Hseq, Habsent.
    + assert (substitute [(k1, x1)] value = value) as Hid.
      { apply substitute_absent.
        by intros r [->|[]%elem_of_nil]%elem_of_cons. }
      rewrite Hid in *. rewrite <- Hseq. by apply IH.
Qed.

(** [replace] leaves a string without the pattern as it is. *)
Lemma replace_absent old new s :
  old <> "" -> str_in old s = false -> replace old new s = s.
Proof.
  intros Hne. unfold replace. destruct old as [|c old]; [done|]. clear Hne.
  induction s as [|d s IH]; [done|].
  cbn [str_in replace_from]. intros [Hpre Hin]%orb_false_iff.
  rewrite Hpre. f_equal. by apply IH.
Qed.

Lemma resolve_all_absent rules v :
  Forall (fun r => String.prefix "{attribution." r.1 = true) rules ->
  str_in "{attribution." v = false ->
  resolve_all rules v = v.
Proof.
  intros Hrules Hv. unfold resolve_all.
  induction Hrules as [|[k x] rules Hk _ IH]; [done|].
  cbn [fold_left fst snd]. simpl in Hk.
  rewrite replace_absent; [done|by intros ->|].
  apply not_true_is_false. intros Hin.
  by rewrite (str_in_weaken _ _ _ Hk Hin) in Hv.
Qed.

(** The loop as a single pass: every entry of the table has its turn
    once, in the order of the table, on the value as the entries before
    it left it; what is left after the pass decides between the result
    and the error. *)
Lemma attribution_loop_pass h rules value :
  Forall (fun r => String.prefix "{attribution." r.1 = true) rules ->
  str_in "{attribution." value = true ->
  attribution_loop h (table_of rules) (VStr value) =
  if str_in "{attribution." (resolve_all rules value)
  then Raise (ValueError (VStr (resolve_all rules value)))
  else Ok (VStr (resolve_all rules value)).
Proof.
  intros Hrules. revert value.
  induction Hrules as [|[k x] rules Hk Hrules IH]; intros value Hin.
  - cbn. by rewrite Hin.
  - simpl in Hk.
    change (resolve_all ((k, x) :: rules) value)
      with (resolve_all rules (replace k x value)).
    cbn [table_of map attribution_loop py_in obind fst snd].
    destruct (str_in k value) eqn:Hkin.
    + cbn [py_replace py_in obind].
      destruct (str_in "{attribution." (replace k x value)) eqn:Hleft; cbn [negb].
      * by apply IH.
      * by rewrite resolve_all_absent, Hleft.
    + rewrite replace_absent; [by apply IH|by intros ->|done].
Qed.

End Attribution.

(** C2.  A record whose attribution holds a placeholder [{attribution.X}]
    that the table has no entry for makes the step raise the
    unknown-attribution error; no record is built and the store is as it
    was.  The table entries are placeholder tokens with string texts and
    the url, when the record has one, is a string. *)
Theorem unknown_attribution_raises (s : state) (l : loc) (data : pydict)
    (attrs : pyval) (table : pydict) (name value : string) :
  st_heap s !! l = Some (ODict data) ->
  NoDup (Dict.keys data) ->
  ATTRIBUTIONS s = Some attrs ->
  dict_items (st_heap s) attrs = Ok table ->
  Forall (fun kv => is_token kv.1 /\ exists a, kv.2 = VStr a) table ->
  brace_free name = true ->
  placeholder_of name ∉ Dict.keys table ->
  Dict.get "attribution" data = Some (VStr value) ->
  str_in (placeholder_of name) value = true ->
  (forall v, Dict.get "url" data = Some v -> exists u, v = VStr u) ->
  exists v, pythonize_data (VRef l) s = (Raise (ValueError v), s).
Proof.
  intros Hl Hnd Hattrs Htable Htab Hname Hnotin Hget Hin Hurl.
  rewrite pythonize_data_run, Hattrs. cbn [dict_items]. rewrite Hl.
  destruct (pythonize_items_unknown (st_heap s) attrs table data
              (placeholder_of name) value) as [v ->]; try done.
  by eexists.
Qed.

Lemma unknown_attribution_raises_witness :
  exists v, pythonize_data (VRef 1) unknown_state = (Raise (ValueError v), unknown_state).
Proof.
  apply (unknown_attribution_raises unknown_state 1 unknown_record (VRef 0)
           (table_of sample_rules) "Unknown"
           "{attribution.OpenStreetMap}, {attribution.Unknown}").
  - reflexivity.
  - by_evaluation.
  - reflexivity.
  - reflexivity.
  - repeat (constructor; [split; [|by eexists]|]).
    + by apply (IsToken "attribution.OpenStreetMap").
    + by apply (IsToken "attribution.Esri").
    + by apply (IsToken "attribution.OpenMapSurfer").
    + constructor.
  - reflexivity.
  - by_evaluation.
  - reflexivity.
  - vm_compute. reflexivity.
  - intros v [= <-]. by eexists.
Defined.

(** X13.  Where the single pass is a substitution.  Take a table of
    attribution placeholders whose texts hold no opening brace, and an
    attribution in which every opening brace starts one of these
    placeholders.  Then the step returns the attribution with every
    placeholder replaced by its text and everything else as it was. *)
Theorem attribution_substituted (h : heap) (attrs : pyval)
    (rules : list (string * string)) (value : string) :
  dict_items h attrs = Ok (table_of rules) ->
  Forall (fun r => is_placeholder r.1 /\ lacks lbrace r.2 = true) rules ->
  NoDup (map fst rules) ->
  braces_known (map fst rules) value = true ->
  pythonize_item h attrs "attribution" (VStr value) =
  Ok ("attribution", VStr (substitute rules value)).
Proof.
  intros Hattrs Hrules Hnd Hbk. unfold pythonize_item. simpl String.eqb.
  cbn [py_in obind].
  destruct (str_in "{attribution." value) eqn:Hin.
  - rewrite Hattrs. cbn [obind].
    by rewrite attribution_loop_substitute.
  - unfold rename_item. cbn [rename_of rename_keys]. simpl String.eqb.
    do 3 f_equal. symmetry. apply substitute_absent. intros r Hr.
    apply not_true_is_false. intros Hr'.
    pose proof (proj1 (Forall_forall _ _) Hrules _ Hr) as [Hp _].
    by rewrite (str_in_weaken _ _ _ (placeholder_prefix _ Hp) Hr') in Hin.
Qed.

Lemma attribution_substituted_witness :
  pythonize_item
    [ODict [("{attribution.OpenStreetMap}", VStr osm_attribution)]] (VRef 0)
    "attribution" (VStr "Data by {attribution.OpenStreetMap}") =
  Ok ("attribution", VStr ("Data by " +:+ osm_attribution)).
Proof.
  apply (attribution_substituted
           [ODict [("{attribution.OpenStreetMap}", VStr osm_attribution)]] (VRef 0)
           [("{attribution.OpenStreetMap}", osm_attribution)]
           "Data by {attribution.OpenStreetMap}").
  - reflexivity.
  - constructor; [split|constructor].
    + by apply (IsPlaceholder "OpenStreetMap").
    + reflexivity.
  - by_evaluation.
  - reflexivity.
Defined.

(** X12.  The attribution step, exactly.  With a table whose keys
    start with ["{attribution."], the step makes one [replace] per
    entry, in the order of the table.  If that leaves no
    ["{attribution."] the result is the attribution; otherwise the step
    raises the unknown-attribution error with what is left, also when
    the placeholder left over is a key of the table. *)
Theorem attribution_single_pass (h : heap) (attrs : pyval)
    (rules : list (string * string)) (value : string) :
  dict_items h attrs = Ok (table_of rules) ->
  Forall (fun r => String.prefix "{attribution." r.1 = true) rules ->
  pythonize_item h attrs "attribution" (VStr value) =
  if str_in "{attribution." (resolve_all rules value)
  then Raise (ValueError (VStr (resolve_all rules value)))
  else Ok ("attribution", VStr (resolve_all rules value)).
Proof.
  intros Hattrs Hrules. unfold pythonize_item. simpl String.eqb.
  cbn [py_in obind].
  destruct (str_in "{attribution." value) eqn:Hin.
  - rewrite Hattrs. cbn [obind].
    rewrite attribution_loop_pass by done.
    by destruct (str_in "{attribution." (resolve_all rules value)).
  - rewrite resolve_all_absent, Hin by done. reflexivity.
Qed.

Lemma attribution_single_pass_witness :
  pythonize_item [ODict (table_of sample_rules)] (VRef 0) "attribution"
    (VStr "Tiles {z} by {attribution.OpenStreetMap}") =
  Ok ("attribution", VStr ("Tiles {z} by " +:+ osm_attribution)).
Proof.
  apply (attribution_single_pass [ODict (table_of sample_rules)] (VRef 0)
           sample_rules "Tiles {z} by {attribution.OpenStreetMap}").
  - reflexivity.
  - by_evaluation.
Defined.

(** ** Running the object operations *)

Section Run.

Implicit Types (h : heap) (a : option pyval) (d e : pydict) (k : string).

Lemma lookup_snoc h (o : pyobj) : (h ++ [o]) !! length h = Some o.
Proof. rewrite lookup_app_r by done. by rewrite Nat.sub_diag. Qed.

Lemma insert_snoc h (o o' : pyobj) : <[length h := o']> (h ++ [o]) = h ++ [o'].
Proof. rewrite insert_app_r_alt by done. by rewrite Nat.sub_diag. Qed.

Lemma getitem_run h a l d k :
  h !! l = Some (ODict d) ->
  getitem (VRef l) k (State h a) =
  (match Dict.get k d with Some x => Ok x | None => Raise (KeyError k) end,
   State h a).
Proof. intros Hl. unfold getitem, reading. cbn [st_heap]. by rewrite Hl. Qed.

Lemma copy_run h a l o :
  h !! l = Some o ->
  copy (VRef l) (State h a) = (Ok (VRef (length h)), State (h ++ [o]) a).
Proof. intros Hl. unfold copy. cbn [st_heap]. by rewrite Hl. Qed.

Lemma pop_default_run h a l d k default :
  h !! l = Some (ODict d) ->
  pop_default (VRef l) k default (State h a) =
  match Dict.get k d with
  | Some x => (Ok x, State (<[l := ODict (Dict.del k d)]> h) a)
  | None => (Ok default, State h a)
  end.
Proof.
  intros Hl. unfold pop_default. cbn [st_heap]. rewrite Hl.
  by destruct (Dict.get k d).
Qed.

Lemma pop_run h a l d k :
  h !! l = Some (ODict d) ->
  pop (VRef l) k (State h a) =
  match Dict.get k d with
  | Some x => (Ok x, State (<[l := ODict (Dict.del k d)]> h) a)
  | None => (Raise (KeyError k), State h a)
  end.
Proof.
  intros Hl. unfold pop. cbn [st_heap]. rewrite Hl.
  by destruct (Dict.get k d).
Qed.

Lemma merge_run h a l1 l2 d e :
  h !! l1 = Some (ODict d) -> h !! l2 = Some (ODict e) ->
  merge (VRef l1) (VRef l2) (State h a) =
  (Ok (VRef (length h)), State (h ++ [ODict (Dict.update d e)]) a).
Proof. intros H1 H2. unfold merge. cbn [st_heap]. by rewrite H1, H2. Qed.

Lemma setitem_run h a l d k x :
  h !! l = Some (ODict d) ->
  setitem (VRef l) k x (State h a) =
  (Ok tt, State (<[l := ODict (Dict.set k x d)]> h) a).
Proof. intros Hl. unfold setitem. cbn [st_heap]. by rewrite Hl. Qed.

Lemma new_dict_run h a d :
  new_dict d (State h a) = (Ok (VRef (length h)), State (h ++ [ODict d]) a).
Proof. done. Qed.

Lemma iter_keys_run h a l d :
  h !! l = Some (ODict d) ->
  iter_keys (VRef l) (State h a) = (Ok (Dict.keys d), State h a).
Proof. intros Hl. unfold iter_keys, reading. cbn [st_heap]. by rewrite Hl. Qed.

Lemma bind_run {A B} (m : M A) (f : A -> M B) s x s1 :
  m s = (Ok x, s1) -> bind m f s = f x s1.
Proof. intros Hm. unfold bind. by rewrite Hm. Qed.

Lemma bind_raise {A B} (m : M A) (f : A -> M B) s (ex : exn) s1 :
  m s = (Raise ex, s1) -> bind m f s = (Raise ex, s1).
Proof. intros Hm. unfold bind. by rewrite Hm. Qed.

Lemma bind_inv {A B} (m : M A) (f : A -> M B) s y s' :
  bind m f s = (Ok y, s') -> exists x s1, m s = (Ok x, s1) /\ f x s1 = (Ok y, s').
Proof.
  unfold bind. destruct (m s) as [[x|ex] s1]; [|done]. intros. by exists x, s1.
Qed.

End Run.

(** ** Providers without variants *)

Section Plain.

Implicit Types (h : heap) (a : option pyval) (d e D P O : pydict) (k name : string).

Lemma del_absent k d : Dict.get k d = None -> Dict.del k d = d.
Proof.
  induction d as [|[k' v'] d IH]; simpl; [done|].
  destruct (String.eqb_spec k k'); [done|]. intros. by rewrite IH.
Qed.

Lemma keys_del_subseteq k0 k d : k0 ∈ Dict.keys (Dict.del k d) -> k0 ∈ Dict.keys d.
Proof.
  induction d as [|[k' v'] d IH]; simpl; [done|].
  destruct (String.eqb_spec k k').
  - intros. right. by apply IH.
  - intros [->|?]%elem_of_cons; [by left|]. right. by apply IH.
Qed.

Lemma NoDup_keys_del k d : NoDup (Dict.keys d) -> NoDup (Dict.keys (Dict.del k d)).
Proof.
  induction d as [|[k' v'] d IH]; simpl; [done|].
  intros [Hnotin Hnd]%NoDup_cons. destruct (String.eqb_spec k k'); [by apply IH|].
  simpl. apply NoDup_cons. split; [|by apply IH].
  intros Hin. by apply Hnotin, (keys_del_subseteq _ k).
Qed.

(** The run of [process_provider] up to the renaming step, for an entry
    without variants (the key is absent or holds [None]). *)
Lemma process_provider_plain h a dl D name p P o O :
  h !! dl = Some (ODict D) ->
  Dict.get name D = Some (VRef p) ->
  h !! p = Some (ODict P) ->
  Dict.get "variants" P = None \/ Dict.get "variants" P = Some VNone ->
  Dict.get "options" P = Some (VRef o) ->
  h !! o = Some (ODict O) ->
  let fields := Dict.del "options" (Dict.del "variants" P) in
  let merged := Dict.set "name" (VStr name) (Dict.update fields O) in
  process_provider (VRef dl) name (State h a) =
  pythonize_data (VRef (length (h ++ [ODict fields])))
    (State ((h ++ [ODict fields]) ++ [ODict merged]) a).
Proof.
  intros Hdl Hname Hp Hvar Hopt Ho fields merged. unfold process_provider.
  rewrite (bind_run _ _ _ (VRef p) (State h a))
    by (rewrite (getitem_run _ _ _ D) by done; by rewrite Hname).
  rewrite (bind_run _ _ _ _ _ (copy_run h a p _ Hp)).
  rewrite (bind_run _ _ _ VNone (State (h ++ [ODict (Dict.del "variants" P)]) a)).
  2:{ rewrite (pop_default_run _ _ _ P) by apply lookup_snoc.
      destruct Hvar as [Hvar|Hvar]; rewrite Hvar.
      - by rewrite del_absent.
      - by rewrite insert_snoc. }
  rewrite (bind_run _ _ _ (VRef o) (State (h ++ [ODict fields]) a)).
  2:{ rewrite (pop_run _ _ _ (Dict.del "variants" P)) by apply lookup_snoc.
      rewrite get_del_ne by done. rewrite Hopt. by rewrite insert_snoc. }
  rewrite (bind_run _ _ _ _ _
    (merge_run _ a (length h) o fields O (lookup_snoc _ _)
       (lookup_app_l_Some _ _ _ _ Ho))).
  cbn iota.
  rewrite (bind_run _ _ _ tt (State ((h ++ [ODict fields]) ++ [ODict merged]) a)).
  2:{ rewrite (setitem_run _ _ _ (Dict.update fields O)) by apply lookup_snoc.
      by rewrite insert_snoc. }
  done.
Qed.

Lemma new_key_inv k0 k :
  new_key k0 = k -> k <> "max_zoom" -> k <> "min_zoom" -> k0 = k.
Proof.
  unfold new_key. cbn [rename_of rename_keys].
  destruct (String.eqb k0 "maxZoom"); [by intros <-|].
  destruct (String.eqb k0 "minZoom"); [by intros <-|done].
Qed.

(** A key that renaming does not produce is in the record only if it
    was in the mapping. *)
Lemma get_renamed_None h attrs d nd k :
  pythonize_items h attrs d = Ok nd ->
  k <> "max_zoom" -> k <> "min_zoom" ->
  Dict.get k d = None -> Dict.get k (Dict.of_list nd) = None.
Proof.
  intros Hnd Hmax Hmin Hget. apply get_None_keys.
  intros (kv & -> & Hkv)%list_elem_of_fmap.
  apply elem_of_update in Hkv as [[]%elem_of_nil|Hkv].
  assert (kv.1 ∈ map fst nd) as Hin by (apply list_elem_of_fmap; by exists kv).
  rewrite (pythonize_items_keys _ _ _ _ Hnd) in Hin.
  apply list_elem_of_fmap in Hin as (k0 & Hk0 & Hin).
  symmetry in Hk0. apply new_key_inv in Hk0; [|done..]. subst k0.
  by apply get_None_keys in Hget.
Qed.

(** The [name] of a mapping is the [name] of its record. *)
Lemma get_name_kept h attrs d nd v d0 :
  NoDup (Dict.keys d) ->
  Dict.get "name" d = Some v ->
  pythonize_items h attrs d = Ok nd ->
  Dict.get "name" (Dict.update d0 nd) = Some v.
Proof.
  revert nd d0. induction d as [|[key v'] d IH]; intros nd d0 Hnd; [done|].
  apply NoDup_cons in Hnd as [Hnotin Hnd]. cbn [Dict.get pythonize_items].
  destruct (pythonize_item h attrs key v') as [kv|] eqn:Hitem; [|done].
  cbn [obind].
  destruct (pythonize_items h attrs d) as [nd'|] eqn:Hnd'; [|done].
  cbn [obind]. intros Hget [= <-].
  change (Dict.update d0 (kv :: nd')) with (Dict.update (Dict.set kv.1 kv.2 d0) nd').
  destruct (String.eqb_spec "name" key) as [<-|Hne].
  - injection Hget as ->. unfold pythonize_item, rename_item in Hitem.
    cbn [rename_of rename_keys] in Hitem. simpl String.eqb in Hitem.
    injection Hitem as <-. cbn [fst snd].
    rewrite get_update_notin; [apply get_set_eq|].
    unfold Dict.keys. rewrite (pythonize_items_keys _ _ _ _ Hnd').
    intros (k0 & Hk0 & Hin)%list_elem_of_fmap.
    symmetry in Hk0. apply new_key_inv in Hk0; [|done..]. by subst k0.
  - by apply IH.
Qed.

(** An attribution that made it into a record is resolved. *)
Lemma attribution_in_record_resolved h attrs d nd x :
  pythonize_items h attrs d = Ok nd ->
  Dict.get "attribution" (Dict.of_list nd) = Some (VStr x) ->
  str_in "{attribution." x = false.
Proof.
  intros Hnd Hget. apply get_Some_elem in Hget.
  apply elem_of_update in Hget as [[]%elem_of_nil|Hin].
  pose proof (pythonize_items_outputs _ _ _ _ Hnd) as Hout.
  eapply Forall_forall in Hout; [|done]. cbn [fst snd] in Hout.
  unfold pythonize_item in Hout. simpl String.eqb in Hout.
  cbn [py_in obind] in Hout.
  destruct (str_in "{attribution." x) eqn:Hx; [|done]. exfalso.
  destruct (dict_items h attrs) as [table|]; [|done]. cbn [obind] in Hout.
  destruct (attribution_loop h table (VStr x)) as [v'|] eqn:Hloop; [|done].
  injection Hout as ->. apply attribution_loop_resolved in Hloop.
  cbn [py_in] in Hloop. congruence.
Qed.

End Plain.

(** C5 (as amended).  For an entry without [variants]: the mapping that
    is renamed is the entry's fields other than [options], updated with
    the [options] mapping (so [options] wins) and with [name] set to
    the provider's name.  If renaming it succeeds, [process_provider]
    returns a new record with the resulting items, whose [name] is the
    provider's name and which has a [variants] or [options] key only if
    the [options] mapping has one; if renaming raises, so does
    [process_provider]. *)
Theorem provider_without_variants (s : state) (dl p o : loc)
    (D P O : pydict) (name : string) (attrs : pyval) :
  st_heap s !! dl = Some (ODict D) ->
  Dict.get name D = Some (VRef p) ->
  st_heap s !! p = Some (ODict P) ->
  NoDup (Dict.keys P) ->
  Dict.get "variants" P = None ->
  Dict.get "options" P = Some (VRef o) ->
  st_heap s !! o = Some (ODict O) ->
  NoDup (Dict.keys O) ->
  ATTRIBUTIONS s = Some attrs ->
  let fields := Dict.del "options" P in
  let merged := Dict.set "name" (VStr name) (Dict.update fields O) in
  (forall k, k <> "name" ->
     Dict.get k merged =
     match Dict.get k O with Some v => Some v | None => Dict.get k fields end) /\
  exists hi, st_heap s `prefix_of` hi /\
    match pythonize_items hi attrs merged with
    | Ok nd =>
        exists l s',
          process_provider (VRef dl) name s = (Ok (VRef l), s') /\
          st_heap s !! l = None /\
          st_heap s' !! l = Some (ODict (Dict.of_list nd)) /\
          Dict.get "name" (Dict.of_list nd) = Some (VStr name) /\
          (Dict.get "variants" O = None ->
           Dict.get "variants" (Dict.of_list nd) = None) /\
          (Dict.get "options" O = None ->
           Dict.get "options" (Dict.of_list nd) = None)
    | Raise e => exists s', process_provider (VRef dl) name s = (Raise e, s')
    end.
Proof.
  intros Hdl Hname Hp HndP Hvar Hopt Ho HndO Hattrs fields merged.
  assert (Hmerged : forall k, k <> "name" ->
     Dict.get k merged =
     match Dict.get k O with Some v => Some v | None => Dict.get k fields end).
  { intros k Hk. unfold merged. rewrite get_set_ne by done. by apply get_update. }
  split; [done|].
  destruct s as [h a]. cbn [st_heap ATTRIBUTIONS] in *. subst a.
  exists ((h ++ [ODict fields]) ++ [ODict merged]). split.
  { rewrite <- app_assoc. by apply prefix_app_r. }
  rewrite (process_provider_plain h _ dl D name p P o O) by auto.
  rewrite (del_absent "variants" P) by done. fold fields. fold merged.
  rewrite pythonize_data_run. cbn [st_heap ATTRIBUTIONS dict_items].
  rewrite lookup_snoc.
  destruct (pythonize_items _ attrs merged) as [nd|e] eqn:Hnd; [|by eexists].
  eexists _, _. split; [done|]. cbn [st_heap].
  split. { apply lookup_ge_None_2. rewrite !length_app. simpl. lia. }
  split; [apply lookup_snoc|].
  assert (NoDup (Dict.keys merged)) as HndM.
  { by apply NoDup_keys_set, NoDup_keys_update, NoDup_keys_del. }
  split; [|split].
  - eapply get_name_kept; [done| |done]. apply get_set_eq.
  - intros HO. eapply get_renamed_None; [done..|].
    rewrite Hmerged, HO by done. unfold fields. by rewrite get_del_ne.
  - intros HO. eapply get_renamed_None; [done..|].
    rewrite Hmerged, HO by done. apply get_del_eq.
Qed.

Lemma provider_without_variants_witness :
  let fields := Dict.del "options" osm_entry in
  let merged := Dict.set "name" (VStr "OpenStreetMap") (Dict.update fields osm_options) in
  (forall k, k <> "name" ->
     Dict.get k merged =
     match Dict.get k osm_options with
     | Some v => Some v
     | None => Dict.get k fields
     end) /\
  exists hi, st_heap osm_state `prefix_of` hi /\
    match pythonize_items hi (VRef 3) merged with
    | Ok nd =>
        exists l s',
          process_provider (VRef 2) "OpenStreetMap" osm_state = (Ok (VRef l), s') /\
          st_heap osm_state !! l = None /\
          st_heap s' !! l = Some (ODict (Dict.of_list nd)) /\
          Dict.get "name" (Dict.of_list nd) = Some (VStr "OpenStreetMap") /\
          (Dict.get "variants" osm_options = None ->
           Dict.get "variants" (Dict.of_list nd) = None) /\
          (Dict.get "options" osm_options = None ->
           Dict.get "options" (Dict.of_list nd) = None)
    | Raise e =>
        exists s', process_provider (VRef 2) "OpenStreetMap" osm_state = (Raise e, s')
    end.
Proof.
  apply (provider_without_variants osm_state 2 1 0 osm_catalog osm_entry
           osm_options "OpenStreetMap" (VRef 3)).
  - reflexivity.
  - reflexivity.
  - reflexivity.
  - by_evaluation.
  - reflexivity.
  - reflexivity.
  - reflexivity.
  - by_evaluation.
  - reflexivity.
Defined.

(** C5, as stated, fails: the record of a provider whose [options]
    mapping has a key [options] has that key. *)
Lemma provider_without_variants_counterexample :
  normalize_provider [] leftover_catalog "Base" =
  Ok (Some (JObj [("url", JStr "https://base/{z}/{x}/{y}.png");
                  ("options", JInt 1);
                  ("name", JStr "Base")])).
Proof. vm_compute. reflexivity. Qed.

(** ** The one-provider catalog *)

(** C1, as stated, fails: [process_data] reads the attributions of
    Esri and OpenMapSurfer before it looks at any provider, and the
    one-provider catalog has neither. *)
Lemma osm_only_counterexample : normalize osm_only = Raise (KeyError "Esri").
Proof. vm_compute. reflexivity. Qed.

(** C3.  The attribution is resolved in a single pass over the table,
    not until no placeholder is left.  In the catalog below the text of
    OpenMapSurfer itself refers to OpenStreetMap, and a variant refers
    to OpenMapSurfer: every placeholder is in the table, but the turn
    of OpenStreetMap is over when the text of OpenMapSurfer comes in,
    and the step raises the unknown-attribution error with the
    half-resolved text; so does the normalization of the catalog.  The
    specification's own example is resolved as it says. *)
Theorem nested_attribution_raises :
  pythonize_item
    [ODict [("{attribution.OpenStreetMap}", VStr osm_attribution);
            ("{attribution.Esri}", VStr "Tiles by Esri");
            ("{attribution.OpenMapSurfer}", VStr nested_attribution)]]
    (VRef 0) "attribution" (VStr "{attribution.OpenMapSurfer}") =
  Raise (ValueError (VStr nested_attribution)) /\
  normalize nested_catalog = Raise (ValueError (VStr nested_attribution)) /\
  pythonize_item
    [ODict [("{attribution.OpenStreetMap}", VStr osm_attribution)]] (VRef 0)
    "attribution" (VStr "Data by {attribution.OpenStreetMap}") =
  Ok ("attribution", VStr ("Data by " +:+ osm_attribution)).
Proof. repeat split; vm_compute; reflexivity. Qed.

(** C8, as stated, fails: nothing checks for a [url]; the record of a
    provider without one has none. *)
Lemma records_wellformed_counterexample :
  normalize no_url_catalog =
  Ok (Some (JObj [("OpenStreetMap",
                   JObj [("attribution", JStr osm_attribution);
                         ("name", JStr "OpenStreetMap")]);
                  ("Esri",
                   JObj [("url", JStr "https://esri/{z}/{y}/{x}");
                         ("attribution", JStr "Tiles by Esri");
                         ("name", JStr "Esri")]);
                  ("OpenMapSurfer",
                   JObj [("url", JStr "https://oms/{z}/{x}/{y}.png");
                         ("attribution", JStr "Imagery from GIScience");
                         ("name", JStr "OpenMapSurfer")])])).
Proof. vm_compute. reflexivity. Qed.

(** ** The invariant of a run *)

Section Invariant.

Variable a : option pyval.

Lemma maintains_ret {A} (x : A) : maintains a (ret x).
Proof. by intros s Hs. Qed.

Lemma maintains_raise {A} e : maintains a (@raise A e).
Proof. by intros s Hs. Qed.

Lemma maintains_reading {A} (f : heap -> outcome A) : maintains a (reading f).
Proof. by intros s Hs. Qed.

Lemma maintains_bind {A B} (m : M A) (k : A -> M B) :
  maintains a m -> (forall x, maintains a (k x)) -> maintains a (bind m k).
Proof.
  intros Hm Hk s Hs. unfold bind. specialize (Hm s Hs).
  destruct (m s) as [[x|e] s1]; simpl in *; [by apply Hk|done].
Qed.

Lemma maintains_for_each {A} (xs : list A) (body : A -> M unit) :
  (forall x, maintains a (body x)) -> maintains a (for_each xs body).
Proof.
  intros Hbody. induction xs as [|x xs IH]; simpl.
  - apply maintains_ret.
  - apply maintains_bind; auto.
Qed.

Lemma good_alloc_dict s d :
  good a s -> NoDup (Dict.keys d) -> good a (alloc (ODict d) s).2.
Proof.
  intros [Hu Ha] Hd. split; [|done]. intros l d' Hl. cbn [alloc snd st_heap] in Hl.
  apply lookup_app_Some in Hl as [Hl|[_ Hl]]; [by eapply Hu|].
  apply list_lookup_singleton_Some in Hl as [_ [= <-]]. done.
Qed.

Lemma good_alloc_obj s l o :
  good a s -> st_heap s !! l = Some o -> good a (alloc o s).2.
Proof.
  intros [Hu Ha] Ho. split; [|done]. intros l' d' Hl. cbn [alloc snd st_heap] in Hl.
  apply lookup_app_Some in Hl as [Hl|[_ Hl]]; [by eapply Hu|].
  apply list_lookup_singleton_Some in Hl as [_ ->]. by eapply Hu.
Qed.

Lemma good_store s l d :
  good a s -> NoDup (Dict.keys d) -> good a (store l (ODict d) s).2.
Proof.
  intros [Hu Ha] Hd. split; [|done]. intros l' d' Hl. cbn [store snd st_heap] in Hl.
  destruct (decide (l = l')) as [<-|Hne].
  - destruct (decide (l < length (st_heap s))) as [Hlt|Hge].
    + rewrite list_lookup_insert_eq in Hl by done. by injection Hl as <-.
    + rewrite list_insert_ge in Hl by lia. by eapply Hu.
  - rewrite list_lookup_insert_ne in Hl by done. by eapply Hu.
Qed.

Lemma maintains_new_dict d : NoDup (Dict.keys d) -> maintains a (new_dict d).
Proof. intros Hd s Hs. by apply good_alloc_dict. Qed.

Lemma maintains_copy v : maintains a (copy v).
Proof.
  intros s Hs. unfold copy. destruct v; try done.
  destruct (st_heap s !! l) as [o|] eqn:Hl; [|done]. by eapply good_alloc_obj.
Qed.

Lemma maintains_pop_default v k default : maintains a (pop_default v k default).
Proof.
  intros s Hs. unfold pop_default. destruct v; try done.
  destruct (st_heap s !! l) as [[d|?]|] eqn:Hl; try done.
  destruct (Dict.get k d); [|done].
  unfold bind. cbn [store ret snd fst].
  apply (good_store s). 1: done. apply NoDup_keys_del. by eapply (proj1 Hs).
Qed.

Lemma maintains_pop v k : maintains a (pop v k).
Proof.
  intros s Hs. unfold pop. destruct v; try done.
  destruct (st_heap s !! l) as [[d|?]|] eqn:Hl; try done.
  destruct (Dict.get k d); [|done].
  unfold bind. cbn [store ret snd fst].
  apply (good_store s). 1: done. apply NoDup_keys_del. by eapply (proj1 Hs).
Qed.

Lemma maintains_merge x y : maintains a (merge x y).
Proof.
  intros s Hs. unfold merge. destruct x, y; try done.
  destruct (st_heap s !! l) as [[d|?]|] eqn:Hl,
           (st_heap s !! l0) as [[e|?]|] eqn:Hl0; try done.
  apply good_alloc_dict; [done|]. apply NoDup_keys_update. by eapply (proj1 Hs).
Qed.

Lemma maintains_setitem v k x : maintains a (setitem v k x).
Proof.
  intros s Hs. unfold setitem. destruct v; try done.
  destruct (st_heap s !! l) as [[d|?]|] eqn:Hl; try done.
  apply good_store; [done|]. apply NoDup_keys_set. by eapply (proj1 Hs).
Qed.

Lemma maintains_pythonize_data data : maintains a (pythonize_data data).
Proof.
  unfold pythonize_data.
  apply maintains_bind.
  { intros s Hs. unfold get_ATTRIBUTIONS. by destruct (ATTRIBUTIONS s). }
  intros attrs.
  apply maintains_bind; [apply maintains_reading|intros items].
  apply maintains_bind; [apply maintains_reading|intros nd].
  apply maintains_new_dict, NoDup_keys_of_list.
Qed.

Lemma maintains_variant_keys_of var : maintains a (variant_keys_of var).
Proof.
  assert (Hgen : maintains a
    (variant_keys <- copy var ;;
     empty <- new_dict [] ;;
     variant_options <- pop_default variant_keys "options" empty ;;
     merge variant_keys variant_options)).
  { apply maintains_bind; [apply maintains_copy|intros vk].
    apply maintains_bind; [apply maintains_new_dict; constructor|intros em].
    apply maintains_bind; [apply maintains_pop_default|intros vo].
    apply maintains_merge. }
  destruct var; try exact Hgen.
  apply maintains_new_dict. apply NoDup_singleton.
Qed.

Lemma maintains_process_variant name variants provider_keys result variant :
  maintains a (process_variant name variants provider_keys result variant).
Proof.
  unfold process_variant.
  apply maintains_bind; [apply maintains_reading|intros var].
  apply maintains_bind; [apply maintains_variant_keys_of|intros vk].
  apply maintains_bind; [apply maintains_merge|intros vk'].
  apply maintains_bind; [apply maintains_setitem|intros _].
  apply maintains_bind; [apply maintains_pythonize_data|intros rec].
  apply maintains_setitem.
Qed.

Lemma maintains_process_provider data name : maintains a (process_provider data name).
Proof.
  unfold process_provider.
  apply maintains_bind; [apply maintains_reading|intros entry].
  apply maintains_bind; [apply maintains_copy|intros provider].
  apply maintains_bind; [apply maintains_pop_default|intros variants].
  apply maintains_bind; [apply maintains_pop|intros options].
  apply maintains_bind; [apply maintains_merge|intros pk].
  assert (Hvar : maintains a
    (result <- new_dict [] ;;
     keys <- iter_keys variants ;;
     for_each keys (process_variant name variants pk result) ;;;
     ret result)).
  { apply maintains_bind; [apply maintains_new_dict; constructor|intros result].
    apply maintains_bind; [apply maintains_reading|intros keys].
    apply maintains_bind; [|intros; apply maintains_ret].
    apply maintains_for_each. intros. apply maintains_process_variant. }
  destruct variants; try exact Hvar.
  apply maintains_bind; [apply maintains_setitem|intros _].
  apply maintains_pythonize_data.
Qed.

End Invariant.

(** ** What a successful operation tells *)

Section Inversion.

Implicit Types (h : heap) (a : option pyval) (d e : pydict) (k : string).

Lemma getitem_inv v k h a x s' :
  getitem v k (State h a) = (Ok x, s') ->
  s' = State h a /\
  exists l d, v = VRef l /\ h !! l = Some (ODict d) /\ Dict.get k d = Some x.
Proof.
  unfold getitem, reading. cbn [st_heap]. destruct v; try done.
  destruct (h !! l) as [[d|?]|] eqn:Hl; try done.
  destruct (Dict.get k d) as [y|] eqn:Hk; [|done].
  intros [= <- <-]. split; [done|]. by exists l, d.
Qed.

Lemma copy_inv v h a r s' :
  copy v (State h a) = (Ok r, s') ->
  exists l o, v = VRef l /\ h !! l = Some o /\
              r = VRef (length h) /\ s' = State (h ++ [o]) a.
Proof.
  unfold copy. cbn [st_heap]. destruct v; try done.
  destruct (h !! l) as [o|] eqn:Hl; [|done].
  intros [= <- <-]. by exists l, o.
Qed.

Lemma pop_default_inv l k default h a x s' :
  pop_default (VRef l) k default (State h a) = (Ok x, s') ->
  exists d, h !! l = Some (ODict d) /\
    ((Dict.get k d = Some x /\ s' = State (<[l := ODict (Dict.del k d)]> h) a) \/
     (Dict.get k d = None /\ x = default /\ s' = State h a)).
Proof.
  unfold pop_default. cbn [st_heap].
  destruct (h !! l) as [[d|?]|] eqn:Hl; try done.
  destruct (Dict.get k d) as [y|] eqn:Hk.
  - intros [= <- <-]. exists d. split; [done|]. by left.
  - intros [= <- <-]. exists d. split; [done|]. by right.
Qed.

Lemma pop_inv l k h a x s' :
  pop (VRef l) k (State h a) = (Ok x, s') ->
  exists d, h !! l = Some (ODict d) /\ Dict.get k d = Some x /\
            s' = State (<[l := ODict (Dict.del k d)]> h) a.
Proof.
  unfold pop. cbn [st_heap].
  destruct (h !! l) as [[d|?]|] eqn:Hl; try done.
  destruct (Dict.get k d) as [y|] eqn:Hk; [|done].
  intros [= <- <-]. by exists d.
Qed.

Lemma merge_inv x y h a r s' :
  merge x y (State h a) = (Ok r, s') ->
  exists l1 l2 d e,
    x = VRef l1 /\ y = VRef l2 /\
    h !! l1 = Some (ODict d) /\ h !! l2 = Some (ODict e) /\
    r = VRef (length h) /\ s' = State (h ++ [ODict (Dict.update d e)]) a.
Proof.
  unfold merge. cbn [st_heap]. destruct x, y; try done.
  destruct (h !! l) as [[d|?]|] eqn:Hl, (h !! l0) as [[e|?]|] eqn:Hl0; try done.
  intros [= <- <-]. by exists l, l0, d, e.
Qed.

Lemma setitem_inv l k x h a s' :
  setitem (VRef l) k x (State h a) = (Ok tt, s') ->
  exists d, h !! l = Some (ODict d) /\
            s' = State (<[l := ODict (Dict.set k x d)]> h) a.
Proof.
  unfold setitem. cbn [st_heap].
  destruct (h !! l) as [[d|?]|] eqn:Hl; try done.
  intros [= <-]. by exists d.
Qed.

Lemma iter_keys_inv v h a ks s' :
  iter_keys v (State h a) = (Ok ks, s') ->
  s' = State h a /\
  ((exists l d, v = VRef l /\ h !! l = Some (ODict d) /\ ks = Dict.keys d) \/
   ks = []).
Proof.
  unfold iter_keys, reading. cbn [st_heap]. destruct v; try done.
  - destruct s; [|done]. intros [= <- <-]. split; [done|]. by right.
  - destruct (h !! l) as [[d|[|? ?]]|] eqn:Hl; try done.
    + intros [= <- <-]. split; [done|]. left. by exists l, d.
    + intros [= <- <-]. split; [done|]. by right.
Qed.

Lemma variant_keys_of_attrs var h a :
  ATTRIBUTIONS (variant_keys_of var (State h a)).2 = a.
Proof.
  unfold variant_keys_of. destruct var; try done.
  unfold bind, copy. cbn [st_heap].
  destruct (h !! l) as [o|]; [|done]. cbn [alloc new_dict st_heap ATTRIBUTIONS].
  unfold pop_default. cbn [st_heap].
  destruct (_ !! length h) as [[d|?]|]; try done.
  destruct (Dict.get "options" d) as [x|].
  - unfold bind, store, ret. cbn [st_heap ATTRIBUTIONS].
    unfold merge. cbn [st_heap]. destruct x; try done.
    by repeat case_match.
  - unfold merge. cbn [st_heap]. by repeat case_match.
Qed.

(** The state after a successful [variant_keys_of]. *)
Lemma variant_keys_of_inv var h a r s1 :
  variant_keys_of var (State h a) = (Ok r, s1) ->
  exists h1, s1 = State h1 a /\ h `prefix_of` h1.
Proof.
  intros Hrun.
  destruct (keeps_variant_keys_of h var (State h a)) as [Hpre _]; [done|].
  pose proof (variant_keys_of_attrs var h a) as Ha.
  rewrite Hrun in Hpre, Ha. destruct s1 as [h1 a1]. simpl in *. subst a1.
  by exists h1.
Qed.

End Inversion.

(** ** Providers with variants *)

Section Variants.

Implicit Types (h : heap) (d e G PK V : pydict) (k name variant : string).

(** A successful round of the loop over the variants: the variant's
    mapping is merged over [provider_keys], named, renamed, and the
    new record is entered in [result]. *)
Lemma process_variant_inv name variants pk PK res G variant h attrs s' :
  h !! pk = Some (ODict PK) ->
  h !! res = Some (ODict G) ->
  process_variant name variants (VRef pk) (VRef res) variant (State h (Some attrs))
    = (Ok tt, s') ->
  exists var h1 lvk vk nd,
    getitem variants variant (State h (Some attrs)) = (Ok var, State h (Some attrs)) /\
    variant_keys_of var (State h (Some attrs))
      = (Ok (VRef lvk), State h1 (Some attrs)) /\
    h `prefix_of` h1 /\
    h1 !! lvk = Some (ODict vk) /\
    let merged := Dict.set "name" (VStr (name +:+ "." +:+ variant)) (Dict.update PK vk) in
    let hm := h1 ++ [ODict merged] in
    pythonize_items hm attrs merged = Ok nd /\
    s' = State (<[res := ODict (Dict.set variant (VRef (length hm)) G)]>
                  (hm ++ [ODict (Dict.of_list nd)]))
               (Some attrs).
Proof.
  intros Hpk Hres Hrun. unfold process_variant in Hrun.
  apply bind_inv in Hrun as (var & s0 & Hget & Hrun).
  pose proof (getitem_inv _ _ _ _ _ _ Hget) as [-> _].
  apply bind_inv in Hrun as (vkv & s1 & Hvk & Hrun).
  destruct (variant_keys_of_inv _ _ _ _ _ Hvk) as (h1 & -> & Hpre).
  apply bind_inv in Hrun as (mv & s2 & Hmerge & Hrun).
  apply merge_inv in Hmerge as (l1 & lvk & d & vk & [= <-] & -> & Hl1 & Hlvk & -> & ->).
  rewrite (prefix_lookup_Some _ _ _ _ Hpk Hpre) in Hl1. injection Hl1 as <-.
  apply bind_inv in Hrun as ([] & s3 & Hset & Hrun).
  apply setitem_inv in Hset as (d & Hd & ->).
  rewrite lookup_snoc in Hd. injection Hd as <-. rewrite insert_snoc in Hrun.
  apply bind_inv in Hrun as (rec & s4 & Hpy & Hrun).
  apply pythonize_data_inv in Hpy as (attrs0 & items & nd & Ha & Hitems & Hnd & -> & ->).
  cbn [st_heap ATTRIBUTIONS dict_items] in *. injection Ha as <-.
  rewrite lookup_snoc in Hitems. injection Hitems as <-.
  apply setitem_inv in Hrun as (d & Hd & ->).
  assert ((h1 ++ [ODict (Dict.set "name" (VStr (name +:+ "." +:+ variant))
                          (Dict.update PK vk))]) !! res = Some (ODict G)) as Hres1.
  { apply lookup_app_l_Some. by eapply prefix_lookup_Some. }
  rewrite (lookup_app_l_Some _ _ _ _ Hres1) in Hd. injection Hd as <-.
  by exists var, h1, lvk, vk, nd.
Qed.

Lemma prefix_insert_ge (hp h : heap) l o :
  hp `prefix_of` h -> length hp <= l -> hp `prefix_of` <[l := o]> h.
Proof.
  intros [k ->] Hl. exists (<[l - length hp := o]> k).
  by rewrite insert_app_r_alt.
Qed.

(** The loop over the variants.  [hp] is the store before [result] was
    created; it is never touched.  Every key of the loop gets a record
    in [result], under that key. *)
Lemma variants_loop name variants pk PK res attrs (hp : heap) :
  hp !! pk = Some (ODict PK) ->
  length hp <= res ->
  forall ks h G s',
    hp `prefix_of` h ->
    h !! res = Some (ODict G) ->
    NoDup ks ->
    (forall k, k ∈ ks -> k ∉ Dict.keys G) ->
    for_each ks (process_variant name variants (VRef pk) (VRef res))
      (State h (Some attrs)) = (Ok tt, s') ->
    exists h' G',
      s' = State h' (Some attrs) /\
      hp `prefix_of` h' /\
      h' !! res = Some (ODict G') /\
      Dict.keys G' = Dict.keys G ++ ks /\
      (forall k v, Dict.get k G = Some v -> Dict.get k G' = Some v) /\
      (forall l o, l <> res -> h !! l = Some o -> h' !! l = Some o) /\
      forall k, k ∈ ks ->
        exists var hb h1 lvk vk nd lr,
          hp `prefix_of` hb /\
          getitem variants k (State hb (Some attrs))
            = (Ok var, State hb (Some attrs)) /\
          variant_keys_of var (State hb (Some attrs))
            = (Ok (VRef lvk), State h1 (Some attrs)) /\
          h1 !! lvk = Some (ODict vk) /\
          let merged :=
            Dict.set "name" (VStr (name +:+ "." +:+ k)) (Dict.update PK vk) in
          hp `prefix_of` (h1 ++ [ODict merged]) /\
          pythonize_items (h1 ++ [ODict merged]) attrs merged = Ok nd /\
          Dict.get k G' = Some (VRef lr) /\
          lr <> res /\
          length hp <= lr /\
          h' !! lr = Some (ODict (Dict.of_list nd)).
Proof.
  intros Hpk Hres ks.
  induction ks as [|k ks IH]; intros h G s' Hpre HG Hnd Hfresh Hrun.
  - injection Hrun as <-. exists h, G. rewrite app_nil_r.
    repeat split; try done. by intros k []%elem_of_nil.
  - cbn [for_each] in Hrun.
    apply bind_inv in Hrun as ([] & s1 & Hbody & Hrun).
    apply NoDup_cons in Hnd as [Hk Hnd].
    pose proof (prefix_lookup_Some _ _ _ _ Hpk Hpre) as Hpk'.
    apply (process_variant_inv _ _ _ PK _ G) in Hbody
      as (var & h1 & lvk & vk & nd & Hget & Hvk & Hpre1 & Hlvk & Hitems & ->);
      [|done..].
    set (merged := Dict.set "name" (VStr (name +:+ "." +:+ k)) (Dict.update PK vk)) in *.
    set (hm := h1 ++ [ODict merged]) in *.
    set (G1 := Dict.set k (VRef (length hm)) G) in *.
    pose proof (lookup_lt_Some _ _ _ HG) as Hreslt.
    pose proof (prefix_length _ _ Hpre1) as Hlen1.
    assert (length hm = S (length h1)) as Hlenm.
    { unfold hm. rewrite length_app. simpl. lia. }
    assert (Hk' : k ∉ Dict.keys G) by (apply Hfresh; by left).
    assert (Hframe : forall l o, l <> res -> h !! l = Some o ->
              <[res := ODict G1]> (hm ++ [ODict (Dict.of_list nd)]) !! l = Some o).
    { intros l o Hl Ho. rewrite list_lookup_insert_ne by done.
      apply lookup_app_l_Some, lookup_app_l_Some. by eapply prefix_lookup_Some. }
    assert (Hpre2 : hp `prefix_of`
              <[res := ODict G1]> (hm ++ [ODict (Dict.of_list nd)])).
    { apply prefix_insert_ge; [|done]. apply prefix_app_r. unfold hm.
      apply prefix_app_r. exact (transitivity Hpre Hpre1). }
    assert (HG2 : <[res := ODict G1]> (hm ++ [ODict (Dict.of_list nd)]) !! res
                  = Some (ODict G1)).
    { apply list_lookup_insert_eq. rewrite length_app. lia. }
    assert (Hfresh2 : forall k0, k0 ∈ ks -> k0 ∉ Dict.keys G1).
    { intros k0 Hk0. unfold G1. rewrite keys_set. unfold Dict.mem.
      apply get_None_keys in Hk'. rewrite Hk'.
      apply not_elem_of_app. split; [apply Hfresh; by right|].
      by intros ->%list_elem_of_singleton. }
    destruct (IH _ G1 _ Hpre2 HG2 Hnd Hfresh2 Hrun)
      as (h' & G' & -> & Hpre' & HG' & Hkeys & Hkeep & Hfr & Hrecs).
    exists h', G'. split; [done|]. split; [done|]. split; [done|].
    split; [|split; [|split]].
    + rewrite Hkeys. unfold G1. rewrite keys_set. unfold Dict.mem.
      apply get_None_keys in Hk'. rewrite Hk'. by rewrite <- app_assoc.
    + intros k0 v Hk0. apply Hkeep. unfold G1. rewrite get_set_ne; [done|].
      intros ->. apply get_None_keys in Hk'. congruence.
    + intros l o Hl Ho. apply Hfr; [done|]. by apply Hframe.
    + intros k0 [->|Hk0]%elem_of_cons; [|by apply Hrecs].
      exists var, h, h1, lvk, vk, nd, (length hm).
      split; [done|]. split; [done|]. split; [done|]. split; [done|].
      pose proof (prefix_length _ _ Hpre) as Hlen0.
      split; [|split; [done|split; [|split; [|split]]]].
      * unfold hm. apply prefix_app_r.
        exact (transitivity Hpre Hpre1).
      * apply Hkeep. unfold G1. apply get_set_eq.
      * lia.
      * lia.
      * apply Hfr; [lia|]. rewrite list_lookup_insert_ne by lia.
        apply lookup_snoc.
Qed.

(** The run of [process_provider] up to the loop, for an entry whose
    [variants] is a mapping. *)
Lemma process_provider_variants h a dl D name p P o O vl V :
  h !! dl = Some (ODict D) ->
  Dict.get name D = Some (VRef p) ->
  h !! p = Some (ODict P) ->
  Dict.get "variants" P = Some (VRef vl) ->
  h !! vl = Some (ODict V) ->
  Dict.get "options" P = Some (VRef o) ->
  h !! o = Some (ODict O) ->
  let fields := Dict.del "options" (Dict.del "variants" P) in
  let hp := (h ++ [ODict fields]) ++ [ODict (Dict.update fields O)] in
  process_provider (VRef dl) name (State h a) =
  (for_each (Dict.keys V)
     (process_variant name (VRef vl) (VRef (length (h ++ [ODict fields])))
        (VRef (length hp))) ;;;
   ret (VRef (length hp))) (State (hp ++ [ODict []]) a).
Proof.
  intros Hdl Hname Hp Hvar Hvl Hopt Ho fields hp. unfold process_provider.
  rewrite (bind_run _ _ _ (VRef p) (State h a))
    by (rewrite (getitem_run _ _ _ D) by done; by rewrite Hname).
  rewrite (bind_run _ _ _ _ _ (copy_run h a p _ Hp)).
  rewrite (bind_run _ _ _ (VRef vl) (State (h ++ [ODict (Dict.del "variants" P)]) a)).
  2:{ rewrite (pop_default_run _ _ _ P) by apply lookup_snoc.
      rewrite Hvar. by rewrite insert_snoc. }
  rewrite (bind_run _ _ _ (VRef o) (State (h ++ [ODict fields]) a)).
  2:{ rewrite (pop_run _ _ _ (Dict.del "variants" P)) by apply lookup_snoc.
      rewrite get_del_ne by done. rewrite Hopt. by rewrite insert_snoc. }
  rewrite (bind_run _ _ _ _ _
    (merge_run _ a (length h) o fields O (lookup_snoc _ _)
       (lookup_app_l_Some _ _ _ _ Ho))).
  cbn iota. fold hp.
  rewrite (bind_run _ _ _ _ _ (new_dict_run hp a [])).
  rewrite (bind_run _ _ _ (Dict.keys V) (State (hp ++ [ODict []]) a)); [done|].
  apply iter_keys_run. unfold hp. by do 3 apply lookup_app_l_Some.
Qed.

(** What [variant_keys_of] builds for a variant definition that is
    well-formed in a store [h0] the current store extends. *)
Lemma variant_keys_of_mapping (h0 hb : heap) a var vk :
  variant_mapping h0 var = Some vk ->
  h0 `prefix_of` hb ->
  exists h1,
    variant_keys_of var (State hb a) =
    (Ok (VRef (length h1)), State (h1 ++ [ODict vk]) a).
Proof.
  intros Hmap Hpre. destruct var as [| | | |sv|lv]; try done.
  - injection Hmap as <-. by exists hb.
  - cbn [variant_mapping] in Hmap.
    destruct (h0 !! lv) as [[W|?]|] eqn:Hlv; try done.
    pose proof (prefix_lookup_Some _ _ _ _ Hlv Hpre) as Hlv'.
    unfold variant_keys_of.
    rewrite (bind_run _ _ _ _ _ (copy_run hb a lv _ Hlv')).
    rewrite (bind_run _ _ _ _ _ (new_dict_run (hb ++ [ODict W]) a [])).
    destruct (Dict.get "options" W) as [x|] eqn:Hopt.
    + destruct x as [| | | | |lo]; try done.
      destruct (h0 !! lo) as [[WO|?]|] eqn:Hlo; try done. injection Hmap as <-.
      pose proof (prefix_lookup_Some _ _ _ _ Hlo Hpre) as Hlo'.
      rewrite (bind_run _ _ _ (VRef lo)
        (State ((hb ++ [ODict (Dict.del "options" W)]) ++ [ODict []]) a)).
      2:{ rewrite (pop_default_run _ _ _ W)
            by apply lookup_app_l_Some, lookup_snoc.
          rewrite Hopt. rewrite insert_app_l by (rewrite length_app; simpl; lia).
          by rewrite insert_snoc. }
      rewrite (merge_run _ a (length hb) lo (Dict.del "options" W) WO)
        by (apply lookup_app_l_Some, lookup_snoc || by do 2 apply lookup_app_l_Some).
      by eexists.
    + injection Hmap as <-.
      rewrite (bind_run _ _ _ (VRef (length (hb ++ [ODict W])))
        (State ((hb ++ [ODict W]) ++ [ODict []]) a)).
      2:{ rewrite (pop_default_run _ _ _ W)
            by apply lookup_app_l_Some, lookup_snoc.
          by rewrite Hopt. }
      rewrite (merge_run _ a (length hb) (length (hb ++ [ODict W])) W [])
        by (apply lookup_app_l_Some, lookup_snoc || apply lookup_snoc).
      by eexists.
Qed.

End Variants.

(** C4.  For an entry whose [variants] is a mapping of well-formed
    variant definitions: when [process_provider] returns, it returns a
    new mapping whose keys are the variants' short names, in their
    order.  The record under a variant is the renaming of the variant's
    mapping merged over the provider's base mapping (the variant's
    fields win) with [name] set to ["<provider>.<variant>"], and that
    is the record's [name]. *)
Theorem provider_with_variants (s : state) (dl p o vl : loc)
    (D P O V : pydict) (name : string) (attrs r : pyval) (s' : state) :
  unique_keys (st_heap s) ->
  st_heap s !! dl = Some (ODict D) ->
  Dict.get name D = Some (VRef p) ->
  st_heap s !! p = Some (ODict P) ->
  Dict.get "variants" P = Some (VRef vl) ->
  st_heap s !! vl = Some (ODict V) ->
  Dict.get "options" P = Some (VRef o) ->
  st_heap s !! o = Some (ODict O) ->
  (forall variant var, Dict.get variant V = Some var ->
     is_Some (variant_mapping (st_heap s) var)) ->
  ATTRIBUTIONS s = Some attrs ->
  process_provider (VRef dl) name s = (Ok r, s') ->
  let base := Dict.update (Dict.del "options" (Dict.del "variants" P)) O in
  exists l G,
    r = VRef l /\
    st_heap s !! l = None /\
    st_heap s' !! l = Some (ODict G) /\
    Dict.keys G = Dict.keys V /\
    forall variant var, Dict.get variant V = Some var ->
      exists vk lr nd hi,
        variant_mapping (st_heap s) var = Some vk /\
        Dict.get variant G = Some (VRef lr) /\
        st_heap s' !! lr = Some (ODict (Dict.of_list nd)) /\
        let merged :=
          Dict.set "name" (VStr (name +:+ "." +:+ variant)) (Dict.update base vk) in
        (forall k, k <> "name" ->
           Dict.get k merged =
           match Dict.get k vk with Some v => Some v | None => Dict.get k base end) /\
        st_heap s `prefix_of` hi /\
        pythonize_items hi attrs merged = Ok nd /\
        Dict.get "name" (Dict.of_list nd) = Some (VStr (name +:+ "." +:+ variant)).
Proof.
  destruct s as [h a]. cbn [st_heap ATTRIBUTIONS].
  intros Hu Hdl Hname Hp Hvar Hvl Hopt Ho Hwf -> Hrun.
  rewrite (process_provider_variants h _ dl D name p P o O vl V) in Hrun by done.
  set (fields := Dict.del "options" (Dict.del "variants" P)) in *.
  set (base := Dict.update fields O) in *.
  set (pk := length (h ++ [ODict fields])) in *.
  set (hp := (h ++ [ODict fields]) ++ [ODict base]) in *.
  apply bind_inv in Hrun as ([] & s1 & Hloop & Hret).
  assert (Hpre0 : h `prefix_of` hp).
  { unfold hp. rewrite <- app_assoc. by apply prefix_app_r. }
  assert (HndP : NoDup (Dict.keys base)).
  { apply NoDup_keys_update, NoDup_keys_del, NoDup_keys_del. by eapply Hu. }
  assert (Hpk : hp !! pk = Some (ODict base)) by (unfold hp, pk; apply lookup_snoc).
  assert (HV : NoDup (Dict.keys V)) by by eapply Hu.
  destruct (variants_loop name (VRef vl) pk base (length hp) attrs hp Hpk (le_n _)
              (Dict.keys V) (hp ++ [ODict []]) [] s1)
    as (h' & G & -> & Hpre' & HG & Hkeys & _ & _ & Hrecs);
    [by apply prefix_app_r|apply lookup_snoc|done
    |intros k _; apply not_elem_of_nil|done|].
  - injection Hret as <- <-. exists (length hp), G. cbn [st_heap].
    split; [done|]. split.
    { apply lookup_ge_None_2. by apply prefix_length. }
    split; [done|]. split; [done|].
    intros variant var Hget.
    assert (variant ∈ Dict.keys V) as Hin by by eapply elem_keys, get_Some_elem.
    destruct (Hrecs _ Hin)
      as (var' & hb & h1 & lvk & vk & nd & lr & Hpb & Hgetv & Hvk & Hlvk
          & Hpm & Hnd & HgetG & _ & _ & Hlr).
    assert (Hvl' : hb !! vl = Some (ODict V)).
    { eapply prefix_lookup_Some; [|exact Hpb]. by eapply prefix_lookup_Some. }
    rewrite (getitem_run _ _ _ V) in Hgetv by done. rewrite Hget in Hgetv.
    injection Hgetv as <-.
    destruct (Hwf _ _ Hget) as [vk0 Hvk0].
    destruct (variant_keys_of_mapping h hb (Some attrs) var vk0 Hvk0) as [h1' Hvk'].
    { exact (transitivity Hpre0 Hpb). }
    rewrite Hvk in Hvk'. injection Hvk' as -> ->.
    rewrite lookup_snoc in Hlvk. injection Hlvk as <-.
    exists vk0, lr, nd, ((h1' ++ [ODict vk0]) ++
      [ODict (Dict.set "name" (VStr (name +:+ "." +:+ variant))
                (Dict.update base vk0))]).
    split; [done|]. split; [done|]. split; [done|]. cbn zeta.
    assert (NoDup (Dict.keys vk0)) as Hndvk.
    { destruct var as [| | | |sv|lv]; try done.
      - injection Hvk0 as <-. apply NoDup_singleton.
      - cbn [variant_mapping] in Hvk0.
        destruct (h !! lv) as [[W|?]|] eqn:Hlv; try done.
        pose proof (Hu _ _ Hlv) as HW.
        destruct (Dict.get "options" W) as [[| | | | |lo]|]; try done.
        + destruct (h !! lo) as [[WO|?]|]; try done. injection Hvk0 as <-.
          by apply NoDup_keys_update, NoDup_keys_del.
        + by injection Hvk0 as <-. }
    split; [|split; [|split]].
    + intros k Hk. rewrite get_set_ne by done. by apply get_update.
    + exact (transitivity Hpre0 Hpm).
    + done.
    + eapply get_name_kept; [|apply get_set_eq|done].
      by apply NoDup_keys_set, NoDup_keys_update.
Qed.

(** ** The records of the catalog *)

Section Records.

Implicit Types (h : heap) (d e G PK V C : pydict) (k name : string).

Lemma unique_keys_snoc h d :
  unique_keys h -> NoDup (Dict.keys d) -> unique_keys (h ++ [ODict d]).
Proof.
  intros Hu Hd l d' Hl.
  apply lookup_app_Some in Hl as [Hl|[_ Hl]]; [by eapply Hu|].
  apply list_lookup_singleton_Some in Hl as [_ [= <-]]. done.
Qed.

Lemma get_elem_NoDup k v d :
  NoDup (Dict.keys d) -> (k, v) ∈ d -> Dict.get k d = Some v.
Proof.
  induction d as [|[k' v'] d IH]; simpl; [by intros _ []%elem_of_nil|].
  intros [Hnotin Hnd]%NoDup_cons [[= -> ->]|Hin]%elem_of_cons.
  - by rewrite String.eqb_refl.
  - destruct (String.eqb_spec k k') as [->|_]; [|by apply IH].
    exfalso. apply Hnotin. by eapply elem_keys.
Qed.

Lemma renamed_record_fields h attrs M nd n :
  NoDup (Dict.keys M) ->
  Dict.get "name" M = Some (VStr n) ->
  pythonize_items h attrs M = Ok nd ->
  record_fields (Dict.of_list nd).
Proof.
  intros HM Hname Hnd. split.
  - exists n. by eapply get_name_kept.
  - intros x. by eapply attribution_in_record_resolved.
Qed.

Lemma record_at_prefix n h h' v :
  h `prefix_of` h' -> record_at n h v -> record_at n h' v.
Proof.
  intros Hpre (l & R & -> & Hl & HR & Hf). exists l, R.
  split; [done|]. split; [done|]. split; [by eapply prefix_lookup_Some|done].
Qed.

Lemma entry_at_prefix n h h' v :
  h `prefix_of` h' -> entry_at n h v -> entry_at n h' v.
Proof.
  intros Hpre [Hrec|(l & G & -> & Hl & HG & Hall)].
  - left. by eapply record_at_prefix.
  - right. exists l, G. split; [done|]. split; [done|].
    split; [by eapply prefix_lookup_Some|].
    eapply Forall_impl; [exact Hall|]. intros kv. by apply record_at_prefix.
Qed.

Lemma record_at_insert n h v l o :
  l < n -> record_at n h v -> record_at n (<[l := o]> h) v.
Proof.
  intros Hlt (l' & R & -> & Hl & HR & Hf). exists l', R.
  split; [done|]. split; [done|]. split; [|done].
  rewrite list_lookup_insert_ne by lia. done.
Qed.

Lemma entry_at_insert n h v l o :
  l < n -> entry_at n h v -> entry_at n (<[l := o]> h) v.
Proof.
  intros Hlt [Hrec|(l' & G & -> & Hl & HG & Hall)].
  - left. by apply record_at_insert.
  - right. exists l', G. split; [done|]. split; [done|]. split.
    + rewrite list_lookup_insert_ne by lia. done.
    + eapply Forall_impl; [exact Hall|]. intros kv. by apply record_at_insert.
Qed.

Lemma record_at_weaken n m h v : m <= n -> record_at n h v -> record_at m h v.
Proof.
  intros Hle (l & R & -> & Hl & HR & Hf). exists l, R.
  split; [done|]. split; [lia|done].
Qed.

Lemma entry_at_weaken n m h v : m <= n -> entry_at n h v -> entry_at m h v.
Proof.
  intros Hle [Hrec|(l & G & -> & Hl & HG & Hall)].
  - left. by eapply record_at_weaken.
  - right. exists l, G. split; [done|]. split; [lia|]. split; [done|].
    eapply Forall_impl; [exact Hall|]. intros kv. by apply record_at_weaken.
Qed.

(** A successful [process_provider] returns an entry made of objects it
    created, and leaves the store it found in place. *)
Lemma process_provider_ok data name h attrs rec s1 :
  unique_keys h ->
  process_provider data name (State h (Some attrs)) = (Ok rec, s1) ->
  exists h1, s1 = State h1 (Some attrs) /\
             h `prefix_of` h1 /\
             entry_at (length h) h1 rec.
Proof.
  intros Hu Hrun. unfold process_provider in Hrun.
  apply bind_inv in Hrun as (entry & s0 & Hget & Hrun).
  apply getitem_inv in Hget as (-> & dl & D & -> & Hdl & Hentry).
  apply bind_inv in Hrun as (provider & s0 & Hcopy & Hrun).
  apply copy_inv in Hcopy as (pl & o & -> & Hpl & -> & ->).
  apply bind_inv in Hrun as (variants & s0 & Hpop & Hrun).
  apply pop_default_inv in Hpop as (P & HP & Hpop).
  rewrite lookup_snoc in HP. injection HP as ->.
  assert (HndP : NoDup (Dict.keys P)) by by eapply Hu.
  assert (Hs0 : s0 = State (h ++ [ODict (Dict.del "variants" P)]) (Some attrs)).
  { destruct Hpop as [[_ ->]|(Hnone & _ & ->)].
    - by rewrite insert_snoc.
    - by rewrite del_absent. }
  clear Hpop. subst s0.
  apply bind_inv in Hrun as (options & s0 & Hpop & Hrun).
  apply pop_inv in Hpop as (P1 & HP1 & Hopt & ->).
  rewrite lookup_snoc in HP1. injection HP1 as <-. rewrite insert_snoc in Hrun.
  set (fields := Dict.del "options" (Dict.del "variants" P)) in *.
  assert (Hndf : NoDup (Dict.keys fields)) by by do 2 apply NoDup_keys_del.
  apply bind_inv in Hrun as (pkv & s0 & Hmerge & Hrun).
  apply merge_inv in Hmerge as (l1 & lo & d1 & O & [= <-] & -> & Hl1 & Hlo & -> & ->).
  rewrite lookup_snoc in Hl1. injection Hl1 as <-.
  set (PK := Dict.update fields O) in *.
  assert (HndPK : NoDup (Dict.keys PK)) by by apply NoDup_keys_update.
  set (hf := h ++ [ODict fields]) in *.
  set (hp := hf ++ [ODict PK]) in *.
  assert (Hpre_p : h `prefix_of` hp).
  { unfold hp, hf. rewrite <- app_assoc. by apply prefix_app_r. }
  assert (Hlen_p : length hp = S (S (length h))).
  { unfold hp, hf. rewrite !length_app. simpl. lia. }
  assert (Hvariants :
    (result <- new_dict [] ;;
     keys <- iter_keys variants ;;
     for_each keys (process_variant name variants (VRef (length hf)) result) ;;;
     ret result) (State hp (Some attrs)) = (Ok rec, s1) ->
    exists h1, s1 = State h1 (Some attrs) /\ h `prefix_of` h1 /\
               entry_at (length h) h1 rec).
  { clear Hrun. intros Hrun.
    apply bind_inv in Hrun as (result & s0 & Hnew & Hrun).
    rewrite new_dict_run in Hnew. injection Hnew as <- <-.
    apply bind_inv in Hrun as (ks & s0 & Hiter & Hrun).
    apply iter_keys_inv in Hiter as (-> & Hks).
    apply bind_inv in Hrun as ([] & s2 & Hloop & Hret).
    injection Hret as <- <-.
    assert (HndKs : NoDup ks).
    { destruct Hks as [(vl & V & -> & HV & ->)| ->]; [|constructor].
      assert (unique_keys (hp ++ [ODict []])) as Hu'.
      { apply unique_keys_snoc; [|constructor].
        apply unique_keys_snoc; [|done]. by apply unique_keys_snoc. }
      by eapply Hu'. }
    destruct (variants_loop name variants (length hf) PK (length hp) attrs hp
                (lookup_snoc _ _) (le_n _) ks (hp ++ [ODict []]) [] s2)
      as (h' & G & -> & Hpre' & HG & Hkeys & _ & _ & Hrecs);
      [by apply prefix_app_r|apply lookup_snoc|done
      |intros k _; apply not_elem_of_nil|done|].
    exists h'. split; [done|]. split; [exact (transitivity Hpre_p Hpre')|].
    right. exists (length hp), G. split; [done|]. split; [lia|]. split; [done|].
    simpl in Hkeys. apply Forall_forall. intros [k v] Hkv. cbn [snd].
    assert (k ∈ ks) as Hk by (rewrite <- Hkeys; by eapply elem_keys).
    destruct (Hrecs _ Hk)
      as (var & hb & h1 & lvk & vk & nd & lr & _ & _ & _ & _
          & _ & Hnd & HgetG & _ & Hlr & Hlook).
    assert (Dict.get k G = Some v) as Hv.
    { apply get_elem_NoDup; [|done]. by rewrite Hkeys. }
    rewrite Hv in HgetG. injection HgetG as ->.
    exists lr, (Dict.of_list nd). split; [done|]. split; [lia|]. split; [done|].
    eapply renamed_record_fields; [|apply get_set_eq|done].
    by apply NoDup_keys_set, NoDup_keys_update. }
  destruct variants; try (by apply Hvariants).
  clear Hvariants. unfold hp in *.
  apply bind_inv in Hrun as ([] & s0 & Hset & Hrun).
  apply setitem_inv in Hset as (d & Hd & ->).
  rewrite lookup_snoc in Hd. injection Hd as <-. rewrite insert_snoc in Hrun.
  apply pythonize_data_inv in Hrun as (attrs0 & items & nd & Ha & Hitems & Hnd & -> & ->).
  cbn [st_heap ATTRIBUTIONS dict_items] in *. injection Ha as <-.
  rewrite lookup_snoc in Hitems. injection Hitems as <-.
  eexists. split; [done|]. split.
  { unfold hf. rewrite <- !app_assoc. by apply prefix_app_r. }
  left. eexists _, (Dict.of_list nd). split; [done|].
  split; [unfold hf; rewrite !length_app; simpl; lia|]. split; [apply lookup_snoc|].
  eapply renamed_record_fields; [|apply get_set_eq|done].
  by apply NoDup_keys_set.
Qed.

Lemma attribution_of_inv data provider h a x s1 :
  attribution_of data provider (State h a) = (Ok x, s1) ->
  s1 = State h a /\
  exists dl D, data = VRef dl /\ h !! dl = Some (ODict D).
Proof.
  unfold attribution_of. intros Hrun.
  apply bind_inv in Hrun as (entry & s0 & Hget & Hrun).
  apply getitem_inv in Hget as (-> & dl & D & -> & Hdl & _).
  apply bind_inv in Hrun as (options & s0 & Hget & Hrun).
  apply getitem_inv in Hget as (-> & _).
  apply getitem_inv in Hrun as (-> & _).
  split; [done|]. by exists dl, D.
Qed.

(** The loop of [process_data]: every provider gets an entry made of
    objects created after [result]. *)
Lemma providers_loop data res attrs n :
  res < n ->
  forall ks h C s',
    unique_keys h ->
    n <= length h ->
    h !! res = Some (ODict C) ->
    Forall (fun kv => entry_at n h kv.2) C ->
    NoDup ks ->
    (forall k, k ∈ ks -> k ∉ Dict.keys C) ->
    for_each ks
      (fun provider =>
         record <- process_provider data provider ;;
         setitem (VRef res) provider record)
      (State h (Some attrs)) = (Ok tt, s') ->
    exists h' C',
      s' = State h' (Some attrs) /\
      h' !! res = Some (ODict C') /\
      Dict.keys C' = Dict.keys C ++ ks /\
      Forall (fun kv => entry_at n h' kv.2) C'.
Proof.
  intros Hres ks.
  induction ks as [|k ks IH]; intros h C s' Hu Hn HC Hall Hnd Hfresh Hrun.
  - injection Hrun as <-. exists h, C. by rewrite app_nil_r.
  - cbn [for_each] in Hrun.
    apply bind_inv in Hrun as ([] & s1 & Hbody & Hrun).
    apply NoDup_cons in Hnd as [Hk Hnd].
    assert (Hgood : good (Some attrs) s1).
    { assert (good (Some attrs) (State h (Some attrs))) as Hg by done.
      eapply (maintains_bind (Some attrs)) in Hg.
      - by rewrite Hbody in Hg.
      - apply maintains_process_provider.
      - intros x. apply maintains_setitem. }
    apply bind_inv in Hbody as (rec & s0 & Hprov & Hset).
    apply process_provider_ok in Hprov as (h1 & -> & Hpre & Hentry); [|done].
    apply setitem_inv in Hset as (d & Hd & ->).
    rewrite (prefix_lookup_Some _ _ _ _ HC Hpre) in Hd. injection Hd as <-.
    pose proof (prefix_length _ _ Hpre) as Hlen.
    assert (Hk' : k ∉ Dict.keys C) by (apply Hfresh; by left).
    destruct (IH (<[res := ODict (Dict.set k rec C)]> h1) (Dict.set k rec C) s')
      as (h' & C' & -> & HC' & Hkeys & Hall'); try done.
    + apply Hgood.
    + rewrite length_insert. lia.
    + apply list_lookup_insert_eq. lia.
    + apply Forall_forall. intros kv Hkv. apply entry_at_insert; [done|].
      apply elem_of_set in Hkv as [->|Hkv].
      * eapply entry_at_weaken; [|done]. lia.
      * eapply entry_at_prefix; [done|]. by eapply Forall_forall in Hall.
    + intros k0 Hk0. rewrite keys_set. unfold Dict.mem.
      apply get_None_keys in Hk'. rewrite Hk'.
      apply not_elem_of_app. split; [apply Hfresh; by right|].
      by intros ->%list_elem_of_singleton.
    + exists h', C'. split; [done|]. split; [done|]. split; [|done].
      rewrite Hkeys, keys_set. unfold Dict.mem.
      apply get_None_keys in Hk'. rewrite Hk'. by rewrite <- app_assoc.
Qed.

End Records.

(** ** What the loop of [process_data] leaves under every provider *)

Section Entries.

Implicit Types (h : heap) (C D : pydict) (k name : string).

(** The loop of [process_data] for a property [Q] of the entry of a
    provider that every round establishes and that does not depend on
    the result mapping.  [h0] is a store the loop started from an
    extension of. *)
Lemma providers_loop_entries data res attrs (h0 : heap)
    (Q : string -> heap -> pyval -> Prop) :
  length h0 <= res ->
  (forall k h h' v,
     Q k h v ->
     (forall l o, l <> res -> h !! l = Some o -> h' !! l = Some o) ->
     Q k h' v) ->
  (forall k h rec h1,
     h0 `prefix_of` h -> unique_keys h -> res < length h ->
     process_provider data k (State h (Some attrs)) = (Ok rec, State h1 (Some attrs)) ->
     Q k h1 rec) ->
  forall ks h C s',
    unique_keys h ->
    h0 `prefix_of` h ->
    h !! res = Some (ODict C) ->
    NoDup ks ->
    (forall k, k ∈ ks -> k ∉ Dict.keys C) ->
    for_each ks
      (fun provider =>
         record <- process_provider data provider ;;
         setitem (VRef res) provider record)
      (State h (Some attrs)) = (Ok tt, s') ->
    exists h' C',
      s' = State h' (Some attrs) /\
      h' !! res = Some (ODict C') /\
      (forall k v, Dict.get k C = Some v -> Dict.get k C' = Some v) /\
      (forall l o, l <> res -> h !! l = Some o -> h' !! l = Some o) /\
      forall k, k ∈ ks -> exists rec, Dict.get k C' = Some rec /\ Q k h' rec.
Proof.
  intros Hres Hstable Hstep ks.
  induction ks as [|k ks IH]; intros h C s' Hu Hpre0 HC Hnd Hfresh Hrun.
  - injection Hrun as <-. exists h, C.
    split; [done|]. split; [done|]. split; [done|]. split; [done|].
    intros k Hk. by apply elem_of_nil in Hk.
  - cbn [for_each] in Hrun.
    apply bind_inv in Hrun as ([] & s1 & Hbody & Hrun).
    apply NoDup_cons in Hnd as [Hk Hnd].
    assert (Hgood : good (Some attrs) s1).
    { assert (good (Some attrs) (State h (Some attrs))) as Hg by done.
      eapply (maintains_bind (Some attrs)) in Hg.
      - by rewrite Hbody in Hg.
      - apply maintains_process_provider.
      - intros x. apply maintains_setitem. }
    apply bind_inv in Hbody as (rec & s0 & Hprov & Hset).
    pose proof Hprov as Hprov'.
    apply process_provider_ok in Hprov' as (h1 & -> & Hpre & _); [|done].
    pose proof (lookup_lt_Some _ _ _ HC) as Hlt.
    pose proof (Hstep k h rec h1 Hpre0 Hu Hlt Hprov) as HQ.
    apply setitem_inv in Hset as (d & Hd & ->).
    rewrite (prefix_lookup_Some _ _ _ _ HC Hpre) in Hd. injection Hd as <-.
    pose proof (prefix_length _ _ Hpre) as Hlen.
    assert (Hk' : k ∉ Dict.keys C) by (apply Hfresh; by left).
    destruct (IH (<[res := ODict (Dict.set k rec C)]> h1) (Dict.set k rec C) s')
      as (h' & C' & -> & HC' & Hkept & Hframe & Hall); try done.
    + apply Hgood.
    + apply prefix_insert_ge; [|done]. exact (transitivity Hpre0 Hpre).
    + apply list_lookup_insert_eq. lia.
    + intros k0 Hk0. rewrite keys_set. unfold Dict.mem.
      apply get_None_keys in Hk'. rewrite Hk'.
      apply not_elem_of_app. split; [apply Hfresh; by right|].
      by intros ->%list_elem_of_singleton.
    + assert (Hframe1 : forall l o, l <> res -> h1 !! l = Some o -> h' !! l = Some o).
      { intros l o Hl Hlo. apply Hframe; [done|].
        by rewrite list_lookup_insert_ne. }
      exists h', C'. split; [done|]. split; [done|]. split; [|split].
      * intros k0 v Hget. apply Hkept. rewrite get_set_ne; [done|].
        intros ->. apply Hk'. by eapply elem_keys, get_Some_elem.
      * intros l o Hl Hlo. apply Hframe1; [done|]. by eapply prefix_lookup_Some.
      * intros k0 [->|Hk0]%elem_of_cons; [|by apply Hall].
        exists rec. split; [apply Hkept, get_set_eq|]. by eapply Hstable.
Qed.

(** The same for [process_data] as a whole: the loop starts with the
    attribution table at the end of the store it was called in and the
    result mapping after it. *)
Lemma process_data_entries data s r s' (Q : string -> heap -> pyval -> Prop) :
  unique_keys (st_heap s) ->
  process_data data s = (Ok r, s') ->
  (forall k h h' v,
     Q k h v ->
     (forall l o, l <> S (length (st_heap s)) -> h !! l = Some o -> h' !! l = Some o) ->
     Q k h' v) ->
  (forall k h rec h1,
     st_heap s `prefix_of` h -> unique_keys h -> S (length (st_heap s)) < length h ->
     process_provider data k (State h (Some (VRef (length (st_heap s)))))
       = (Ok rec, State h1 (Some (VRef (length (st_heap s))))) ->
     Q k h1 rec) ->
  exists dl D C,
    data = VRef dl /\
    st_heap s !! dl = Some (ODict D) /\
    r = VRef (S (length (st_heap s))) /\
    st_heap s' !! S (length (st_heap s)) = Some (ODict C) /\
    forall k, k ∈ Dict.keys D -> exists rec, Dict.get k C = Some rec /\ Q k (st_heap s') rec.
Proof.
  destruct s as [h a]. cbn [st_heap]. intros Hu Hrun Hstable Hstep.
  unfold process_data in Hrun.
  apply bind_inv in Hrun as (osm & s0 & Hattr & Hrun).
  apply attribution_of_inv in Hattr as (-> & dl & D & -> & Hdl).
  apply bind_inv in Hrun as (esri & s0 & Hattr & Hrun).
  apply attribution_of_inv in Hattr as (-> & _).
  apply bind_inv in Hrun as (oms & s0 & Hattr & Hrun).
  apply attribution_of_inv in Hattr as (-> & _).
  rewrite (bind_run _ _ _ _ _ (new_dict_run h a _)) in Hrun.
  set (table := [("{attribution.OpenStreetMap}", osm);
                 ("{attribution.Esri}", esri);
                 ("{attribution.OpenMapSurfer}", oms)]) in *.
  unfold bind at 1 in Hrun. cbn [set_ATTRIBUTIONS st_heap] in Hrun.
  rewrite (bind_run _ _ _ _ _ (new_dict_run (h ++ [ODict table]) _ [])) in Hrun.
  set (ht := h ++ [ODict table]) in *.
  assert (Hlent : length ht = S (length h)).
  { unfold ht. rewrite length_app. simpl. lia. }
  assert (Hdl' : (ht ++ [ODict []]) !! dl = Some (ODict D)).
  { unfold ht. by do 2 apply lookup_app_l_Some. }
  rewrite (bind_run _ _ _ _ _ (iter_keys_run _ _ dl D Hdl')) in Hrun.
  apply bind_inv in Hrun as ([] & s2 & Hloop & Hret). injection Hret as <- <-.
  rewrite Hlent in *.
  destruct (providers_loop_entries (VRef dl) (S (length h)) (VRef (length h)) h Q
              ltac:(lia) Hstable Hstep
              (Dict.keys D) (ht ++ [ODict []]) [] s2)
    as (h' & C & -> & HC & _ & _ & Hall); try done.
  - apply unique_keys_snoc; [|constructor]. apply unique_keys_snoc; [done|].
    by_evaluation.
  - unfold ht. rewrite <- app_assoc. by apply prefix_app_r.
  - rewrite <- Hlent. apply lookup_snoc.
  - by eapply Hu.
  - intros k _. apply not_elem_of_nil.
  - by exists dl, D, C.
Qed.

End Entries.

(** ** Where a record's [url] comes from *)

Section Supplied.

Implicit Types (h : heap) (d e : pydict) (k : string).

Lemma mem_keys k d : Dict.mem k d = true <-> k ∈ Dict.keys d.
Proof.
  unfold Dict.mem. pose proof (get_None_keys k d) as H.
  destruct (Dict.get k d); split; try done.
  - intros _. destruct (decide (k ∈ Dict.keys d)) as [|Hn]; [done|].
    by apply H in Hn.
  - intros Hin. exfalso. by apply H.
Qed.

Lemma mem_set k k' v d :
  Dict.mem k (Dict.set k' v d) = (String.eqb k k' || Dict.mem k d).
Proof. unfold Dict.mem. rewrite get_set. by destruct (String.eqb k k'). Qed.

Lemma mem_update k d e :
  Dict.mem k (Dict.update d e) = (Dict.mem k d || Dict.mem k e).
Proof.
  unfold Dict.update. revert d.
  induction e as [|[k' v'] e IH]; intros d; simpl.
  - by rewrite orb_false_r.
  - rewrite IH, mem_set. unfold Dict.mem. simpl.
    destruct (String.eqb k k'); simpl; [|done].
    by rewrite orb_true_r.
Qed.

Lemma mem_del_ne k k' d : k <> k' -> Dict.mem k (Dict.del k' d) = Dict.mem k d.
Proof. intros Hne. unfold Dict.mem. by rewrite get_del_ne. Qed.

Lemma new_key_url k : new_key k = "url" -> k = "url".
Proof.
  unfold new_key, rename_keys. simpl.
  destruct (String.eqb k "maxZoom"); [done|].
  by destruct (String.eqb k "minZoom").
Qed.

(** Renaming neither makes nor drops a [url]. *)
Lemma mem_url_renamed h attrs d nd :
  pythonize_items h attrs d = Ok nd ->
  Dict.mem "url" (Dict.of_list nd) = Dict.mem "url" d.
Proof.
  intros Hnd. unfold Dict.of_list. rewrite mem_update. simpl.
  apply Bool.eq_iff_eq_true. rewrite !mem_keys.
  apply pythonize_items_keys in Hnd. unfold Dict.keys at 1. rewrite Hnd.
  rewrite list_elem_of_fmap. split.
  - intros (k & Hk & Hin). symmetry in Hk. apply new_key_url in Hk. by subst k.
  - intros Hin. by exists "url".
Qed.

Lemma mem_url_fields P :
  Dict.mem "url" (Dict.del "options" (Dict.del "variants" P)) = Dict.mem "url" P.
Proof. by rewrite !mem_del_ne. Qed.

(** What [process_provider] returns has a [url] where one was given. *)
Lemma process_provider_url h0 h attrs dl D name p P o O rec h1 :
  h0 `prefix_of` h ->
  h0 !! dl = Some (ODict D) ->
  Dict.get name D = Some (VRef p) ->
  h0 !! p = Some (ODict P) ->
  Dict.get "options" P = Some (VRef o) ->
  h0 !! o = Some (ODict O) ->
  unique_keys h ->
  process_provider (VRef dl) name (State h (Some attrs))
    = (Ok rec, State h1 (Some attrs)) ->
  url_as_supplied (length h) h0 P O h1 rec.
Proof.
  intros Hpre Hdl Hname Hp Hopt Ho Hu Hrun.
  pose proof (prefix_lookup_Some _ _ _ _ Hdl Hpre) as Hdl'.
  pose proof (prefix_lookup_Some _ _ _ _ Hp Hpre) as Hp'.
  pose proof (prefix_lookup_Some _ _ _ _ Ho Hpre) as Ho'.
  assert (Hplain :
    Dict.get "variants" P = None \/ Dict.get "variants" P = Some VNone ->
    exists lr R,
      rec = VRef lr /\ length h <= lr /\ h1 !! lr = Some (ODict R) /\
      Dict.mem "url" R = (Dict.mem "url" P || Dict.mem "url" O)).
  { intros Hvar.
    rewrite (process_provider_plain h _ dl D name p P o O) in Hrun by done.
    apply pythonize_data_inv in Hrun as (a & items & nd & Ha & Hitems & Hnd & -> & Hs).
    cbn [st_heap ATTRIBUTIONS dict_items] in *.
    rewrite lookup_snoc in Hitems.
    assert (items = Dict.set "name" (VStr name)
              (Dict.update (Dict.del "options" (Dict.del "variants" P)) O))
      as -> by congruence.
    assert (h1 = ((h ++ [ODict (Dict.del "options" (Dict.del "variants" P))]) ++
                  [ODict (Dict.set "name" (VStr name)
                     (Dict.update (Dict.del "options" (Dict.del "variants" P)) O))])
                 ++ [ODict (Dict.of_list nd)]) as -> by congruence.
    eexists _, _. split; [done|]. split; [rewrite !length_app; lia|].
    split; [apply lookup_snoc|].
    rewrite (mem_url_renamed _ _ _ _ Hnd).
    by rewrite mem_set, mem_update, mem_url_fields. }
  unfold url_as_supplied.
  destruct (Dict.get "variants" P) as [[| | | | |vl]|] eqn:Hvar; try done;
    [apply Hplain; by right| |apply Hplain; by left].
  clear Hplain. intros V HV.
  pose proof (prefix_lookup_Some _ _ _ _ HV Hpre) as HV'.
  rewrite (process_provider_variants h _ dl D name p P o O vl V) in Hrun by done.
  set (fields := Dict.del "options" (Dict.del "variants" P)) in *.
  set (base := Dict.update fields O) in *.
  set (pk := length (h ++ [ODict fields])) in *.
  set (hp := (h ++ [ODict fields]) ++ [ODict base]) in *.
  apply bind_inv in Hrun as ([] & s1 & Hloop & Hret).
  assert (Hpre0 : h `prefix_of` hp).
  { unfold hp. rewrite <- app_assoc. by apply prefix_app_r. }
  assert (Hpk : hp !! pk = Some (ODict base)) by (unfold hp, pk; apply lookup_snoc).
  assert (HndV : NoDup (Dict.keys V)) by by eapply Hu.
  destruct (variants_loop name (VRef vl) pk base (length hp) attrs hp Hpk (le_n _)
              (Dict.keys V) (hp ++ [ODict []]) [] s1)
    as (h' & G & -> & Hpre' & HG & Hkeys & _ & _ & Hrecs);
    [by apply prefix_app_r|apply lookup_snoc|done
    |intros k _; apply not_elem_of_nil|done|].
  injection Hret as <- <-.
  pose proof (prefix_length _ _ Hpre0) as Hlen.
  exists (length hp), G. split; [done|]. split; [done|]. split; [done|].
  intros variant var vk Hget Hvk.
  assert (variant ∈ Dict.keys V) as Hin by by eapply elem_keys, get_Some_elem.
  destruct (Hrecs _ Hin)
    as (var' & hb & hv & lvk & vk' & nd & lr & Hpb & Hgetv & Hkeys' & Hlvk
        & Hpm & Hnd & HgetG & _ & Hle & Hlr).
  assert (Hvl' : hb !! vl = Some (ODict V)).
  { eapply prefix_lookup_Some; [|exact Hpb]. by eapply prefix_lookup_Some. }
  rewrite (getitem_run _ _ _ V) in Hgetv by done. rewrite Hget in Hgetv.
  assert (var' = var) as -> by congruence.
  destruct (variant_keys_of_mapping h0 hb (Some attrs) var vk Hvk) as [hv' Hvk'].
  { exact (transitivity Hpre (transitivity Hpre0 Hpb)). }
  rewrite Hkeys' in Hvk'.
  assert (lvk = length hv') as -> by congruence.
  assert (hv = hv' ++ [ODict vk]) as -> by congruence.
  rewrite lookup_snoc in Hlvk.
  assert (vk' = vk) as -> by congruence.
  exists lr, (Dict.of_list nd). split; [done|]. split; [lia|]. split; [done|].
  rewrite (mem_url_renamed _ _ _ _ Hnd), mem_set, mem_update.
  unfold base, fields. by rewrite mem_update, mem_url_fields.
Qed.

Lemma url_as_supplied_weaken n m h0 P O h rec :
  m <= n -> url_as_supplied n h0 P O h rec -> url_as_supplied m h0 P O h rec.
Proof.
  intros Hle. unfold url_as_supplied.
  destruct (Dict.get "variants" P) as [[| | | | |vl]|]; try done.
  - intros (lr & R & ? & ? & ? & ?). exists lr, R. repeat split; [done|lia|done..].
  - intros H V HV. destruct (H V HV) as (lg & G & ? & ? & ? & Hall).
    exists lg, G. split; [done|]. split; [lia|]. split; [done|].
    intros variant var vk Hget Hvk.
    destruct (Hall variant var vk Hget Hvk) as (lr & R & ? & ? & ? & ?).
    exists lr, R. repeat split; [done|lia|done..].
  - intros (lr & R & ? & ? & ? & ?). exists lr, R. repeat split; [done|lia|done..].
Qed.

(** A property of objects at [n] or later holds on when only an object
    before [n] changes. *)
Lemma url_as_supplied_stable n res h0 P O h h' rec :
  res < n ->
  (forall l o, l <> res -> h !! l = Some o -> h' !! l = Some o) ->
  url_as_supplied n h0 P O h rec -> url_as_supplied n h0 P O h' rec.
Proof.
  intros Hres Hframe. unfold url_as_supplied.
  assert (Hkeep : forall l o, n <= l -> h !! l = Some o -> h' !! l = Some o).
  { intros l o Hl. apply Hframe. lia. }
  destruct (Dict.get "variants" P) as [[| | | | |vl]|]; try done.
  - intros (lr & R & ? & ? & ? & ?). exists lr, R. repeat split; [done..|by apply Hkeep|done].
  - intros H V HV. destruct (H V HV) as (lg & G & ? & ? & ? & Hall).
    exists lg, G. split; [done|]. split; [done|]. split; [by apply Hkeep|].
    intros variant var vk Hget Hvk.
    destruct (Hall variant var vk Hget Hvk) as (lr & R & ? & ? & ? & ?).
    exists lr, R. repeat split; [done..|by apply Hkeep|done].
  - intros (lr & R & ? & ? & ? & ?). exists lr, R. repeat split; [done..|by apply Hkeep|done].
Qed.

End Supplied.

(** When [process_data] returns, it returns a new mapping with one
    entry per provider of the catalog, in the catalog's order; an entry
    is a record or a mapping of records, objects created by the call. *)
Lemma process_data_records (data : pyval) (s : state) (r : pyval) (s' : state) :
  unique_keys (st_heap s) ->
  process_data data s = (Ok r, s') ->
  exists dl D l C,
    data = VRef dl /\
    st_heap s !! dl = Some (ODict D) /\
    r = VRef l /\
    st_heap s !! l = None /\
    st_heap s' !! l = Some (ODict C) /\
    Dict.keys C = Dict.keys D /\
    Forall (fun kv => entry_at (length (st_heap s)) (st_heap s') kv.2) C.
Proof.
  destruct s as [h a]. cbn [st_heap]. intros Hu Hrun.
  unfold process_data in Hrun.
  apply bind_inv in Hrun as (osm & s0 & Hattr & Hrun).
  apply attribution_of_inv in Hattr as (-> & dl & D & -> & Hdl).
  apply bind_inv in Hrun as (esri & s0 & Hattr & Hrun).
  apply attribution_of_inv in Hattr as (-> & _).
  apply bind_inv in Hrun as (oms & s0 & Hattr & Hrun).
  apply attribution_of_inv in Hattr as (-> & _).
  rewrite (bind_run _ _ _ _ _ (new_dict_run h a _)) in Hrun.
  set (table := [("{attribution.OpenStreetMap}", osm);
                 ("{attribution.Esri}", esri);
                 ("{attribution.OpenMapSurfer}", oms)]) in *.
  unfold bind at 1 in Hrun. cbn [set_ATTRIBUTIONS st_heap] in Hrun.
  rewrite (bind_run _ _ _ _ _ (new_dict_run (h ++ [ODict table]) _ [])) in Hrun.
  set (ht := h ++ [ODict table]) in *.
  assert (Hdl' : (ht ++ [ODict []]) !! dl = Some (ODict D)).
  { unfold ht. by do 2 apply lookup_app_l_Some. }
  rewrite (bind_run _ _ _ _ _ (iter_keys_run _ _ dl D Hdl')) in Hrun.
  apply bind_inv in Hrun as ([] & s2 & Hloop & Hret). injection Hret as <- <-.
  assert (Hlen : length (ht ++ [ODict []]) = S (S (length h))).
  { unfold ht. rewrite !length_app. simpl. lia. }
  assert (Hlent : length ht = S (length h)).
  { unfold ht. rewrite length_app. simpl. lia. }
  destruct (providers_loop (VRef dl) (length ht) (VRef (length h))
              (length (ht ++ [ODict []])) ltac:(lia)
              (Dict.keys D) (ht ++ [ODict []]) [] s2)
    as (h' & C & -> & HC & Hkeys & Hall); try done.
  - apply unique_keys_snoc; [|constructor]. apply unique_keys_snoc; [done|].
    by_evaluation.
  - apply lookup_snoc.
  - by eapply Hu.
  - intros k _. apply not_elem_of_nil.
  - exists dl, D, (length ht), C. cbn [st_heap].
    split; [done|]. split; [done|]. split; [done|].
    split; [apply lookup_ge_None_2; lia|]. split; [done|]. split; [done|].
    eapply Forall_impl; [exact Hall|]. intros kv.
    apply entry_at_weaken. lia.
Qed.


(** ** The record of the one-provider catalog *)

(** Wherever the entry of the one-provider catalog lies in a catalog,
    [process_provider] makes the stated record of it, a new object. *)
Lemma process_provider_osm (h0 h : heap) attrs dl D p o rec h1 :
  h0 `prefix_of` h ->
  h0 !! dl = Some (ODict D) ->
  Dict.get "OpenStreetMap" D = Some (VRef p) ->
  h0 !! p = Some (ODict (osm_entry_at o)) ->
  h0 !! o = Some (ODict osm_options) ->
  process_provider (VRef dl) "OpenStreetMap" (State h (Some attrs))
    = (Ok rec, State h1 (Some attrs)) ->
  exists lr, rec = VRef lr /\ length h <= lr /\ h1 !! lr = Some (ODict osm_fields).
Proof.
  intros Hpre Hdl Hname Hp Ho Hrun.
  pose proof (prefix_lookup_Some _ _ _ _ Hdl Hpre) as Hdl'.
  pose proof (prefix_lookup_Some _ _ _ _ Hp Hpre) as Hp'.
  pose proof (prefix_lookup_Some _ _ _ _ Ho Hpre) as Ho'.
  pose proof (process_provider_plain h (Some attrs) dl D "OpenStreetMap" p
                (osm_entry_at o) o osm_options Hdl' Hname Hp'
                (or_introl eq_refl) eq_refl Ho') as Heq.
  cbn zeta in Heq.
  change (Dict.del "options" (Dict.del "variants" (osm_entry_at o)))
    with [("url", VStr "http://tile/{z}/{x}/{y}.png")] in Heq.
  set (merged := Dict.set "name" (VStr "OpenStreetMap") (Dict.update _ osm_options)) in Heq.
  rewrite Heq, pythonize_data_run in Hrun.
  cbn [st_heap ATTRIBUTIONS dict_items] in Hrun. rewrite lookup_snoc in Hrun.
  assert (Hnd : forall hh, pythonize_items hh attrs merged =
                           Ok [("url", VStr "http://tile/{z}/{x}/{y}.png");
                               ("max_zoom", VInt 19);
                               ("attribution", VStr osm_attribution);
                               ("name", VStr "OpenStreetMap")])
    by (intros hh; reflexivity).
  rewrite Hnd in Hrun. injection Hrun as <- <-.
  eexists. split; [done|]. split; [rewrite !length_app; lia|].
  apply lookup_snoc.
Qed.

(** C1 (as amended).  With the attribution table in place, whatever it
    holds, [process_provider] turns the entry of the one-provider
    catalog into the stated record: the same four fields (in the order
    url, max_zoom, attribution, name).  Whatever else a catalog holds
    beside this entry, when [process_data] returns, what it returns has
    exactly this record under [OpenStreetMap].  And it does return on
    the catalog that has the entries of Esri and OpenMapSurfer beside
    it, with the three records shown. *)
Theorem osm_only_normalized :
  (forall table,
     normalize_provider table osm_only "OpenStreetMap" = Ok (Some osm_record)) /\
  (exists members, osm_record = JObj members /\ members ≡ₚ osm_record_claimed) /\
  (forall (s : state) (dl p o : loc) (D : pydict) (r : pyval) (s' : state),
     unique_keys (st_heap s) ->
     st_heap s !! dl = Some (ODict D) ->
     Dict.get "OpenStreetMap" D = Some (VRef p) ->
     st_heap s !! p = Some (ODict (osm_entry_at o)) ->
     st_heap s !! o = Some (ODict osm_options) ->
     process_data (VRef dl) s = (Ok r, s') ->
     exists l C lr,
       r = VRef l /\
       st_heap s' !! l = Some (ODict C) /\
       Dict.get "OpenStreetMap" C = Some (VRef lr) /\
       st_heap s' !! lr = Some (ODict osm_fields) /\
       dump 8 (st_heap s') (VRef lr) = Some osm_record) /\
  normalize three_providers =
  Ok (Some (JObj [("OpenStreetMap", osm_record);
                  ("Esri",
                   JObj [("url", JStr "https://esri/{z}/{y}/{x}");
                         ("attribution", JStr "Tiles by Esri");
                         ("name", JStr "Esri")]);
                  ("OpenMapSurfer",
                   JObj [("url", JStr "https://oms/{z}/{x}/{y}.png");
                         ("attribution", JStr "Imagery from GIScience");
                         ("name", JStr "OpenMapSurfer")])])).
Proof.
  split; [|split; [|split]].
  - intros table. vm_compute. reflexivity.
  - eexists. split; [reflexivity|]. symmetry.
    exact (Permutation_cons_append
             [("url", JStr "http://tile/{z}/{x}/{y}.png");
              ("max_zoom", JInt 19);
              ("attribution", JStr osm_attribution)]
             ("name", JStr "OpenStreetMap")).
  - intros s dl p o D r s' Hu Hdl Hname Hp Ho Hrun.
    destruct (process_data_entries (VRef dl) s r s'
                (fun k h rec =>
                   k = "OpenStreetMap" ->
                   exists lr, rec = VRef lr /\ S (S (length (st_heap s))) <= lr /\
                              h !! lr = Some (ODict osm_fields)) Hu Hrun)
      as (dl' & D' & C & Hd & Hdl' & -> & HC & Hent).
    + intros k h h' v HQ Hframe Hk. destruct (HQ Hk) as (lr & -> & Hle & Hlr).
      exists lr. split; [done|]. split; [done|]. apply Hframe; [lia|done].
    + intros k h rec h1 Hpre Hu' Hlt Hprov ->.
      destruct (process_provider_osm (st_heap s) h _ dl D p o rec h1
                  Hpre Hdl Hname Hp Ho Hprov) as (lr & -> & Hle & Hlr).
      exists lr. split; [done|]. split; [lia|done].
    + assert (dl' = dl) as -> by congruence.
      assert (D' = D) as -> by congruence.
      destruct (Hent "OpenStreetMap") as (rec & Hrec & HQ).
      { by eapply elem_keys, get_Some_elem. }
      destruct (HQ eq_refl) as (lr & -> & _ & Hlr).
      exists (S (length (st_heap s))), C, lr.
      split; [done|]. split; [done|]. split; [done|]. split; [done|].
      cbn [dump]. rewrite Hlr. reflexivity.
  - vm_compute. reflexivity.
Qed.

Lemma osm_only_normalized_witness :
  exists l C lr,
    VRef 8 = VRef l /\
    st_heap (process_data (VRef 6) three_loaded.2).2 !! l = Some (ODict C) /\
    Dict.get "OpenStreetMap" C = Some (VRef lr) /\
    st_heap (process_data (VRef 6) three_loaded.2).2 !! lr = Some (ODict osm_fields) /\
    dump 8 (st_heap (process_data (VRef 6) three_loaded.2).2) (VRef lr)
      = Some osm_record.
Proof.
  apply (proj1 (proj2 (proj2 osm_only_normalized))
           three_loaded.2 6 1 0
           [("OpenStreetMap", VRef 1); ("Esri", VRef 3); ("OpenMapSurfer", VRef 5)]
           (VRef 8) (process_data (VRef 6) three_loaded.2).2).
  - unique_store 7.
  - reflexivity.
  - reflexivity.
  - reflexivity.
  - reflexivity.
  - vm_compute. reflexivity.
Defined.

(** C8 (as amended).  When [process_data] returns, it returns a new
    mapping with one entry per provider of the catalog, in the
    catalog's order.  An entry is a record or a mapping of records, all
    of them objects created by the call, and every record has a [name]
    that is a string and, if its attribution is a string, no
    ["{attribution."] left in it.  A record has a [url] exactly when
    one was supplied: by the provider's fields or its options and, for
    the record of a variant, also by the variant's mapping. *)
Theorem records_have_name (data : pyval) (s : state) (r : pyval) (s' : state) :
  unique_keys (st_heap s) ->
  process_data data s = (Ok r, s') ->
  exists dl D l C,
    data = VRef dl /\
    st_heap s !! dl = Some (ODict D) /\
    r = VRef l /\
    st_heap s !! l = None /\
    st_heap s' !! l = Some (ODict C) /\
    Dict.keys C = Dict.keys D /\
    Forall (fun kv => entry_at (length (st_heap s)) (st_heap s') kv.2) C /\
    forall name p P o O,
      Dict.get name D = Some (VRef p) ->
      st_heap s !! p = Some (ODict P) ->
      Dict.get "options" P = Some (VRef o) ->
      st_heap s !! o = Some (ODict O) ->
      exists rec,
        Dict.get name C = Some rec /\
        url_as_supplied (length (st_heap s)) (st_heap s) P O (st_heap s') rec.
Proof.
  intros Hu Hrun.
  destruct (process_data_records data s r s' Hu Hrun)
    as (dl & D & l & C & -> & Hdl & -> & Hnone & HC & Hkeys & Hall).
  exists dl, D, l, C.
  split; [done|]. split; [done|]. split; [done|]. split; [done|].
  split; [done|]. split; [done|]. split; [done|].
  destruct (process_data_entries (VRef dl) s (VRef l) s'
              (fun k h rec =>
                 forall p P o O,
                   Dict.get k D = Some (VRef p) ->
                   st_heap s !! p = Some (ODict P) ->
                   Dict.get "options" P = Some (VRef o) ->
                   st_heap s !! o = Some (ODict O) ->
                   url_as_supplied (S (S (length (st_heap s)))) (st_heap s) P O h rec) Hu Hrun)
    as (dl' & D' & C' & Hd & Hdl' & Hl & HC' & Hent).
  - intros k h h' v HQ Hframe p P o O Hk Hp Hopt Ho.
    eapply (url_as_supplied_stable _ (S (length (st_heap s)))); [lia|exact Hframe|by eapply HQ].
  - intros k h rec h1 Hpre Hu' Hlt Hprov p P o O Hk Hp Hopt Ho.
    eapply (url_as_supplied_weaken (length h)); [lia|].
    exact (process_provider_url (st_heap s) h _ dl D k p P o O rec h1
             Hpre Hdl Hk Hp Hopt Ho Hu' Hprov).
  - assert (dl' = dl) as -> by congruence.
    assert (D' = D) as -> by congruence.
    assert (l = S (length (st_heap s))) as -> by congruence.
    assert (C' = C) as -> by congruence.
    intros name p P o O Hname Hp Hopt Ho.
    destruct (Hent name) as (rec & Hrec & HQ).
    { by eapply elem_keys, get_Some_elem. }
    exists rec. split; [done|].
    eapply (url_as_supplied_weaken (S (S (length (st_heap s))))); [lia|]. by eapply HQ.
Qed.

Lemma records_have_name_witness :
  exists dl D l C,
    VRef 6 = VRef dl /\
    st_heap three_loaded.2 !! dl = Some (ODict D) /\
    VRef 8 = VRef l /\
    st_heap three_loaded.2 !! l = None /\
    st_heap (process_data (VRef 6) three_loaded.2).2 !! l = Some (ODict C) /\
    Dict.keys C = Dict.keys D /\
    Forall (fun kv => entry_at (length (st_heap three_loaded.2))
                        (st_heap (process_data (VRef 6) three_loaded.2).2) kv.2) C /\
    forall name p P o O,
      Dict.get name D = Some (VRef p) ->
      st_heap three_loaded.2 !! p = Some (ODict P) ->
      Dict.get "options" P = Some (VRef o) ->
      st_heap three_loaded.2 !! o = Some (ODict O) ->
      exists rec,
        Dict.get name C = Some rec /\
        url_as_supplied (length (st_heap three_loaded.2)) (st_heap three_loaded.2)
          P O (st_heap (process_data (VRef 6) three_loaded.2).2) rec.
Proof.
  apply (records_have_name (VRef 6) three_loaded.2 (VRef 8)
           (process_data (VRef 6) three_loaded.2).2).
  - unique_store 7.
  - vm_compute. reflexivity.
Defined.

Lemma variant_state_unique : unique_keys (st_heap variant_state).
Proof. unique_store 7. Defined.

Lemma provider_with_variants_witness :
  let base := Dict.update (Dict.del "options" (Dict.del "variants" variant_entry))
                variant_options in
  exists l G,
    VRef 9 = VRef l /\
    st_heap variant_state !! l = None /\
    st_heap (process_provider (VRef 5) "Maps" variant_state).2 !! l = Some (ODict G) /\
    Dict.keys G = Dict.keys sample_variants /\
    forall variant var, Dict.get variant sample_variants = Some var ->
      exists vk lr nd hi,
        variant_mapping (st_heap variant_state) var = Some vk /\
        Dict.get variant G = Some (VRef lr) /\
        st_heap (process_provider (VRef 5) "Maps" variant_state).2 !! lr
          = Some (ODict (Dict.of_list nd)) /\
        let merged :=
          Dict.set "name" (VStr ("Maps" +:+ "." +:+ variant)) (Dict.update base vk) in
        (forall k, k <> "name" ->
           Dict.get k merged =
           match Dict.get k vk with Some v => Some v | None => Dict.get k base end) /\
        st_heap variant_state `prefix_of` hi /\
        pythonize_items hi (VRef 6) merged = Ok nd /\
        Dict.get "name" (Dict.of_list nd) = Some (VStr ("Maps" +:+ "." +:+ variant)).
Proof.
  apply (provider_with_variants variant_state 5 4 0 3 variant_catalog variant_entry
           variant_options sample_variants "Maps" (VRef 6) (VRef 9)).
  - exact variant_state_unique.
  - reflexivity.
  - reflexivity.
  - reflexivity.
  - reflexivity.
  - reflexivity.
  - reflexivity.
  - reflexivity.
  - intros variant var. cbn [Dict.get sample_variants].
    destruct (String.eqb variant "Roads"); [intros [= <-]; by eexists|].
    destruct (String.eqb variant "Topo"); [intros [= <-]; by eexists|done].
  - reflexivity.
  - vm_compute. reflexivity.
Defined.

(** * Further properties of the script *)

(** ** Failures of the normalizer on incomplete catalogs *)

Section Incomplete.

Implicit Types (h : heap) (a : option pyval) (D P O : pydict) (name : string).

Lemma attribution_of_missing h a dl D name :
  h !! dl = Some (ODict D) ->
  Dict.get name D = None ->
  attribution_of (VRef dl) name (State h a) = (Raise (KeyError name), State h a).
Proof.
  intros Hdl Hname. unfold attribution_of.
  apply bind_raise. rewrite (getitem_run _ _ _ D) by done. by rewrite Hname.
Qed.

End Incomplete.

(** X1.  [process_data] reads the attributions of OpenStreetMap, Esri
    and OpenMapSurfer, in this order, before anything else.  When the
    catalog has no entry for one of them, and the attributions of the
    ones before it can be read, the call raises [KeyError] with that
    name and leaves the state as it was: no object is created and the
    global [ATTRIBUTIONS] is not assigned. *)
Theorem process_data_needs_table_providers (s : state) (dl : loc) (D : pydict)
    (before after : list string) (name : string) :
  st_heap s !! dl = Some (ODict D) ->
  table_providers = before ++ name :: after ->
  Forall (fun n => exists x, attribution_of (VRef dl) n s = (Ok x, s)) before ->
  Dict.get name D = None ->
  process_data (VRef dl) s = (Raise (KeyError name), s).
Proof.
  destruct s as [h a]. cbn [st_heap]. intros Hdl Hsplit Hbefore Hname.
  pose proof (attribution_of_missing h a dl D name Hdl Hname) as Hmiss.
  unfold table_providers in Hsplit. unfold process_data.
  destruct before as [|b1 [|b2 [|b3 before]]]; simplify_eq/=.
  - by apply bind_raise.
  - apply Forall_cons in Hbefore as [[x1 H1] _].
    rewrite (bind_run _ _ _ _ _ H1). by apply bind_raise.
  - apply Forall_cons in Hbefore as [[x1 H1] Hbefore].
    apply Forall_cons in Hbefore as [[x2 H2] _].
    rewrite (bind_run _ _ _ _ _ H1), (bind_run _ _ _ _ _ H2). by apply bind_raise.
  - by destruct before.
Qed.

Lemma process_data_needs_table_providers_witness :
  process_data (VRef 2) osm_state = (Raise (KeyError "Esri"), osm_state).
Proof.
  apply (process_data_needs_table_providers osm_state 2 osm_catalog
           ["OpenStreetMap"] ["OpenMapSurfer"] "Esri").
  - reflexivity.
  - reflexivity.
  - constructor; [|constructor]. by eexists.
  - reflexivity.
Defined.

(** X2.  [process_provider] takes the [options] of a provider with
    [pop("options")], without a default: a provider that has no
    [options] makes it raise [KeyError("options")], also when the
    provider has variants that carry options of their own.  The objects
    of the catalog are left as they are. *)
Theorem process_provider_needs_options (s : state) (dl p : loc) (D P : pydict)
    (name : string) :
  st_heap s !! dl = Some (ODict D) ->
  Dict.get name D = Some (VRef p) ->
  st_heap s !! p = Some (ODict P) ->
  Dict.get "options" P = None ->
  (process_provider (VRef dl) name s).1 = Raise (KeyError "options") /\
  forall l o, st_heap s !! l = Some o ->
              st_heap (process_provider (VRef dl) name s).2 !! l = Some o.
Proof.
  destruct s as [h a]. cbn [st_heap]. intros Hdl Hname Hp Hopt.
  assert (Hrun : exists P',
    process_provider (VRef dl) name (State h a) =
    (Raise (KeyError "options"), State (h ++ [ODict P']) a)).
  { unfold process_provider.
    rewrite (bind_run _ _ _ (VRef p) (State h a))
      by (rewrite (getitem_run _ _ _ D) by done; by rewrite Hname).
    rewrite (bind_run _ _ _ _ _ (copy_run h a p _ Hp)).
    exists (Dict.del "variants" P).
    destruct (Dict.get "variants" P) as [variants|] eqn:Hvar.
    - rewrite (bind_run _ _ _ variants
                 (State (h ++ [ODict (Dict.del "variants" P)]) a)).
      2:{ rewrite (pop_default_run _ _ _ P) by apply lookup_snoc.
          rewrite Hvar. by rewrite insert_snoc. }
      apply bind_raise.
      rewrite (pop_run _ _ _ (Dict.del "variants" P)) by apply lookup_snoc.
      by rewrite get_del_ne, Hopt by done.
    - rewrite (bind_run _ _ _ VNone (State (h ++ [ODict P]) a)).
      2:{ rewrite (pop_default_run _ _ _ P) by apply lookup_snoc. by rewrite Hvar. }
      rewrite del_absent by done. apply bind_raise.
      rewrite (pop_run _ _ _ P) by apply lookup_snoc. by rewrite Hopt. }
  destruct Hrun as [P' ->]. split; [done|].
  intros l o Hl. cbn [snd st_heap]. by apply lookup_app_l_Some.
Qed.

Lemma process_provider_needs_options_witness :
  (process_provider (VRef 2) "Bare" bare_state).1 = Raise (KeyError "options") /\
  forall l o, st_heap bare_state !! l = Some o ->
              st_heap (process_provider (VRef 2) "Bare" bare_state).2 !! l = Some o.
Proof.
  apply (process_provider_needs_options bare_state 2 0
           [("Bare", VRef 0)]
           [("url", VStr "https://bare/{z}/{x}/{y}.png"); ("variants", VRef 1)]
           "Bare"); reflexivity.
Defined.

(** ** What renaming does to the other fields *)

Section Carried.

Implicit Types (h : heap) (attrs v : pyval) (d : pydict) (k key : string).

Lemma pythonize_items_app h attrs (d1 : pydict) key v (d2 : pydict) nd :
  pythonize_items h attrs (d1 ++ (key, v) :: d2) = Ok nd ->
  exists nd1 kv nd2,
    nd = nd1 ++ kv :: nd2 /\
    pythonize_item h attrs key v = Ok kv /\
    pythonize_items h attrs d2 = Ok nd2.
Proof.
  revert nd. induction d1 as [|[k1 v1] d1 IH]; intros nd; cbn [app pythonize_items].
  - destruct (pythonize_item h attrs key v) as [kv|]; [|done]. cbn [obind].
    destruct (pythonize_items h attrs d2) as [nd2|]; [|done]. cbn [obind].
    intros [= <-]. by exists [], kv, nd2.
  - destruct (pythonize_item h attrs k1 v1) as [kv1|]; [|done]. cbn [obind].
    destruct (pythonize_items h attrs (d1 ++ (key, v) :: d2)) as [nd'|]; [|done].
    cbn [obind]. intros [= <-].
    destruct (IH nd' eq_refl) as (nd1 & kv & nd2 & -> & Hkv & Hnd2).
    by exists (kv1 :: nd1), kv, nd2.
Qed.

Lemma update_app d (d1 d2 : pydict) :
  Dict.update d (d1 ++ d2) = Dict.update (Dict.update d d1) d2.
Proof. unfold Dict.update. by rewrite fold_left_app. Qed.

Lemma get_of_list_last (nd1 nd2 : list (string * pyval)) k v :
  k ∉ map fst nd2 ->
  Dict.get k (Dict.of_list (nd1 ++ (k, v) :: nd2)) = Some v.
Proof.
  intros Hk. unfold Dict.of_list. rewrite update_app.
  change ((k, v) :: nd2) with ([(k, v)] ++ nd2). rewrite update_app.
  rewrite get_update_notin by done. cbn. apply get_set_eq.
Qed.

(** An item the loop body has nothing to do with comes out under its
    new key with the value it had. *)
Lemma pythonize_item_plain h attrs key v :
  (key = "attribution" ->
   exists x, v = VStr x /\ str_in "{attribution." x = false) ->
  (key = "url" ->
   exists u, v = VStr u /\ str_in "maxZoom" u = false /\ str_in "minZoom" u = false) ->
  pythonize_item h attrs key v = Ok (new_key key, v).
Proof.
  intros Hattr Hurl. unfold pythonize_item.
  destruct (String.eqb_spec key "attribution") as [->|Hna].
  - destruct (Hattr eq_refl) as (x & -> & Hx). cbn [py_in obind]. by rewrite Hx.
  - unfold rename_item, new_key.
    destruct (rename_of key rename_keys) as [new|]; [done|].
    destruct (String.eqb_spec key "url") as [->|Hnu]; [|done].
    destruct (Hurl eq_refl) as (u & -> & Hmax & Hmin).
    cbn [any_in rename_keys py_in obind]. by rewrite Hmax, Hmin.
Qed.

End Carried.

(** X3.  [pythonize_data] carries the fields over.  An item of the
    record comes out under its key, renamed if the key is [maxZoom] or
    [minZoom], with the very value it had (a container is not copied),
    when no later item of the record ends under the same key; a later
    item that does is the one the result keeps.  The two fields the
    function rewrites are carried unchanged when there is nothing to
    rewrite in them: an attribution without ["{attribution."], a url
    that mentions neither [maxZoom] nor [minZoom]. *)
Theorem pythonize_data_carries_values (s : state) (l : loc) (d1 d2 : pydict)
    (key : string) (v r : pyval) (s' : state) :
  st_heap s !! l = Some (ODict (d1 ++ (key, v) :: d2)) ->
  (forall k, k ∈ Dict.keys d2 -> new_key k <> new_key key) ->
  (key = "attribution" ->
   exists x, v = VStr x /\ str_in "{attribution." x = false) ->
  (key = "url" ->
   exists u, v = VStr u /\ str_in "maxZoom" u = false /\ str_in "minZoom" u = false) ->
  pythonize_data (VRef l) s = (Ok r, s') ->
  exists l' R,
    r = VRef l' /\
    st_heap s' !! l' = Some (ODict R) /\
    Dict.get (new_key key) R = Some v.
Proof.
  intros Hl Hlater Hattr Hurl Hrun.
  apply pythonize_data_inv in Hrun as (attrs & items & nd & Ha & Hitems & Hnd & -> & ->).
  cbn [dict_items] in Hitems. rewrite Hl in Hitems. injection Hitems as <-.
  apply pythonize_items_app in Hnd as (nd1 & kv & nd2 & -> & Hkv & Hnd2).
  rewrite (pythonize_item_plain _ _ _ _ Hattr Hurl) in Hkv. injection Hkv as <-.
  eexists _, _. split; [done|]. cbn [st_heap]. split; [apply lookup_snoc|].
  apply get_of_list_last.
  rewrite (pythonize_items_keys _ _ _ _ Hnd2).
  intros (k & Hk & Hin)%list_elem_of_fmap. by apply (Hlater k).
Qed.

Lemma pythonize_data_carries_values_witness :
  exists l' R,
    VRef 2 = VRef l' /\
    st_heap (pythonize_data (VRef 1) sample_state).2 !! l' = Some (ODict R) /\
    Dict.get (new_key "maxZoom") R = Some (VInt 19).
Proof.
  apply (pythonize_data_carries_values sample_state 1
           [("url", VStr "https://tiles/{variant}/{maxZoom}/{z}/{x}/{y}.png")]
           [("attribution", VStr "Data by {attribution.OpenStreetMap}");
            ("name", VStr "Sample")]
           "maxZoom" (VInt 19) (VRef 2) (pythonize_data (VRef 1) sample_state).2).
  - reflexivity.
  - intros k Hk. cbn in Hk.
    do 2 (apply elem_of_cons in Hk as [->|Hk]; [done|]).
    by apply elem_of_nil in Hk.
  - done.
  - done.
  - vm_compute. reflexivity.
Defined.

(** ** A provider with nothing to iterate over *)

(** X4.  A provider whose [variants] is an empty mapping or an empty
    list is not a provider without variants: [process_provider] returns
    a new, empty mapping for it, whatever its other fields and options
    are, and does not look at [ATTRIBUTIONS], which may still be
    unbound. *)
Theorem provider_with_empty_variants (s : state) (dl p o vl : loc)
    (D P O : pydict) (name : string) :
  st_heap s !! dl = Some (ODict D) ->
  Dict.get name D = Some (VRef p) ->
  st_heap s !! p = Some (ODict P) ->
  Dict.get "variants" P = Some (VRef vl) ->
  st_heap s !! vl = Some (ODict []) \/ st_heap s !! vl = Some (OList []) ->
  Dict.get "options" P = Some (VRef o) ->
  st_heap s !! o = Some (ODict O) ->
  exists l s',
    process_provider (VRef dl) name s = (Ok (VRef l), s') /\
    st_heap s !! l = None /\
    st_heap s' !! l = Some (ODict []) /\
    ATTRIBUTIONS s' = ATTRIBUTIONS s.
Proof.
  destruct s as [h a]. cbn [st_heap ATTRIBUTIONS].
  intros Hdl Hname Hp Hvar Hvl Hopt Ho.
  set (fields := Dict.del "options" (Dict.del "variants" P)).
  set (hp := (h ++ [ODict fields]) ++ [ODict (Dict.update fields O)]).
  exists (length hp), (State (hp ++ [ODict []]) a).
  split; [|split; [|split; [apply lookup_snoc|done]]].
  - unfold process_provider.
    rewrite (bind_run _ _ _ (VRef p) (State h a))
      by (rewrite (getitem_run _ _ _ D) by done; by rewrite Hname).
    rewrite (bind_run _ _ _ _ _ (copy_run h a p _ Hp)).
    rewrite (bind_run _ _ _ (VRef vl) (State (h ++ [ODict (Dict.del "variants" P)]) a)).
    2:{ rewrite (pop_default_run _ _ _ P) by apply lookup_snoc.
        rewrite Hvar. by rewrite insert_snoc. }
    rewrite (bind_run _ _ _ (VRef o) (State (h ++ [ODict fields]) a)).
    2:{ rewrite (pop_run _ _ _ (Dict.del "variants" P)) by apply lookup_snoc.
        rewrite get_del_ne by done. rewrite Hopt. by rewrite insert_snoc. }
    rewrite (bind_run _ _ _ _ _
      (merge_run _ a (length h) o fields O (lookup_snoc _ _)
         (lookup_app_l_Some _ _ _ _ Ho))).
    cbn iota. fold hp.
    rewrite (bind_run _ _ _ _ _ (new_dict_run hp a [])).
    rewrite (bind_run _ _ _ [] (State (hp ++ [ODict []]) a)); [done|].
    unfold iter_keys, reading. cbn [st_heap].
    assert (Hext : forall ob, h !! vl = Some ob -> (hp ++ [ODict []]) !! vl = Some ob).
    { intros ob Hob. unfold hp. by do 3 apply lookup_app_l_Some. }
    by destruct Hvl as [Hvl|Hvl]; rewrite (Hext _ Hvl).
  - apply lookup_ge_None_2. unfold hp. rewrite !length_app. simpl. lia.
Qed.

Lemma provider_with_empty_variants_witness :
  exists l s',
    process_provider (VRef 3) "Hollow" hollow_state = (Ok (VRef l), s') /\
    st_heap hollow_state !! l = None /\
    st_heap s' !! l = Some (ODict []) /\
    ATTRIBUTIONS s' = ATTRIBUTIONS hollow_state.
Proof.
  apply (provider_with_empty_variants hollow_state 3 2 0 1
           [("Hollow", VRef 2)]
           [("url", VStr "https://hollow/{variant}/{z}/{x}/{y}.png");
            ("options", VRef 0); ("variants", VRef 1)]
           [("maxZoom", VInt 12)] "Hollow"); try reflexivity.
  left. reflexivity.
Defined.

(** ** The attribution table a run leaves behind *)

(** X5.  Once the three attributions have been read, [process_data]
    binds the global [ATTRIBUTIONS] to a new mapping with exactly the
    three placeholders, in this order, each with the attribution read
    for it.  The binding and the mapping are the same when the call is
    over, whether it returned or was ended by an exception raised for
    one of the providers. *)
Theorem process_data_binds_table (data : pyval) (s : state) (osm esri oms : pyval) :
  unique_keys (st_heap s) ->
  attribution_of data "OpenStreetMap" s = (Ok osm, s) ->
  attribution_of data "Esri" s = (Ok esri, s) ->
  attribution_of data "OpenMapSurfer" s = (Ok oms, s) ->
  let s' := (process_data data s).2 in
  let lt := length (st_heap s) in
  ATTRIBUTIONS s' = Some (VRef lt) /\
  st_heap s' !! lt = Some (ODict [("{attribution.OpenStreetMap}", osm);
                                  ("{attribution.Esri}", esri);
                                  ("{attribution.OpenMapSurfer}", oms)]).
Proof.
  destruct s as [h a]. cbn [st_heap]. intros Hu Hosm Hesri Homs.
  set (table := [("{attribution.OpenStreetMap}", osm);
                 ("{attribution.Esri}", esri);
                 ("{attribution.OpenMapSurfer}", oms)]).
  set (s1 := State (h ++ [ODict table]) (Some (VRef (length h)))).
  set (rest := fun s : state =>
    (result <- new_dict [] ;;
     providers <- iter_keys data ;;
     for_each providers (fun provider =>
       record <- process_provider data provider ;;
       setitem result provider record) ;;;
     ret result) s).
  assert (Hrun : process_data data (State h a) = rest s1).
  { unfold process_data.
    rewrite (bind_run _ _ _ _ _ Hosm), (bind_run _ _ _ _ _ Hesri),
            (bind_run _ _ _ _ _ Homs).
    by rewrite (bind_run _ _ _ _ _ (new_dict_run h a _)). }
  rewrite Hrun. cbn zeta. split.
  - assert (Hgood : good (Some (VRef (length h))) s1).
    { split; [|done]. apply unique_keys_snoc; [done|]. by_evaluation. }
    assert (Hm : maintains (Some (VRef (length h))) rest).
    { apply maintains_bind; [apply maintains_new_dict; constructor|intros result].
      apply maintains_bind; [apply maintains_reading|intros providers].
      apply maintains_bind; [|intros; apply maintains_ret].
      apply maintains_for_each. intros provider.
      apply maintains_bind; [apply maintains_process_provider|intros record].
      apply maintains_setitem. }
    apply (Hm s1 Hgood).
  - assert (Hk : keeps (h ++ [ODict table]) rest (fun _ => True)).
    { apply (keeps_bind _ _ _ (fresh (h ++ [ODict table])));
        [apply keeps_new_dict|intros result Hres].
      apply (keeps_bind _ _ _ (fun _ => True)); [apply keeps_iter_keys|intros keys _].
      apply (keeps_bind _ _ _ (fun _ => True)); [|intros; by apply keeps_ret].
      apply keeps_for_each. intros provider.
      apply (keeps_bind _ _ _ (fresh (h ++ [ODict table])));
        [apply keeps_process_provider|intros rec _].
      by apply keeps_setitem. }
    destruct (Hk s1) as [Hpre _]; [done|].
    eapply prefix_lookup_Some; [|exact Hpre]. apply lookup_snoc.
Qed.

Lemma process_data_binds_table_witness :
  let s' := (process_data (VRef 6) three_loaded.2).2 in
  let lt := length (st_heap three_loaded.2) in
  ATTRIBUTIONS s' = Some (VRef lt) /\
  st_heap s' !! lt = Some (ODict [("{attribution.OpenStreetMap}", VStr osm_attribution);
                                  ("{attribution.Esri}", VStr "Tiles by Esri");
                                  ("{attribution.OpenMapSurfer}",
                                   VStr "Imagery from GIScience")]).
Proof.
  apply (process_data_binds_table (VRef 6) three_loaded.2).
  - unique_store 7.
  - reflexivity.
  - reflexivity.
  - reflexivity.
Defined.

(** ** Records of the rendered module: attributes and repeated calls *)

Section Derive.

Implicit Types (h : heap) (a : option pyval) (d e : pydict) (k key : string)
  (v : pyval).

Lemma Bunch_getattr_run h a l d key :
  h !! l = Some (ODict d) ->
  Bunch_getattr (VRef l) key (State h a) =
  (match Dict.get key d with Some x => Ok x | None => Raise AttributeError end,
   State h a).
Proof.
  intros Hl. unfold Bunch_getattr. rewrite (getitem_run _ _ _ d) by done.
  by destruct (Dict.get key d).
Qed.

Lemma TileProvider_call_run h a l d e :
  h !! l = Some (ODict d) ->
  Dict.mem "self" e = false ->
  TileProvider_call (VRef l) e (State h a) =
  (Ok (VRef (length h)), State (h ++ [ODict (Dict.update d e)]) a).
Proof.
  intros Hl Hself.
  unfold TileProvider_call. rewrite Hself.
  unfold bind, reading, new_dict, alloc, update, store, ret.
  cbn [dict_items st_heap ATTRIBUTIONS]. rewrite Hl.
  cbn [st_heap ATTRIBUTIONS]. rewrite lookup_snoc. by rewrite insert_snoc.
Qed.

Lemma set_set k v v' d : Dict.set k v (Dict.set k v' d) = Dict.set k v d.
Proof.
  induction d as [|[k1 v1] d IH]; simpl.
  - by rewrite String.eqb_refl.
  - destruct (String.eqb k k1) eqn:Heq; simpl; rewrite Heq; [done|by rewrite IH].
Qed.

Lemma set_comm k v k1 v1 d :
  k <> k1 -> k ∈ Dict.keys d ->
  Dict.set k v (Dict.set k1 v1 d) = Dict.set k1 v1 (Dict.set k v d).
Proof.
  intros Hne. induction d as [|[k2 v2] d IH]; simpl; intros Hin.
  - by apply elem_of_nil in Hin.
  - destruct (String.eqb_spec k k2) as [->|Hk2].
    + destruct (String.eqb_spec k1 k2) as [->|_]; [done|].
      simpl. rewrite String.eqb_refl.
      by destruct (String.eqb_spec k1 k2).
    + apply elem_of_cons in Hin as [?|Hin]; [done|].
      destruct (String.eqb_spec k1 k2) as [->|Hk12]; simpl.
      * destruct (String.eqb_spec k k2); [done|]. by rewrite String.eqb_refl.
      * destruct (String.eqb_spec k k2); [done|].
        destruct (String.eqb_spec k1 k2); [done|]. by rewrite IH.
Qed.

Lemma set_update_comm k v d e :
  k ∈ Dict.keys d -> k ∉ Dict.keys e ->
  Dict.set k v (Dict.update d e) = Dict.update (Dict.set k v d) e.
Proof.
  revert d. induction e as [|[k1 v1] e IH]; intros d Hd He; [done|].
  apply not_elem_of_cons in He as [Hne He].
  change (Dict.update d ((k1, v1) :: e)) with (Dict.update (Dict.set k1 v1 d) e).
  change (Dict.update (Dict.set k v d) ((k1, v1) :: e))
    with (Dict.update (Dict.set k1 v1 (Dict.set k v d)) e).
  rewrite IH; [|rewrite keys_set; destruct (Dict.mem k1 d);
                 [done|apply elem_of_app; by left]|done].
  by rewrite set_comm.
Qed.

Lemma update_set k v d e :
  NoDup (Dict.keys e) ->
  Dict.update d (Dict.set k v e) = Dict.set k v (Dict.update d e).
Proof.
  revert d. induction e as [|[k1 v1] e IH]; intros d Hnd; [done|].
  apply NoDup_cons in Hnd as [Hk1 Hnd]. simpl.
  change (Dict.update d ((k1, v1) :: e)) with (Dict.update (Dict.set k1 v1 d) e).
  destruct (String.eqb_spec k k1) as [->|Hne].
  - change (Dict.update d ((k1, v) :: e)) with (Dict.update (Dict.set k1 v d) e).
    rewrite set_update_comm; [by rewrite set_set| |done].
    rewrite keys_set. destruct (Dict.mem k1 d) eqn:Hmem.
    + unfold Dict.mem in Hmem. apply dec_stable. intros Hn.
      apply get_None_keys in Hn. by rewrite Hn in Hmem.
    + apply elem_of_app. right. by apply list_elem_of_singleton.
  - change (Dict.update d ((k1, v1) :: Dict.set k v e))
      with (Dict.update (Dict.set k1 v1 d) (Dict.set k v e)).
    by apply IH.
Qed.

(** Two updates in a row are one update with the merged overrides. *)
Lemma update_update d e1 e2 :
  NoDup (Dict.keys e1) ->
  Dict.update (Dict.update d e1) e2 = Dict.update d (Dict.update e1 e2).
Proof.
  revert e1. induction e2 as [|[k v] e2 IH]; intros e1 Hnd; [done|].
  change (Dict.update e1 ((k, v) :: e2)) with (Dict.update (Dict.set k v e1) e2).
  change (Dict.update (Dict.update d e1) ((k, v) :: e2))
    with (Dict.update (Dict.set k v (Dict.update d e1)) e2).
  rewrite <- IH by by apply NoDup_keys_set. by rewrite update_set.
Qed.

End Derive.

(** X6.  Attribute access on a derived record.  When [new] is
    [record] called with the keyword arguments [kwargs], none of them
    named [self], reading an attribute of [new] through [__getattr__]
    gives the override when [kwargs] has one for that name, the item of
    [record] when it has one, and raises [AttributeError] (never
    [KeyError]) when neither has; reading it on [record] still gives
    what [record] had. *)
Theorem derived_record_attributes (s : state) (l : loc) (items kwargs : pydict)
    (key : string) :
  st_heap s !! l = Some (ODict items) ->
  NoDup (Dict.keys kwargs) ->
  Dict.mem "self" kwargs = false ->
  exists new s',
    TileProvider_call (VRef l) kwargs s = (Ok new, s') /\
    Bunch_getattr new key s' =
      (match Dict.get key kwargs, Dict.get key items with
       | Some v, _ => Ok v
       | None, Some v => Ok v
       | None, None => Raise AttributeError
       end, s') /\
    Bunch_getattr (VRef l) key s' =
      (match Dict.get key items with
       | Some v => Ok v
       | None => Raise AttributeError
       end, s').
Proof.
  destruct s as [h a]. cbn [st_heap]. intros Hl Hnd Hself.
  eexists _, _. split; [by apply TileProvider_call_run|]. split.
  - rewrite (Bunch_getattr_run _ _ _ (Dict.update items kwargs)) by apply lookup_snoc.
    rewrite get_update by done.
    by destruct (Dict.get key kwargs), (Dict.get key items).
  - by rewrite (Bunch_getattr_run _ _ _ items) by by apply lookup_app_l_Some.
Qed.

Lemma derived_record_attributes_witness :
  exists new s',
    TileProvider_call (VRef 1) [("max_zoom", VInt 5)] sample_state = (Ok new, s') /\
    Bunch_getattr new "max_zoom" s' = (Ok (VInt 5), s') /\
    Bunch_getattr (VRef 1) "max_zoom" s' = (Raise AttributeError, s').
Proof.
  apply (derived_record_attributes sample_state 1 sample_record
           [("max_zoom", VInt 5)] "max_zoom").
  - reflexivity.
  - by_evaluation.
  - reflexivity.
Defined.

(** X7.  Deriving twice is deriving once with the merged overrides:
    calling [record] with the keywords [a] and the result with the
    keywords [b], no keyword named [self], gives a record with the
    same items, in the same order, as calling [record] with [b] merged
    over [a]. *)
Theorem derived_twice (s : state) (l : loc) (items a b : pydict) :
  st_heap s !! l = Some (ODict items) ->
  NoDup (Dict.keys a) ->
  Dict.mem "self" a = false ->
  Dict.mem "self" b = false ->
  exists l1 s1 l2 s2 l3 s3 items',
    TileProvider_call (VRef l) a s = (Ok (VRef l1), s1) /\
    TileProvider_call (VRef l1) b s1 = (Ok (VRef l2), s2) /\
    TileProvider_call (VRef l) (Dict.update a b) s = (Ok (VRef l3), s3) /\
    st_heap s2 !! l2 = Some (ODict items') /\
    st_heap s3 !! l3 = Some (ODict items').
Proof.
  destruct s as [h g]. cbn [st_heap]. intros Hl Hnd Ha Hb.
  eexists _, _, _, _, _, _, _.
  split; [by apply TileProvider_call_run|].
  split; [apply TileProvider_call_run; [apply lookup_snoc|done]|].
  split; [apply TileProvider_call_run; [done|by rewrite mem_update, Ha, Hb]|].
  cbn [st_heap]. split; [apply lookup_snoc|].
  rewrite update_update by done. apply lookup_snoc.
Qed.

Lemma derived_twice_witness :
  exists l1 s1 l2 s2 l3 s3 items',
    TileProvider_call (VRef 1) [("max_zoom", VInt 5)] sample_state
      = (Ok (VRef l1), s1) /\
    TileProvider_call (VRef l1) [("name", VStr "Mine"); ("max_zoom", VInt 7)] s1
      = (Ok (VRef l2), s2) /\
    TileProvider_call (VRef 1)
      (Dict.update [("max_zoom", VInt 5)] [("name", VStr "Mine"); ("max_zoom", VInt 7)])
      sample_state = (Ok (VRef l3), s3) /\
    st_heap s2 !! l2 = Some (ODict items') /\
    st_heap s3 !! l3 = Some (ODict items').
Proof.
  apply (derived_twice sample_state 1 sample_record).
  - reflexivity.
  - by_evaluation.
  - reflexivity.
  - reflexivity.
Defined.

(** ** Text: joining, splitting into lines and indenting *)

Section Text.

Implicit Types (s t u line prefix sep : string) (c : ascii)
  (lines xs : list string) (bytes : list Z) (table : list (list Z)).

Lemma append_nil_r s : s +:+ "" = s.
Proof. induction s as [|c s IH]; [done|]. simpl. by rewrite IH. Qed.

Lemma join_cons sep s xs :
  xs <> [] -> join sep (s :: xs) = s +:+ sep +:+ join sep xs.
Proof. by destruct xs. Qed.

Lemma join_empty_cons s xs : join "" (s :: xs) = s +:+ join "" xs.
Proof. destruct xs; simpl; [by rewrite append_nil_r|done]. Qed.

Lemma join_singleton sep s : join sep [s] = s.
Proof. done. Qed.

(** *** One line *)

Lemma compatible_app bytes s t :
  compatible bytes s = false -> compatible bytes (s +:+ t) = false.
Proof.
  revert s. induction bytes as [|b bytes IH]; intros [|c s]; simpl; try done.
  destruct (code c =? b)%Z; simpl; [apply IH|done].
Qed.

Lemma may_break_app table s t :
  existsb (fun bytes => compatible bytes s) table = false ->
  existsb (fun bytes => compatible bytes (s +:+ t)) table = false.
Proof.
  induction table as [|bytes table IH]; simpl; [done|].
  intros [H1 H2]%orb_false_iff. by rewrite compatible_app, IH.
Qed.

Lemma one_line_app s t :
  one_line s = true -> one_line t = true -> one_line (s +:+ t) = true.
Proof.
  intros Hs Ht. induction s as [|c s IH]; [done|].
  cbn [one_line] in Hs. apply andb_true_iff in Hs as [Hc Hs].
  change (String c s +:+ t) with (String c (s +:+ t)).
  cbn [one_line]. rewrite IH by done. rewrite andb_true_r.
  apply negb_true_iff in Hc. apply negb_true_iff.
  by apply (may_break_app _ (String c s)).
Qed.

Lemma one_line_join sep xs :
  one_line sep = true -> Forall (fun x => one_line x = true) xs ->
  one_line (join sep xs) = true.
Proof.
  intros Hsep. induction 1 as [|x xs Hx Hxs IH]; [done|].
  destruct xs as [|y xs]; [done|]. rewrite join_cons by done.
  apply one_line_app; [done|]. by apply one_line_app.
Qed.

Lemma starts_compatible bytes s : starts bytes s = true -> compatible bytes s = true.
Proof.
  revert s. induction bytes as [|b bytes IH]; intros [|c s]; simpl; try done.
  intros [-> ?]%andb_true_iff. simpl. by apply IH.
Qed.

Lemma match_len_incompatible table s :
  existsb (fun bytes => compatible bytes s) table = false -> match_len table s = 0.
Proof.
  induction table as [|bytes table IH]; simpl; [done|].
  intros [H1 H2]%orb_false_iff.
  destruct (starts bytes s) eqn:Hst; [|by apply IH].
  apply starts_compatible in Hst. congruence.
Qed.

(** A string without a line boundary stays in the line of what follows
    it. *)
Lemma lines_one_line s t :
  one_line s = true -> lines_from 0 (s +:+ t) = push_all s (lines_from 0 t).
Proof.
  induction s as [|c s IH]; [done|]. intros Hs.
  cbn [one_line] in Hs. apply andb_true_iff in Hs as [Hc Hs].
  apply negb_true_iff in Hc.
  change (String c s +:+ t) with (String c (s +:+ t)).
  cbn [lines_from push_all].
  rewrite (match_len_incompatible _ (String c (s +:+ t)))
    by by apply (may_break_app _ (String c s)).
  by rewrite IH.
Qed.

Lemma push_all_cons s line lines :
  push_all s (line :: lines) = (s +:+ line) :: lines.
Proof. induction s as [|c s IH]; [done|]. simpl. by rewrite IH. Qed.

Lemma push_all_nil s : s <> "" -> push_all s [] = [s].
Proof.
  induction s as [|c s IH]; [done|]. intros _. simpl.
  destruct s as [|c' s]; [done|]. by rewrite IH.
Qed.

Lemma splitlines_one_line s :
  one_line s = true -> s <> "" -> splitlines s = [s].
Proof.
  intros Hs Hne. unfold splitlines.
  rewrite <- (append_nil_r s) at 1. rewrite lines_one_line by done.
  by apply push_all_nil.
Qed.

Lemma splitlines_first s t :
  one_line s = true ->
  splitlines (s +:+ nl +:+ t) = (s +:+ nl) :: splitlines t.
Proof.
  intros Hs. unfold splitlines. rewrite lines_one_line by done.
  change (lines_from 0 (nl +:+ t)) with (nl :: lines_from 0 t).
  by rewrite push_all_cons.
Qed.

(** *** Blank lines *)

Lemma starts_app_nl bytes c s :
  Forall (fun b => b <> 10%Z) (tail bytes) ->
  starts bytes (String c s +:+ nl) = starts bytes (String c s).
Proof.
  destruct bytes as [|b bytes]; [done|]. cbn [tail starts].
  change (String c s +:+ nl) with (String c (s +:+ nl)). cbn [starts].
  intros Htail. f_equal. revert s.
  induction Htail as [|b' bytes Hb' Htail IH]; intros s; [by destruct s|].
  destruct s as [|c' s].
  - cbn. change (code _) with 10%Z. by destruct (Z.eqb_spec 10 b') as [<-|].
  - change (String c' s +:+ nl) with (String c' (s +:+ nl)). cbn [starts].
    by rewrite IH.
Qed.

Lemma match_len_app_nl table c s :
  Forall (fun bytes => Forall (fun b => b <> 10%Z) (tail bytes)) table ->
  match_len table (String c s +:+ nl) = match_len table (String c s).
Proof.
  induction 1 as [|bytes table Hb Htable IH]; [done|].
  cbn [match_len]. rewrite starts_app_nl by done. by rewrite IH.
Qed.

Lemma whitespace_tails :
  Forall (fun bytes => Forall (fun b => b <> 10%Z) (tail bytes)) whitespace.
Proof. unfold whitespace. repeat constructor; done. Qed.

Lemma blank_from_app_nl skip s : blank_from skip (s +:+ nl) = blank_from skip s.
Proof.
  revert skip. induction s as [|c s IH]; intros skip.
  - by destruct skip as [|[|skip]].
  - destruct skip as [|skip].
    + change (String c s +:+ nl) with (String c (s +:+ nl)). cbn [blank_from].
      change (String c (s +:+ nl)) with (String c s +:+ nl).
      rewrite match_len_app_nl by apply whitespace_tails.
      destruct (match_len whitespace (String c s)); [done|apply IH].
    + change (String c s +:+ nl) with (String c (s +:+ nl)).
      cbn [blank_from]. apply IH.
Qed.

Lemma indent_line_nl prefix line :
  indent_line prefix (line +:+ nl) = indent_line prefix line +:+ nl.
Proof.
  unfold indent_line, blank. rewrite blank_from_app_nl.
  destruct (blank_from 0 line); [done|]. by rewrite app_assoc_str.
Qed.

(** Indenting a text given by its lines indents each of the lines. *)
Lemma indent_lines prefix lines :
  Forall (fun line => one_line line = true) lines ->
  indent (join nl lines) prefix = join nl (map (indent_line prefix) lines).
Proof.
  induction 1 as [|line lines Hline Hlines IH]; [done|].
  destruct lines as [|line' lines].
  - cbn [join map]. unfold indent.
    destruct line as [|c line]; [done|].
    rewrite splitlines_one_line by done. cbn [map]. apply join_singleton.
  - rewrite join_cons by done. unfold indent.
    rewrite splitlines_first by done. cbn [map].
    rewrite join_empty_cons, indent_line_nl.
    change (join "" (map (indent_line prefix) (splitlines (join nl (line' :: lines)))))
      with (indent (join nl (line' :: lines)) prefix).
    rewrite IH. by rewrite app_assoc_str.
Qed.

End Text.

(** ** The text of [repr] stays in its line *)

Section OneLine.

Implicit Types (s t : string) (c : ascii) (n cp z : Z).

Lemma code_chr n : (0 <= n < 256)%Z -> code (chr n) = n.
Proof.
  intros Hn. unfold code, chr. rewrite N_ascii_embedding; lia.
Qed.

Lemma code_range c : (0 <= code c < 256)%Z.
Proof.
  unfold code. pose proof (N_ascii_bounded c). lia.
Qed.

(** A character that begins none of the byte sequences. *)
Lemma first_byte_safe (table : list (list Z)) c s :
  Forall (fun bytes => match bytes with
                       | [] => False
                       | b :: _ => b <> code c
                       end) table ->
  existsb (fun bytes => compatible bytes (String c s)) table = false.
Proof.
  induction 1 as [|bytes table Hb _ IH]; [done|].
  cbn [existsb]. rewrite IH, orb_false_r.
  destruct bytes as [|b bytes]; [done|]. cbn [compatible].
  destruct (Z.eqb_spec (code c) b); [congruence|done].
Qed.

Lemma one_line_cons c s :
  (32 <= code c < 194 \/ 194 < code c < 226 \/ 226 < code c)%Z ->
  one_line s = true -> one_line (String c s) = true.
Proof.
  intros Hc Hs. cbn [one_line]. rewrite Hs, andb_true_r.
  apply negb_true_iff, first_byte_safe.
  unfold line_boundaries. repeat constructor; lia.
Qed.

Lemma one_line_plain s : plain s = true -> one_line s = true.
Proof.
  induction s as [|c s IH]; [done|]. cbn [plain].
  intros [Hc Hs]%andb_true_iff. apply one_line_cons; [|by apply IH].
  unfold printable_ascii in Hc. lia.
Qed.

Lemma one_line_char n : (32 <= n < 127)%Z -> one_line (char n) = true.
Proof.
  intros Hn. apply one_line_cons; [|done]. rewrite code_chr by lia. lia.
Qed.

Lemma one_line_hexdigit n : (0 <= n < 16)%Z -> one_line (hexdigit n) = true.
Proof.
  intros Hn. unfold hexdigit. destruct (n <? 10)%Z eqn:Hlt; apply one_line_char; lia.
Qed.

Lemma one_line_hex digits n : one_line (hex digits n) = true.
Proof.
  revert n. induction digits as [|digits IH]; intros n; [done|].
  cbn [hex]. apply one_line_app; [apply IH|].
  apply one_line_hexdigit. apply Z.mod_pos_bound. lia.
Qed.

Lemma one_line_lead_194 c1 c2 s :
  code c1 = 194%Z -> code c2 <> 133%Z ->
  one_line (String c2 s) = true -> one_line (String c1 (String c2 s)) = true.
Proof.
  intros H1 H2 Hs. cbn [one_line] in *. rewrite Hs, andb_true_r.
  cbn [existsb line_boundaries compatible]. rewrite H1. cbn.
  by destruct (Z.eqb_spec (code c2) 133).
Qed.

Lemma one_line_lead_226 c1 c2 c3 s :
  code c1 = 226%Z ->
  ~ (code c2 = 128%Z /\ (code c3 = 168%Z \/ code c3 = 169%Z)) ->
  one_line (String c2 (String c3 s)) = true ->
  one_line (String c1 (String c2 (String c3 s))) = true.
Proof.
  intros H1 H2 Hs. cbn [one_line] in *. rewrite Hs, andb_true_r.
  cbn [existsb line_boundaries compatible]. rewrite H1. cbn.
  destruct (Z.eqb_spec (code c2) 128); [|done]. cbn.
  destruct (Z.eqb_spec (code c3) 168); [tauto|].
  destruct (Z.eqb_spec (code c3) 169); [tauto|done].
Qed.

(** The encoding of a character that is not a line boundary holds no
    line boundary. *)
Lemma one_line_encode cp :
  (128 <= cp < 2097152)%Z -> cp <> 133%Z -> cp <> 8232%Z -> cp <> 8233%Z ->
  one_line (encode cp) = true.
Proof.
  intros Hcp H133 H8232 H8233. unfold encode.
  destruct (Z.ltb_spec cp 128); [lia|].
  assert (Hcont : forall n s, (0 <= n < 64)%Z -> one_line s = true ->
                              one_line (String (chr (128 + n)) s) = true).
  { intros n s Hn Hs. apply one_line_cons; [|done]. rewrite code_chr by lia. lia. }
  pose proof (Z.mod_pos_bound cp 64 ltac:(lia)) as Hm0.
  pose proof (Z.mod_pos_bound (cp / 64)%Z 64 ltac:(lia)) as Hm1.
  pose proof (Z.mod_pos_bound (cp / 4096)%Z 64 ltac:(lia)) as Hm2.
  destruct (Z.ltb_spec cp 2048); [|destruct (Z.ltb_spec cp 65536)].
  - assert (2 <= cp / 64 < 32)%Z by (split; [apply Z.div_le_lower_bound|
                                             apply Z.div_lt_upper_bound]; lia).
    cbn [char String.append].
    destruct (Z.eq_dec (cp / 64)%Z 2%Z) as [Heq|Hne].
    + apply one_line_lead_194; [rewrite code_chr by lia; lia| |by apply Hcont].
      rewrite code_chr by lia. pose proof (Z.div_mod cp 64 ltac:(lia)). lia.
    + apply one_line_cons; [rewrite code_chr by lia; lia|by apply Hcont].
  - assert (0 <= cp / 4096 < 16)%Z by (split; [apply Z.div_le_lower_bound|
                                               apply Z.div_lt_upper_bound]; lia).
    cbn [char String.append].
    destruct (Z.eq_dec (cp / 4096)%Z 2%Z) as [Heq|Hne].
    + apply one_line_lead_226; [rewrite code_chr by lia; lia| |by repeat (apply Hcont; [done|])].
      rewrite !code_chr by lia.
      pose proof (Z.div_mod cp 64 ltac:(lia)).
      pose proof (Z.div_mod (cp / 64)%Z 64 ltac:(lia)).
      assert (cp / 64 / 64 = cp / 4096)%Z by (rewrite Z.div_div by lia; done).
      lia.
    + apply one_line_cons; [rewrite code_chr by lia; lia|by repeat (apply Hcont; [done|])].
  - assert (0 <= cp / 262144 < 8)%Z by (split; [apply Z.div_le_lower_bound|
                                                apply Z.div_lt_upper_bound]; lia).
    cbn [char String.append].
    apply one_line_cons; [rewrite code_chr by lia; lia|by repeat (apply Hcont; [done|])].
Qed.

Lemma decode_from_range s need acc :
  (need = 0 \/
   (need = 1 /\ (0 <= acc < 32768)%Z) \/
   (need = 2 /\ (0 <= acc < 512)%Z) \/
   (need = 3 /\ (0 <= acc < 8)%Z)) ->
  Forall (fun cp => (0 <= cp < 2097152)%Z) (decode_from need acc s).
Proof.
  revert need acc. induction s as [|c s IH]; intros need acc Hneed; [constructor|].
  pose proof (code_range c) as Hc.
  assert (Hland : forall k, (0 <= k)%Z ->
                            (0 <= Z.land (code c) (Z.ones k) < 2 ^ k)%Z).
  { intros k Hk. rewrite Z.land_ones by done. apply Z.mod_pos_bound. lia. }
  pose proof (Hland 6%Z ltac:(lia)) as H6. pose proof (Hland 5%Z ltac:(lia)) as H5.
  pose proof (Hland 4%Z ltac:(lia)) as H4. pose proof (Hland 3%Z ltac:(lia)) as H3.
  change (Z.ones 6) with 63%Z in H6. change (Z.ones 5) with 31%Z in H5.
  change (Z.ones 4) with 15%Z in H4. change (Z.ones 3) with 7%Z in H3.
  change (2 ^ 6)%Z with 64%Z in H6. change (2 ^ 5)%Z with 32%Z in H5.
  change (2 ^ 4)%Z with 16%Z in H4. change (2 ^ 3)%Z with 8%Z in H3.
  cbn [decode_from]. cbv zeta.
  destruct Hneed as [->|[[-> Hacc]|[[-> Hacc]|[-> Hacc]]]].
  - destruct (Z.ltb_spec (code c) 128).
    { constructor; [lia|]. apply IH. by left. }
    destruct (Z.ltb_spec (code c) 224); [apply IH; right; left; lia|].
    destruct (Z.ltb_spec (code c) 240); [apply IH; right; right; left; lia|].
    apply IH. right. right. right. lia.
  - constructor; [lia|]. apply IH. by left.
  - apply IH. right. left. lia.
  - apply IH. right. right. left. lia.
Qed.

Lemma decode_range s : Forall (fun cp => (0 <= cp < 2097152)%Z) (decode s).
Proof. apply decode_from_range. by left. Qed.

Lemma plain_digits d : plain (DecimalString.NilEmpty.string_of_uint d) = true.
Proof. induction d; simpl; try done. Qed.

Lemma one_line_repr_int z : one_line (repr_int z) = true.
Proof.
  unfold repr_int, DecimalString.NilZero.string_of_int,
    DecimalString.NilZero.string_of_uint.
  apply one_line_plain.
  destruct (Z.to_int z) as [d|d].
  - destruct d; try done; cbn [DecimalString.NilEmpty.string_of_uint plain];
      by rewrite plain_digits.
  - cbn [plain]. rewrite andb_true_l.
    destruct d; try done; cbn [DecimalString.NilEmpty.string_of_uint plain];
      by rewrite plain_digits.
Qed.

Section Values.

Context `{Interpreter}.
Hypothesis Hsafe : line_safe.

Lemma one_line_repr_char quote ch :
  quote = 34%Z \/ quote = 39%Z -> (0 <= ch < 2097152)%Z ->
  one_line (repr_char quote ch) = true.
Proof.
  intros Hq Hch. destruct Hsafe as (_ & H133 & H8232 & H8233).
  assert (Hesc : forall t, one_line t = true -> one_line (backslash +:+ t) = true).
  { intros t Ht. by apply one_line_app. }
  unfold repr_char.
  destruct ((ch =? quote) || (ch =? 92))%Z eqn:Hspecial.
  { apply Hesc, one_line_char. apply orb_true_iff in Hspecial. lia. }
  destruct (Z.eqb_spec ch 9); [by apply Hesc|].
  destruct (Z.eqb_spec ch 10); [by apply Hesc|].
  destruct (Z.eqb_spec ch 13); [by apply Hesc|].
  destruct ((ch <? 32) || (ch =? 127))%Z eqn:Hctl.
  { apply Hesc. apply (one_line_app "x"); [done|apply one_line_hex]. }
  apply orb_false_iff in Hctl as [Hlow Hdel].
  destruct (Z.ltb_spec ch 127); [apply one_line_char; lia|].
  destruct (isprintable ch) eqn:Hprint.
  { apply one_line_encode; [lia|congruence..]. }
  destruct (ch <=? 255)%Z;
    [|destruct (ch <=? 65535)%Z]; apply Hesc;
    (apply (one_line_app "x") || apply (one_line_app "u") || apply (one_line_app "U"));
    done || apply one_line_hex.
Qed.

Lemma one_line_repr_str s : one_line (repr_str s) = true.
Proof.
  unfold repr_str. cbv zeta.
  set (quote := if _ : bool then 34%Z else 39%Z).
  assert (Hq : quote = 34%Z \/ quote = 39%Z).
  { unfold quote. destruct (_ && _); auto. }
  assert (Hc : one_line (char quote) = true) by (destruct Hq as [->| ->]; done).
  apply one_line_app; [done|]. apply one_line_app; [|done].
  apply one_line_join; [done|]. apply Forall_fmap.
  eapply Forall_impl; [apply decode_range|]. intros ch Hch.
  by apply one_line_repr_char.
Qed.

End Values.

End OneLine.

(** ** Lists of computations *)

Section Sequence.

Context {A B : Type}.
Implicit Types (f g : A -> outcome B) (xs : list A) (ys : list B).

Lemma sequence_map_cons f x xs :
  sequence (map f (x :: xs)) =
  (do y <- f x; do ys <- sequence (map f xs); Ok (y :: ys)).
Proof. done. Qed.

Lemma sequence_map_Forall (P : B -> Prop) f xs ys :
  (forall x y, x ∈ xs -> f x = Ok y -> P y) ->
  sequence (map f xs) = Ok ys -> Forall P ys.
Proof.
  revert ys. induction xs as [|x xs IH]; intros ys HP.
  - intros [= <-]. constructor.
  - rewrite sequence_map_cons.
    destruct (f x) as [y|] eqn:Hy; [|done]. cbn [obind].
    destruct (sequence (map f xs)) as [ys'|]; [|done]. cbn [obind].
    intros [= <-]. constructor.
    + apply (HP x); [apply list_elem_of_here|done].
    + apply IH; [|done]. intros x' y' Hin. apply HP. by apply list_elem_of_further.
Qed.

Lemma sequence_map_Ok f xs ys :
  Forall2 (fun x y => f x = Ok y) xs ys -> sequence (map f xs) = Ok ys.
Proof.
  induction 1 as [|x y xs ys Hxy _ IH]; [done|].
  rewrite sequence_map_cons, Hxy. cbn [obind]. by rewrite IH.
Qed.

Lemma sequence_map_total f xs :
  Forall (fun x => exists y, f x = Ok y) xs ->
  exists ys, sequence (map f xs) = Ok ys.
Proof.
  induction 1 as [|x xs [y Hy] _ [ys IH]]; [by exists []|].
  exists (y :: ys). rewrite sequence_map_cons, Hy. cbn [obind]. by rewrite IH.
Qed.

Lemma sequence_map_raise f (before : list A) x after e :
  Forall (fun x => exists y, f x = Ok y) before ->
  f x = Raise e ->
  sequence (map f (before ++ x :: after)) = Raise e.
Proof.
  intros Hbefore Hx. induction Hbefore as [|x0 before [y Hy] _ IH].
  - cbn [app]. by rewrite sequence_map_cons, Hx.
  - cbn [app]. rewrite sequence_map_cons, Hy. cbn [obind]. by rewrite IH.
Qed.

Lemma sequence_map_ext f g xs :
  (forall x, x ∈ xs -> f x = g x) ->
  sequence (map f xs) = sequence (map g xs).
Proof.
  induction xs as [|x xs IH]; intros Hfg; [done|].
  rewrite !sequence_map_cons, Hfg by apply list_elem_of_here.
  rewrite IH; [done|]. intros x' Hin. apply Hfg. by apply list_elem_of_further.
Qed.

End Sequence.

(** ** [repr] of a value *)

#[local] Arguments repr_str : simpl never.
#[local] Arguments repr_int : simpl never.

Section ReprLines.

Context `{Interpreter}.
Hypothesis Hsafe : line_safe.

Implicit Types (h : heap) (v : pyval) (active : list loc) (r : string).

Lemma one_line_repr_fuel fuel h active v r :
  repr_fuel fuel h active v = Ok r -> one_line r = true.
Proof.
  revert active v r. induction fuel as [|fuel IH]; intros active v r;
    destruct v as [| [|] | z | bits | s | l]; cbn [repr_fuel];
    try (intros [= <-];
         first [done | apply one_line_repr_int | apply Hsafe
               | by apply one_line_repr_str]).
  - destruct (h !! l) as [o|]; [|done].
    destruct (existsb (Nat.eqb l) active); [|done].
    intros [= <-]. by destruct o.
  - destruct (h !! l) as [o|]; [|done].
    destruct (existsb (Nat.eqb l) active); [intros [= <-]; by destruct o|].
    destruct o as [items|elems].
    + destruct (sequence _) as [parts|] eqn:Hparts; [|done]. cbn [obind].
      intros [= <-].
      apply (one_line_app "{"); [done|]. apply one_line_app; [|done].
      apply one_line_join; [done|].
      eapply sequence_map_Forall; [|exact Hparts].
      intros kv y _ Hy. unfold obind in Hy.
      destruct (repr_fuel fuel h (l :: active) kv.2) as [rx|] eqn:Hrx; [|done].
      assert (y = repr_str kv.1 +:+ ": " +:+ rx) as -> by congruence.
      apply one_line_app; [by apply one_line_repr_str|].
      apply (one_line_app ": "); [done|]. by eapply IH.
    + destruct (sequence _) as [parts|] eqn:Hparts; [|done]. cbn [obind].
      intros [= <-].
      apply (one_line_app "["); [done|]. apply one_line_app; [|done].
      apply one_line_join; [done|].
      eapply sequence_map_Forall; [|exact Hparts].
      intros x y _ Hy. by eapply IH.
Qed.

(** The text of a value holds no line boundary. *)
Lemma one_line_py_repr h v r : py_repr h v = Ok r -> one_line r = true.
Proof. apply one_line_repr_fuel. Qed.

End ReprLines.

(** ** Lines that are not blank *)

Section Blank.

Implicit Types (s t pre post : string) (c : ascii) (bytes : list Z)
  (table : list (list Z)).

Lemma inked_app s t : inked (s +:+ t) = inked s || inked t.
Proof.
  induction s as [|c s IH]; [done|].
  change (String c s +:+ t) with (String c (s +:+ t)). cbn [inked].
  by rewrite IH, orb_assoc.
Qed.

Lemma starts_split bytes s :
  starts bytes s = true ->
  Forall (fun b => (b <= 32 \/ 127 <= b)%Z) bytes ->
  exists pre post,
    s = pre +:+ post /\ String.length pre = length bytes /\ inked pre = false.
Proof.
  revert s. induction bytes as [|b bytes IH]; intros s Hs Hb.
  - by exists "", s.
  - destruct s as [|c s]; [done|]. cbn [starts] in Hs.
    apply andb_true_iff in Hs as [Hc Hs]. apply Z.eqb_eq in Hc.
    apply Forall_cons in Hb as [Hb Hbytes].
    destruct (IH s Hs Hbytes) as (pre & post & -> & Hlen & Hink).
    exists (String c pre), post. split; [done|]. split; [simpl; by rewrite Hlen|].
    cbn [inked]. rewrite Hink, orb_false_r. unfold visible.
    destruct (Z.ltb_spec 32 (code c)), (Z.ltb_spec (code c) 127); try done. lia.
Qed.

Lemma match_len_split table s k :
  Forall (Forall (fun b => (b <= 32 \/ 127 <= b)%Z)) table ->
  match_len table s = S k ->
  exists pre post,
    s = pre +:+ post /\ String.length pre = S k /\ inked pre = false.
Proof.
  induction 1 as [|bytes table Hb _ IH]; [done|]. cbn [match_len].
  destruct (starts bytes s) eqn:Hs; [|exact IH].
  intros Hlen. destruct (starts_split _ _ Hs Hb) as (pre & post & ? & ? & ?).
  exists pre, post. split; [done|]. split; [congruence|done].
Qed.

Lemma whitespace_bytes :
  Forall (Forall (fun b => (b <= 32 \/ 127 <= b)%Z)) whitespace.
Proof. by_evaluation. Qed.

Lemma blank_from_skip pre post :
  blank_from (String.length pre) (pre +:+ post) = blank_from 0 post.
Proof. induction pre as [|c pre IH]; [done|]. exact IH. Qed.

Lemma blank_not_inked s : blank s = true -> inked s = false.
Proof.
  unfold blank.
  assert (Hind : forall n s, String.length s <= n ->
                             blank_from 0 s = true -> inked s = false).
  { clear s. induction n as [|n IH]; intros s Hn.
    - destruct s; [done|simpl in Hn; lia].
    - destruct s as [|c s]; [done|]. cbn [blank_from].
      destruct (match_len whitespace (String c s)) as [|k] eqn:Hm; [done|].
      destruct (match_len_split _ _ _ whitespace_bytes Hm)
        as (pre & post & Heq & Hlen & Hink).
      destruct pre as [|c' pre]; [done|].
      injection Heq as <- ->. injection Hlen as <-.
      rewrite blank_from_skip. intros Hpost.
      cbn [inked]. rewrite inked_app. cbn [inked] in Hink. apply orb_false_iff in Hink as [-> ->].
      cbn [orb]. apply IH; [|done].
      cbn [String.length] in Hn. rewrite length_app_str in Hn. lia. }
  by apply (Hind (String.length s)).
Qed.

Lemma indent_line_inked prefix s :
  inked s = true -> indent_line prefix s = prefix +:+ s.
Proof.
  intros Hs. unfold indent_line.
  destruct (blank s) eqn:Hb; [|done].
  apply blank_not_inked in Hb. congruence.
Qed.

End Blank.

(** ** Joining lines and blocks of lines *)

Section Joining.

Implicit Types (s t sep pad prefix name : string) (xs ys lines b : list string)
  (bs : list (list string)).

Lemma join_app sep xs ys :
  xs <> [] -> ys <> [] ->
  join sep (xs ++ ys) = join sep xs +:+ sep +:+ join sep ys.
Proof.
  intros Hxs Hys. induction xs as [|x xs IH]; [done|].
  destruct xs as [|x' xs].
  - cbn [app]. by rewrite join_cons.
  - change ((x :: x' :: xs) ++ ys) with (x :: ((x' :: xs) ++ ys)).
    rewrite !join_cons by done. rewrite IH by done.
    by rewrite !app_assoc_str.
Qed.

Lemma commas_nonempty xs : xs <> [] -> commas xs <> [].
Proof. destruct xs as [|x [|y xs]]; done. Qed.

(** The fields of a record, joined as [format_provider] joins them, are
    the lines of the fields. *)
Lemma items_lines (formatted : list string) :
  "    " +:+ join ("," +:+ nl +:+ "    ") formatted =
  join nl (match formatted with
           | [] => ["    "]
           | _ :: _ => map (fun f => "    " +:+ f) (commas formatted)
           end).
Proof.
  destruct formatted as [|f fs]; [done|].
  revert f. induction fs as [|g fs IH]; intros f; [done|].
  rewrite join_cons by done.
  change (commas (f :: g :: fs)) with ((f +:+ ",") :: commas (g :: fs)).
  cbn [map]. rewrite (join_cons nl).
  2:{ intros Hmap. apply map_eq_nil in Hmap. by apply (commas_nonempty (g :: fs)). }
  rewrite <- IH. by rewrite !app_assoc_str.
Qed.

Lemma comma_last_snoc xs x : comma_last (xs ++ [x]) = xs ++ [x +:+ ","].
Proof.
  induction xs as [|y xs IH]; [done|].
  cbn [app comma_last]. rewrite IH. by destruct xs.
Qed.

Lemma snoc_of (lines : list string) :
  lines <> [] -> exists init last, lines = init ++ [last].
Proof.
  induction lines as [|x xs IH]; [done|]. intros _.
  destruct xs as [|y xs]; [by exists [], x|].
  destruct IH as (init & last & ->); [done|]. by exists (x :: init), last.
Qed.

Lemma join_snoc sep xs x :
  xs <> [] -> join sep (xs ++ [x]) = join sep xs +:+ sep +:+ x.
Proof. intros Hxs. by rewrite join_app. Qed.

Lemma join_comma_last lines :
  lines <> [] -> join nl (comma_last lines) = join nl lines +:+ ",".
Proof.
  intros (init & last & ->)%snoc_of. rewrite comma_last_snoc.
  destruct init as [|x init]; [done|].
  rewrite !join_snoc by done. by rewrite !app_assoc_str.
Qed.

Lemma comma_last_nonempty lines : lines <> [] -> comma_last lines <> [].
Proof. destruct lines as [|x [|y xs]]; done. Qed.

Lemma blocks_nonempty bs :
  bs <> [] -> Forall (fun b => b <> []) bs -> blocks bs <> [].
Proof.
  destruct bs as [|b bs]; [done|]. intros _ [Hb Hbs]%Forall_cons.
  destruct bs as [|b' bs]; [done|]. cbn [blocks].
  intros Heq. apply app_eq_nil in Heq as [Heq _]. by apply (comma_last_nonempty b).
Qed.

(** Texts joined with a comma and a line boundary are the blocks of
    their lines. *)
Lemma join_blocks bs :
  Forall (fun b => b <> []) bs ->
  join ("," +:+ nl) (map (join nl) bs) = join nl (blocks bs).
Proof.
  induction 1 as [|b bs Hb Hbs IH]; [done|].
  destruct bs as [|b' bs]; [done|].
  change (map (join nl) (b :: b' :: bs))
    with (join nl b :: map (join nl) (b' :: bs)).
  rewrite join_cons by done. rewrite IH.
  change (blocks (b :: b' :: bs)) with (comma_last b ++ blocks (b' :: bs)).
  rewrite join_app;
    [|by apply comma_last_nonempty|by apply blocks_nonempty].
  rewrite join_comma_last by done. by rewrite !app_assoc_str.
Qed.

Lemma map_comma_last prefix lines :
  ends_inked lines ->
  map (indent_line prefix) (comma_last lines) =
  comma_last (map (indent_line prefix) lines).
Proof.
  intros (init & last & -> & Hlast).
  rewrite comma_last_snoc, !map_app. cbn [map]. rewrite comma_last_snoc.
  rewrite !indent_line_inked; [by rewrite app_assoc_str|done|].
  rewrite inked_app, Hlast. done.
Qed.

Lemma map_blocks prefix bs :
  Forall ends_inked bs ->
  map (indent_line prefix) (blocks bs) =
  blocks (map (map (indent_line prefix)) bs).
Proof.
  induction 1 as [|b bs Hb Hbs IH]; [done|].
  destruct bs as [|b' bs]; [done|].
  change (blocks (b :: b' :: bs)) with (comma_last b ++ blocks (b' :: bs)).
  rewrite map_app, IH, map_comma_last by done. done.
Qed.

Lemma one_line_comma_last lines :
  Forall (fun line => one_line line = true) lines ->
  Forall (fun line => one_line line = true) (comma_last lines).
Proof.
  induction 1 as [|x xs Hx Hxs IH]; [done|].
  destruct xs as [|y xs].
  - constructor; [by apply one_line_app|done].
  - by constructor.
Qed.

Lemma one_line_blocks bs :
  Forall (Forall (fun line => one_line line = true)) bs ->
  Forall (fun line => one_line line = true) (blocks bs).
Proof.
  induction 1 as [|b bs Hb Hbs IH]; [done|].
  destruct bs as [|b' bs]; [done|].
  change (blocks (b :: b' :: bs)) with (comma_last b ++ blocks (b' :: bs)).
  apply Forall_app. split; [by apply one_line_comma_last|done].
Qed.

End Joining.

(** ** The lines of records and of mappings of variants *)

#[local] Arguments py_repr : simpl never.

Section RecordLines.

Context `{Interpreter}.

Implicit Types (h : heap) (s pad prefix name : string) (f formatted : list string)
  (items fields : pydict) (bs : list (list string)).

Lemma inked_commas f :
  Forall (fun x => inked x = true) f -> Forall (fun x => inked x = true) (commas f).
Proof.
  induction 1 as [|x xs Hx Hxs IH]; [done|].
  destruct xs as [|y xs]; [by constructor|].
  change (commas (x :: y :: xs)) with ((x +:+ ",") :: commas (y :: xs)).
  constructor; [|done]. by rewrite inked_app, Hx.
Qed.

Lemma one_line_commas f :
  Forall (fun x => one_line x = true) f ->
  Forall (fun x => one_line x = true) (commas f).
Proof.
  induction 1 as [|x xs Hx Hxs IH]; [done|].
  destruct xs as [|y xs]; [by constructor|].
  change (commas (x :: y :: xs)) with ((x +:+ ",") :: commas (y :: xs)).
  constructor; [|done]. by apply one_line_app.
Qed.

Lemma record_layout_nonempty pad name f : record_layout pad name f <> [].
Proof. done. Qed.

Lemma record_layout_ends pad name f : ends_inked (record_layout pad name f).
Proof.
  unfold record_layout. eexists (_ :: _), _. split; [by rewrite app_comm_cons|].
  rewrite inked_app. by rewrite orb_true_r.
Qed.

Lemma one_line_record_layout pad name f :
  one_line pad = true -> one_line name = true ->
  Forall (fun x => one_line x = true) f ->
  Forall (fun line => one_line line = true) (record_layout pad name f).
Proof.
  intros Hpad Hname Hf. unfold record_layout. constructor.
  { apply one_line_app; [done|]. by apply one_line_app. }
  apply Forall_app. split; [|constructor; [by apply one_line_app|done]].
  destruct f as [|x f]; [by constructor|].
  apply Forall_fmap. eapply Forall_impl; [by apply one_line_commas|].
  intros y Hy. cbn. apply one_line_app; [done|]. by apply (one_line_app "    ").
Qed.

(** Indenting the lines of a record gives the lines of the record at
    the deeper indentation. *)
Lemma indent_record_layout prefix pad name f :
  Forall (fun x => inked x = true) f ->
  map (indent_line prefix) (record_layout pad name f) =
  record_layout (prefix +:+ pad) name f.
Proof.
  intros Hf. unfold record_layout. cbn [map]. rewrite map_app. cbn [map].
  rewrite (indent_line_inked _ (pad +:+ name +:+ " = TileProvider("))
    by (rewrite !inked_app; cbn; by rewrite !orb_true_r).
  rewrite (indent_line_inked _ (pad +:+ ")"))
    by (rewrite inked_app; cbn; by rewrite orb_true_r).
  rewrite !app_assoc_str. f_equal. f_equal.
  destruct f as [|x f]; [done|].
  rewrite map_map. apply map_ext_in. intros y Hy.
  rewrite indent_line_inked; [by rewrite !app_assoc_str|].
  rewrite !inked_app.
  apply inked_commas in Hf. rewrite Forall_forall in Hf.
  rewrite (Hf y); [by rewrite !orb_true_r|]. by apply list_elem_of_In.
Qed.

Lemma format_items_inked h items f :
  format_items h items = Ok f -> Forall (fun x => inked x = true) f.
Proof.
  apply sequence_map_Forall. intros kv y _ Hy. unfold obind in Hy.
  destruct (py_repr h kv.2) as [r|]; [|done].
  assert (y = kv.1 +:+ " = " +:+ r) as -> by congruence.
  rewrite !inked_app. cbn. by rewrite orb_true_r.
Qed.

Lemma format_items_one_line h items f :
  line_safe ->
  Forall (fun kv => one_line kv.1 = true) items ->
  format_items h items = Ok f -> Forall (fun x => one_line x = true) f.
Proof.
  intros Hsafe Hkeys. apply sequence_map_Forall. intros kv y Hin Hy.
  unfold obind in Hy.
  destruct (py_repr h kv.2) as [r|] eqn:Hr; [|done].
  assert (y = kv.1 +:+ " = " +:+ r) as -> by congruence.
  rewrite Forall_forall in Hkeys.
  apply one_line_app; [by apply Hkeys|].
  apply (one_line_app " = "); [done|]. by eapply one_line_py_repr.
Qed.

(** [format_provider] writes the lines of the record, not indented. *)
Lemma format_provider_layout h data name :
  format_provider h data name = omap (join nl) (layout_record h "" name data).
Proof.
  unfold format_provider, layout_record, omap.
  destruct (dict_items h data) as [items|]; [|done]. cbn [obind].
  destruct (format_items h items) as [f|]; [|done]. cbn [obind]. f_equal.
  unfold record_layout.
  change ("" +:+ name +:+ " = TileProvider(") with (name +:+ " = TileProvider(").
  change ("" +:+ ")") with ")".
  set (mid := match f with [] => _ | _ :: _ => _ end).
  assert (Hmid : join nl mid = "    " +:+ join ("," +:+ nl +:+ "    ") f).
  { unfold mid. rewrite items_lines. by destruct f. }
  assert (Hne : mid <> []).
  { unfold mid. destruct f as [|x xs]; [done|]. intros Hmap.
    apply map_eq_nil in Hmap. by apply (commas_nonempty (x :: xs)). }
  rewrite join_cons by by destruct mid.
  rewrite join_snoc by done. rewrite Hmid. by rewrite !app_assoc_str.
Qed.

Lemma layout_record_indent h prefix pad name data :
  layout_record h (prefix +:+ pad) name data =
  omap (map (indent_line prefix)) (layout_record h pad name data).
Proof.
  unfold layout_record, omap.
  destruct (dict_items h data) as [items|]; [|done]. cbn [obind].
  destruct (format_items h items) as [f|] eqn:Hf; [|done]. cbn [obind].
  f_equal. symmetry. apply indent_record_layout. by eapply format_items_inked.
Qed.

End RecordLines.

Section EntryLines.

Context `{Interpreter}.

Implicit Types (h : heap) (s pad prefix name : string) (f formatted : list string)
  (items fields : pydict) (bs : list (list string)) (v data provider : pyval).

Lemma sequence_map_omap {A B C} (g : A -> outcome B) (j : B -> C) (xs : list A) :
  sequence (map (fun x => omap j (g x)) xs) = omap (map j) (sequence (map g xs)).
Proof.
  induction xs as [|x xs IH]; [done|].
  rewrite !sequence_map_cons, IH. unfold omap.
  destruct (g x) as [y|]; [|done]. cbn [obind].
  by destruct (sequence (map g xs)).
Qed.

Lemma clean_keys_items h v items :
  clean_keys h = true -> dict_items h v = Ok items ->
  Forall (fun kv => one_line kv.1 = true) items.
Proof.
  intros Hclean Hitems. destruct v as [| | | | |l]; try done.
  cbn [dict_items] in Hitems.
  destruct (h !! l) as [[d|]|] eqn:Hl; try done. injection Hitems as ->.
  unfold clean_keys in Hclean. rewrite forallb_forall in Hclean.
  specialize (Hclean (ODict items)). cbn beta iota in Hclean.
  apply Forall_forall. intros kv Hin.
  assert (Hall : forallb (fun kv => one_line kv.1) items = true).
  { apply Hclean. apply list_elem_of_In. by eapply list_elem_of_lookup_2. }
  rewrite forallb_forall in Hall. apply Hall. by apply list_elem_of_In.
Qed.

Lemma layout_record_lines h pad name data lines :
  layout_record h pad name data = Ok lines ->
  lines <> [] /\ ends_inked lines.
Proof.
  unfold layout_record.
  destruct (dict_items h data) as [items|]; [|done]. cbn [obind].
  destruct (format_items h items) as [f|]; [|done]. cbn [obind].
  intros [= <-]. split; [done|apply record_layout_ends].
Qed.

Lemma layout_record_one_line h pad name data lines :
  line_safe -> clean_keys h = true ->
  one_line pad = true -> one_line name = true ->
  layout_record h pad name data = Ok lines ->
  Forall (fun line => one_line line = true) lines.
Proof.
  intros Hsafe Hclean Hpad Hname. unfold layout_record.
  destruct (dict_items h data) as [items|] eqn:Hitems; [|done]. cbn [obind].
  destruct (format_items h items) as [f|] eqn:Hf; [|done]. cbn [obind].
  intros [= <-]. apply one_line_record_layout; [done..|].
  eapply format_items_one_line; [done| |done]. by eapply clean_keys_items.
Qed.

Lemma bunch_layout_ends pad name bs : ends_inked (bunch_layout pad name bs).
Proof.
  unfold bunch_layout. eexists (_ :: _), _. split; [by rewrite app_comm_cons|].
  rewrite inked_app. by rewrite orb_true_r.
Qed.

Lemma indent_bunch_layout prefix pad name bs :
  Forall ends_inked bs ->
  map (indent_line prefix) (bunch_layout pad name bs) =
  bunch_layout (prefix +:+ pad) name (map (map (indent_line prefix)) bs).
Proof.
  intros Hbs. unfold bunch_layout. cbn [map]. rewrite map_app. cbn [map].
  rewrite (indent_line_inked _ (pad +:+ name +:+ " = Bunch("))
    by (rewrite !inked_app; cbn; by rewrite !orb_true_r).
  rewrite (indent_line_inked _ (pad +:+ ")"))
    by (rewrite inked_app; cbn; by rewrite orb_true_r).
  rewrite !app_assoc_str. f_equal. f_equal.
  destruct bs as [|b bs]; [done|].
  change (map (map (indent_line prefix)) (b :: bs))
    with (map (indent_line prefix) b :: map (map (indent_line prefix)) bs).
  cbv iota. by apply map_blocks.
Qed.

(** The records of a mapping of variants, when all of them can be laid
    out. *)
Lemma variants_lines h pad fields bs :
  sequence (map (fun kv => layout_record h pad kv.1 kv.2) fields) = Ok bs ->
  Forall (fun b => b <> [] /\ ends_inked b) bs.
Proof.
  apply sequence_map_Forall. intros kv b _. apply layout_record_lines.
Qed.

Lemma variants_one_line h pad fields bs :
  line_safe -> clean_keys h = true -> one_line pad = true ->
  Forall (fun kv => one_line kv.1 = true) fields ->
  sequence (map (fun kv => layout_record h pad kv.1 kv.2) fields) = Ok bs ->
  Forall (Forall (fun line => one_line line = true)) bs.
Proof.
  intros Hsafe Hclean Hpad Hkeys. apply sequence_map_Forall.
  intros kv b Hin. apply layout_record_one_line; try done.
  rewrite Forall_forall in Hkeys. by apply Hkeys.
Qed.

Lemma variants_indent h prefix pad fields :
  sequence (map (fun kv => layout_record h (prefix +:+ pad) kv.1 kv.2) fields) =
  omap (map (map (indent_line prefix)))
    (sequence (map (fun kv => layout_record h pad kv.1 kv.2) fields)).
Proof.
  rewrite <- sequence_map_omap. apply sequence_map_ext.
  intros kv _. apply layout_record_indent.
Qed.

Lemma layout_entry_indent h prefix pad name provider :
  layout_entry h (prefix +:+ pad) name provider =
  omap (map (indent_line prefix)) (layout_entry h pad name provider).
Proof.
  unfold layout_entry.
  destruct (dict_items h provider) as [fields|]; [|done]. cbn [obind].
  destruct (Dict.mem "url" fields); [apply layout_record_indent|].
  rewrite app_assoc_str, variants_indent. unfold omap.
  destruct (sequence _) as [bs|] eqn:Hbs; [|done]. cbn [obind]. f_equal.
  symmetry. apply indent_bunch_layout.
  eapply Forall_impl; [by eapply variants_lines|]. by intros b [_ ?].
Qed.

Lemma layout_entry_lines h pad name provider lines :
  layout_entry h pad name provider = Ok lines ->
  lines <> [] /\ ends_inked lines.
Proof.
  unfold layout_entry.
  destruct (dict_items h provider) as [fields|]; [|done]. cbn [obind].
  destruct (Dict.mem "url" fields); [apply layout_record_lines|].
  destruct (sequence _) as [bs|]; [|done]. cbn [obind].
  intros [= <-]. split; [done|apply bunch_layout_ends].
Qed.

Lemma layout_entry_one_line h pad name provider lines :
  line_safe -> clean_keys h = true ->
  one_line pad = true -> one_line name = true ->
  layout_entry h pad name provider = Ok lines ->
  Forall (fun line => one_line line = true) lines.
Proof.
  intros Hsafe Hclean Hpad Hname. unfold layout_entry.
  destruct (dict_items h provider) as [fields|] eqn:Hfields; [|done]. cbn [obind].
  destruct (Dict.mem "url" fields); [by apply layout_record_one_line|].
  destruct (sequence _) as [bs|] eqn:Hbs; [|done]. cbn [obind].
  intros [= <-]. unfold bunch_layout. constructor.
  { apply one_line_app; [done|]. by apply one_line_app. }
  apply Forall_app. split; [|constructor; [by apply one_line_app|done]].
  destruct bs as [|b bs]; [by constructor|].
  apply one_line_blocks. eapply variants_one_line; [done..| | |exact Hbs].
  - apply one_line_app; [done|]. done.
  - by eapply clean_keys_items.
Qed.

(** The body of the loop of [generate_file] writes the lines of the
    entry, not indented. *)
Lemma format_entry_layout h name provider :
  line_safe -> clean_keys h = true ->
  format_entry h name provider = omap (join nl) (layout_entry h "" name provider).
Proof.
  intros Hsafe Hclean. unfold format_entry, layout_entry.
  destruct (dict_items h provider) as [fields|] eqn:Hfields; [|done]. cbn [obind].
  destruct (Dict.mem "url" fields); [apply format_provider_layout|].
  unfold format_variants.
  rewrite (sequence_map_ext _ (fun kv => omap (join nl) (layout_record h "" kv.1 kv.2)))
    by (intros kv _; apply format_provider_layout).
  rewrite sequence_map_omap.
  change ("" +:+ "    ") with ("    " +:+ ""). rewrite variants_indent.
  unfold omap.
  destruct (sequence _) as [bs|] eqn:Hbs; [|done]. cbn [obind]. f_equal.
  pose proof (variants_lines _ _ _ _ Hbs) as Hlines.
  assert (Hone : Forall (Forall (fun line => one_line line = true)) bs).
  { apply (variants_one_line h "" fields bs Hsafe Hclean eq_refl);
      [by eapply clean_keys_items|exact Hbs]. }
  unfold format_bunch, bunch_layout.
  change ("" +:+ name +:+ " = Bunch(") with (name +:+ " = Bunch(").
  change ("" +:+ ")") with ")".
  rewrite join_blocks by (eapply Forall_impl; [exact Hlines|]; by intros b [? _]).
  rewrite indent_lines by by apply one_line_blocks.
  rewrite map_blocks by (eapply Forall_impl; [exact Hlines|]; by intros b [_ ?]).
  destruct bs as [|b bs].
  { cbn [map blocks join app]. by rewrite !app_assoc_str. }
  change (map (map (indent_line "    ")) (b :: bs))
    with (map (indent_line "    ") b :: map (map (indent_line "    ")) bs).
  cbv iota.
  set (inner := blocks _).
  assert (Hinner : inner <> []).
  { apply blocks_nonempty; [done|].
    apply Forall_cons in Hlines as [[Hb _] Hlines]. constructor.
    - intros Heq. apply map_eq_nil in Heq. done.
    - apply Forall_fmap. eapply Forall_impl; [exact Hlines|].
      intros b' [Hb' _] Heq. apply map_eq_nil in Heq. done. }
  rewrite join_cons by by destruct inner.
  rewrite join_snoc by done. by rewrite !app_assoc_str.
Qed.

End EntryLines.

(** ** The text of the generated module *)

(** X8.  The layout of the generated module.  When no key of a mapping
    of the store holds a line boundary, [generate_file] fails exactly
    when the catalog cannot be laid out, with the same exception, and
    otherwise returns the template filled with the date, the
    description and the lines of the catalog: an entry with a [url] is
    a [TileProvider] record four columns in with one field to a line
    eight columns in; any other entry is a [Bunch] four columns in
    around the records of its items, eight columns in with their fields
    at twelve.  Joining the texts with commas and indenting them twice
    with [textwrap.indent] gives these lines because the [repr] of a
    value never holds a line boundary. *)
Theorem generate_file_layout `{Interpreter} (h : heap) (data : pyval)
    (description today : string) :
  line_safe ->
  clean_keys h = true ->
  generate_file h data description today =
  (do lines <- layout_catalog h data;
   Ok (template_format (join nl lines) description today)).
Proof.
  intros Hsafe Hclean. unfold generate_file, layout_catalog.
  destruct (dict_items h data) as [entries|] eqn:Hentries; [|done]. cbn [obind].
  rewrite (sequence_map_ext _ (fun kv => omap (join nl) (layout_entry h "" kv.1 kv.2)))
    by (intros kv _; by apply format_entry_layout).
  rewrite sequence_map_omap.
  rewrite (sequence_map_ext (fun kv => layout_entry h "    " kv.1 kv.2)
             (fun kv => omap (map (indent_line "    ")) (layout_entry h "" kv.1 kv.2)))
    by (intros kv _; apply (layout_entry_indent h "    " "")).
  rewrite sequence_map_omap. unfold omap.
  destruct (sequence _) as [es|] eqn:Hes; [|done]. cbn [obind]. do 2 f_equal.
  assert (Hlines : Forall (fun b => b <> [] /\ ends_inked b) es).
  { eapply sequence_map_Forall; [|exact Hes].
    intros kv b _. apply layout_entry_lines. }
  assert (Hone : Forall (Forall (fun line => one_line line = true)) es).
  { eapply sequence_map_Forall; [|exact Hes].
    intros kv b Hin. apply layout_entry_one_line; try done.
    pose proof (clean_keys_items _ _ _ Hclean Hentries) as Hkeys.
    rewrite Forall_forall in Hkeys. by apply Hkeys. }
  rewrite join_blocks by (eapply Forall_impl; [exact Hlines|]; by intros b [? _]).
  rewrite indent_lines by by apply one_line_blocks.
  rewrite map_blocks by (eapply Forall_impl; [exact Hlines|]; by intros b [_ ?]).
  done.
Qed.

Lemma generate_file_layout_witness :
  @generate_file latin1_interpreter (st_heap atlas_normalized.2) (VRef 13)
    "commit 0 (sample)" "2020-01-02" =
  (do lines <- @layout_catalog latin1_interpreter (st_heap atlas_normalized.2) (VRef 13);
   Ok (template_format (join nl lines) "commit 0 (sample)" "2020-01-02")).
Proof.
  apply (@generate_file_layout latin1_interpreter).
  - by repeat split.
  - vm_compute. reflexivity.
Defined.

(** ** One line for every field *)

Section FieldLines.

Implicit Types (s line : string) (lines init : list string).

Lemma splitlines_join init line :
  Forall (fun x => one_line x = true) init ->
  one_line line = true -> line <> "" ->
  splitlines (join nl (init ++ [line])) = map (fun x => x +:+ nl) init ++ [line].
Proof.
  intros Hinit Hline Hne. induction Hinit as [|x init Hx _ IH].
  - by apply splitlines_one_line.
  - cbn [app map]. rewrite join_cons by by destruct init.
    rewrite splitlines_first by done. by rewrite IH.
Qed.

End FieldLines.

(** X9.  A rendered record has one line for every field.  For a record
    with at least one field, whose keys and name hold no line boundary,
    the text [format_provider] returns splits into the line that opens
    the call, one line for every item, each made of four spaces, the
    key, [" = "] and the [repr] of the value, with a comma after all
    but the last, and the closing parenthesis: whatever the values
    are, none of them spills over its line. *)
Theorem format_provider_lines `{Interpreter} (h : heap) (l : loc) (items : pydict)
    (name text : string) :
  line_safe ->
  h !! l = Some (ODict items) ->
  items <> [] ->
  Forall (fun kv => one_line kv.1 = true) items ->
  one_line name = true ->
  format_provider h (VRef l) name = Ok text ->
  exists formatted,
    Forall2 (fun kv f => exists r, py_repr h kv.2 = Ok r /\ f = kv.1 +:+ " = " +:+ r)
      items formatted /\
    splitlines text =
      (name +:+ " = TileProvider(" +:+ nl) ::
      map (fun f => "    " +:+ f +:+ nl) (commas formatted) ++ [")"].
Proof.
  intros Hsafe Hl Hne Hkeys Hname Hrun.
  rewrite format_provider_layout in Hrun. unfold omap, layout_record in Hrun.
  cbn [dict_items] in Hrun. rewrite Hl in Hrun. cbn [obind] in Hrun.
  destruct (format_items h items) as [formatted|] eqn:Hf; [|done].
  cbn [obind] in Hrun.
  assert (text = join nl (record_layout "" name formatted)) as -> by congruence.
  clear Hrun. exists formatted. split.
  { clear -Hf. revert formatted Hf. unfold format_items.
    induction items as [|kv items IH]; intros formatted.
    - intros [= <-]. constructor.
    - rewrite sequence_map_cons.
      destruct (py_repr h kv.2) as [r|] eqn:Hr; [|done]. cbn [obind].
      destruct (sequence _) as [fs|]; [|done]. cbn [obind].
      intros [= <-]. constructor; [by exists r|by apply IH]. }
  assert (Hfne : formatted <> []).
  { intros ->. destruct items as [|kv items]; [done|].
    unfold format_items in Hf. rewrite sequence_map_cons in Hf.
    destruct (py_repr h kv.2); [|done]. cbn [obind] in Hf.
    by destruct (sequence _). }
  pose proof (format_items_one_line _ _ _ Hsafe Hkeys Hf) as Hone.
  unfold record_layout.
  change ("" +:+ name +:+ " = TileProvider(") with (name +:+ " = TileProvider(").
  change ("" +:+ ")") with ")".
  destruct formatted as [|f0 fs]; [done|]. cbv iota.
  rewrite app_comm_cons, splitlines_join; [| |done..].
  - cbn [map]. rewrite app_assoc_str, map_map. cbn [app]. by do 2 f_equal.
  - constructor; [apply one_line_app; [done|done]|].
    apply Forall_fmap. eapply Forall_impl; [by apply one_line_commas|].
    intros x Hx. cbn. by apply (one_line_app "    ").
Qed.

Lemma format_provider_lines_witness :
  exists formatted,
    Forall2 (fun kv f => exists r, @py_repr latin1_interpreter
                                     (st_heap atlas_normalized.2) kv.2 = Ok r /\
                                   f = kv.1 +:+ " = " +:+ r)
      [("url", VStr "http://tile/{z}/{x}/{y}.png"); ("max_zoom", VInt 19);
       ("attribution", VStr osm_attribution); ("name", VStr "OpenStreetMap")]
      formatted /\
    splitlines
      ("OpenStreetMap = TileProvider(" +:+ nl +:+
       "    url = 'http://tile/{z}/{x}/{y}.png'," +:+ nl +:+
       "    max_zoom = 19," +:+ nl +:+
       "    attribution = '" +:+ osm_attribution +:+ "'," +:+ nl +:+
       "    name = 'OpenStreetMap'" +:+ nl +:+
       ")") =
      ("OpenStreetMap" +:+ " = TileProvider(" +:+ nl) ::
      map (fun f => "    " +:+ f +:+ nl) (commas formatted) ++ [")"].
Proof.
  apply (@format_provider_lines latin1_interpreter (st_heap atlas_normalized.2) 16
           [("url", VStr "http://tile/{z}/{x}/{y}.png"); ("max_zoom", VInt 19);
            ("attribution", VStr osm_attribution); ("name", VStr "OpenStreetMap")]
           "OpenStreetMap").
  - by repeat split.
  - vm_compute. reflexivity.
  - done.
  - by_evaluation.
  - reflexivity.
  - vm_compute. reflexivity.
Defined.

(** ** When the module can be generated *)

Section Total.

Context `{Interpreter}.

Implicit Types (h : heap) (v : pyval) (active : list loc) (items fields : pydict).

Lemma existsb_eqb_false l active : existsb (Nat.eqb l) active = false -> l ∉ active.
Proof.
  intros Hex Hin. apply list_elem_of_In in Hin.
  assert (existsb (Nat.eqb l) active = true); [|congruence].
  apply existsb_exists. exists l. split; [done|apply Nat.eqb_refl].
Qed.

Lemma bounded_length active n :
  NoDup active -> (forall l, l ∈ active -> l < n) -> length active <= n.
Proof.
  intros Hnd Hlt.
  assert (Hle : length active <= length (seq 0 n));
    [|by rewrite List.length_seq in Hle].
  apply submseteq_length, NoDup_submseteq; [done|].
  intros l Hl. apply elem_of_seq. specialize (Hlt l Hl). lia.
Qed.

Lemma closed_lookup h l o :
  closed h = true -> h !! l = Some o ->
  match o with
  | ODict items => Forall (fun kv => in_store h kv.2 = true) items
  | OList elems => Forall (fun x => in_store h x = true) elems
  end.
Proof.
  unfold closed. rewrite forallb_forall. intros Hall Hl.
  specialize (Hall o). cbv beta in Hall.
  assert (Hin : In o h) by (apply list_elem_of_In; by eapply list_elem_of_lookup_2).
  specialize (Hall Hin). destruct o as [items|elems];
    rewrite forallb_forall in Hall; apply Forall_forall; intros x Hx;
    apply Hall; by apply list_elem_of_In.
Qed.

(** The bound on the nesting does not run out: [repr] of a value of a
    closed store is a text, also when containers hold themselves. *)
Lemma repr_fuel_total fuel h active v :
  closed h = true -> in_store h v = true ->
  NoDup active -> (forall l, l ∈ active -> l < length h) ->
  length h <= fuel + length active ->
  exists r, repr_fuel fuel h active v = Ok r.
Proof.
  intros Hclosed. revert active v.
  induction fuel as [|fuel IH]; intros active v Hv Hnd Hlt Hfuel;
    (destruct v as [| [|] | z | bits | s | l]; cbn [repr_fuel]; try by eexists).
  - cbn [in_store] in Hv. apply Nat.ltb_lt in Hv.
    destruct (lookup_lt_is_Some_2 h l Hv) as [o Hl]. rewrite Hl.
    destruct (existsb (Nat.eqb l) active) eqn:Hact; [by eexists|].
    apply existsb_eqb_false in Hact.
    assert (length (l :: active) <= length h); [|simpl in *; lia].
    apply bounded_length; [by constructor|].
    intros l' [->|Hl']%elem_of_cons; [done|by apply Hlt].
  - cbn [in_store] in Hv. apply Nat.ltb_lt in Hv.
    destruct (lookup_lt_is_Some_2 h l Hv) as [o Hl]. rewrite Hl.
    destruct (existsb (Nat.eqb l) active) eqn:Hact; [by eexists|].
    apply existsb_eqb_false in Hact.
    assert (Hrec : forall x, in_store h x = true ->
                             exists r, repr_fuel fuel h (l :: active) x = Ok r).
    { intros x Hx. apply IH; [done|by constructor| |simpl; lia].
      intros l' [->|Hl']%elem_of_cons; [done|by apply Hlt]. }
    pose proof (closed_lookup _ _ _ Hclosed Hl) as Hin.
    destruct o as [items|elems].
    + destruct (sequence_map_total
                  (fun kv : string * pyval =>
                     do r <- repr_fuel fuel h (l :: active) kv.2;
                     Ok (repr_str kv.1 +:+ ": " +:+ r)) items) as [parts ->].
      { eapply Forall_impl; [exact Hin|]. intros kv Hkv.
        destruct (Hrec _ Hkv) as [r ->]. by eexists. }
      by eexists.
    + destruct (sequence_map_total (repr_fuel fuel h (l :: active)) elems)
        as [parts ->].
      { eapply Forall_impl; [exact Hin|]. intros x Hx. by apply Hrec. }
      by eexists.
Qed.

Lemma py_repr_total h v :
  closed h = true -> in_store h v = true -> exists r, py_repr h v = Ok r.
Proof.
  intros Hclosed Hv. apply repr_fuel_total; try done.
  - constructor.
  - intros l Hl. by apply elem_of_nil in Hl.
  - simpl. lia.
Qed.

Lemma format_items_total h items :
  closed h = true -> Forall (fun kv => in_store h kv.2 = true) items ->
  exists formatted, format_items h items = Ok formatted.
Proof.
  intros Hclosed Hitems. apply sequence_map_total.
  eapply Forall_impl; [exact Hitems|]. intros kv Hkv.
  destruct (py_repr_total h kv.2 Hclosed Hkv) as [r ->]. by eexists.
Qed.

Lemma dict_items_closed h v items :
  closed h = true -> dict_items h v = Ok items ->
  Forall (fun kv => in_store h kv.2 = true) items.
Proof.
  intros Hclosed Hitems. destruct v as [| | | | |l]; try done.
  cbn [dict_items] in Hitems.
  destruct (h !! l) as [[d|]|] eqn:Hl; try done. injection Hitems as ->.
  apply (closed_lookup _ _ _ Hclosed Hl).
Qed.

(** A mapping of a closed store can always be written as a record. *)
Lemma format_provider_total h v items name :
  closed h = true -> dict_items h v = Ok items ->
  exists text, format_provider h v name = Ok text.
Proof.
  intros Hclosed Hitems. unfold format_provider. rewrite Hitems. cbn [obind].
  destruct (format_items_total h items Hclosed) as [formatted ->];
    [by eapply dict_items_closed|].
  by eexists.
Qed.

End Total.

(** X10.  [generate_file] returns for every well-formed catalog.  In a
    store whose references all point into it, where the catalog is a
    mapping and every entry is a mapping that has a [url], or whose
    values are mappings all of them, [generate_file] returns a text,
    whatever the values of the records are. *)
Theorem generate_file_returns `{Interpreter} (h : heap) (data : pyval)
    (entries : pydict) (description today : string) :
  closed h = true ->
  dict_items h data = Ok entries ->
  Forall (fun kv =>
            exists fields,
              dict_items h kv.2 = Ok fields /\
              (Dict.mem "url" fields = true \/
               Forall (fun variant => exists items,
                         dict_items h variant.2 = Ok items) fields))
         entries ->
  exists text, generate_file h data description today = Ok text.
Proof.
  intros Hclosed Hdata Hentries. unfold generate_file. rewrite Hdata. cbn [obind].
  destruct (sequence_map_total (fun kv => format_entry h kv.1 kv.2) entries)
    as [providers ->]; [|by eexists].
  eapply Forall_impl; [exact Hentries|].
  intros [name provider] (fields & Hfields & Hshape). cbn [fst snd] in *.
  unfold format_entry. rewrite Hfields. cbn [obind].
  destruct Hshape as [->|Hvariants].
  - by eapply format_provider_total.
  - destruct (Dict.mem "url" fields); [by eapply format_provider_total|].
    unfold format_variants.
    destruct (sequence_map_total (fun kv => format_provider h kv.2 kv.1) fields)
      as [variants ->]; [|by eexists].
    eapply Forall_impl; [exact Hvariants|].
    intros variant (items & Hitems). by eapply format_provider_total.
Qed.

Lemma generate_file_returns_witness :
  exists text,
    @generate_file latin1_interpreter (st_heap atlas_normalized.2) (VRef 13)
      "commit 0 (sample)" "2020-01-02" = Ok text.
Proof.
  apply (@generate_file_returns latin1_interpreter (st_heap atlas_normalized.2)
           (VRef 13)
           [("OpenStreetMap", VRef 16); ("Esri", VRef 19);
            ("OpenMapSurfer", VRef 22); ("Maps", VRef 25)]).
  - vm_compute. reflexivity.
  - vm_compute. reflexivity.
  - repeat constructor; cbn [snd];
      (eexists; split; [vm_compute; reflexivity|]);
      first [left; reflexivity | right; repeat constructor; by eexists].
Defined.

(** X11.  [generate_file] cannot write a record that has no [url].  An
    entry of the catalog without the key [url] is taken for a mapping of
    variants, and each of its values for the record of a variant: when
    one of the values is not a mapping (a string, a number, a list),
    and the entries and values before it can be written,
    [generate_file] raises [AttributeError].  A record that
    [process_data] made for a provider without [url] is such an entry:
    its [name] is a string. *)
Theorem generate_file_needs_url `{Interpreter} (h : heap) (data provider value : pyval)
    (before after first rest : pydict) (name key description today : string) :
  dict_items h data = Ok (before ++ (name, provider) :: after) ->
  Forall (fun kv => exists text, format_entry h kv.1 kv.2 = Ok text) before ->
  dict_items h provider = Ok (first ++ (key, value) :: rest) ->
  Dict.mem "url" (first ++ (key, value) :: rest) = false ->
  Forall (fun kv => exists text, format_provider h kv.2 kv.1 = Ok text) first ->
  dict_items h value = Raise AttributeError ->
  generate_file h data description today = Raise AttributeError.
Proof.
  intros Hdata Hbefore Hprovider Hurl Hfirst Hvalue.
  unfold generate_file. rewrite Hdata. cbn [obind].
  rewrite (sequence_map_raise _ _ _ _ AttributeError Hbefore); [done|].
  cbn [fst snd]. unfold format_entry. rewrite Hprovider. cbn [obind].
  rewrite Hurl. unfold format_variants.
  rewrite (sequence_map_raise _ _ _ _ AttributeError Hfirst); [done|].
  cbn [fst snd]. unfold format_provider. by rewrite Hvalue.
Qed.

Lemma generate_file_needs_url_witness :
  @generate_file latin1_interpreter (st_heap no_url_normalized.2) (VRef 8)
    "commit 0 (sample)" "2020-01-02" = Raise AttributeError.
Proof.
  apply (@generate_file_needs_url latin1_interpreter (st_heap no_url_normalized.2)
           (VRef 8) (VRef 11) (VStr osm_attribution)
           [] [("Esri", VRef 14); ("OpenMapSurfer", VRef 17)]
           [] [("name", VStr "OpenStreetMap")] "OpenStreetMap" "attribution").
  - vm_compute. reflexivity.
  - constructor.
  - vm_compute. reflexivity.
  - reflexivity.
  - constructor.
  - reflexivity.
Defined.
